(** * Smart-Event seating planner: the seating store and the round-table geometry

    A shallow embedding of [useSeatingStore] (the zustand store holding the
    [SeatingLayout]), of the export / import handlers of [App.tsx] and of
    [getSeatPosition] of [RoundTable.tsx], with the properties of the
    specification stated over them.

    Conventions of the embedding.
    - A JavaScript string is the list of its UTF-16 code units ([jsstring]).
    - A JavaScript [number] that counts or indexes (seat counts, rows, positions,
      coordinates of a table) is an integer of [Z]; the geometry, which calls
      [Math.cos] and [Math.sin], is stated over the reals.
    - [string | null] and optional fields are [option].
    - [uuidv4()] is a draw from a supply [u : nat -> jsstring] handed to the
      operation: [u k] is the k-th identifier drawn during the call.
    - zustand's [set] merges the returned partial state into the store, so an
      operation is a function [SeatingLayout -> SeatingLayout] that keeps the
      fields the source does not return. *)

From Stdlib Require Import List ZArith NArith Bool Lia String Ascii.
From Stdlib Require Import Reals Lra.
Import ListNotations.

(* ------------------------------------------------------------------ *)
(** ** JavaScript strings *)

Module JsString.

Definition jsstring := list N.

Fixpoint eqb (a b : jsstring) : bool :=
  match a, b with
  | [], [] => true
  | c :: a', d :: b' => N.eqb c d && eqb a' b'
  | _, _ => false
  end.

(** Decoding of a UTF-8 literal of this file into UTF-16 code units, so that
    names can be written as they appear in the specification. *)
Fixpoint utf16_of_bytes (fuel : nat) (bs : list N) : jsstring :=
  match fuel with
  | O => []
  | S fuel' =>
    match bs with
    | [] => []
    | b0 :: r0 =>
      if (b0 <? 0x80)%N then b0 :: utf16_of_bytes fuel' r0
      else if (b0 <? 0xE0)%N then
        match r0 with
        | b1 :: r1 =>
            ((b0 - 0xC0) * 64 + (b1 - 0x80))%N :: utf16_of_bytes fuel' r1
        | _ => []
        end
      else if (b0 <? 0xF0)%N then
        match r0 with
        | b1 :: b2 :: r2 =>
            ((b0 - 0xE0) * 4096 + (b1 - 0x80) * 64 + (b2 - 0x80))%N
              :: utf16_of_bytes fuel' r2
        | _ => []
        end
      else
        match r0 with
        | b1 :: b2 :: b3 :: r3 =>
            let cp := ((b0 - 0xF0) * 262144 + (b1 - 0x80) * 4096
                       + (b2 - 0x80) * 64 + (b3 - 0x80) - 0x10000)%N in
            (0xD800 + cp / 1024)%N :: (0xDC00 + cp mod 1024)%N
              :: utf16_of_bytes fuel' r3
        | _ => []
        end
    end
  end.

Definition lit (s : string) : jsstring :=
  let bs := map N_of_ascii (list_ascii_of_string s) in
  utf16_of_bytes (List.length bs) bs.

(** A string is truthy when it is not empty. *)
Definition truthy (s : jsstring) : bool :=
  match s with [] => false | _ :: _ => true end.

(** [WhiteSpace] and [LineTerminator] of ECMAScript: what [String.prototype.trim]
    strips and what the class [\s] of a regular expression matches. *)
Definition is_space (c : N) : bool :=
  ((9 <=? c) && (c <=? 13) || (c =? 32) || (c =? 0xA0) || (c =? 0x1680)
   || ((0x2000 <=? c) && (c <=? 0x200A)) || (c =? 0x2028) || (c =? 0x2029)
   || (c =? 0x202F) || (c =? 0x205F) || (c =? 0x3000) || (c =? 0xFEFF))%N.

Fixpoint trimStart (s : jsstring) : jsstring :=
  match s with
  | [] => []
  | c :: s' => if is_space c then trimStart s' else s
  end.

Definition trimEnd (s : jsstring) : jsstring := rev (trimStart (rev s)).

Definition trim (s : jsstring) : jsstring := trimEnd (trimStart s).

(** [s.split(/\s+/)]: the pieces of [s] between maximal runs of white space,
    the empty first and last pieces included. [cur] is the piece being read,
    reversed; [insp] tells that the previous unit was white space. *)
Fixpoint split_go (cur : jsstring) (insp : bool) (s : jsstring) : list jsstring :=
  match s with
  | [] => [rev cur]
  | c :: s' =>
      if is_space c then
        if insp then split_go cur true s'
        else rev cur :: split_go [] true s'
      else split_go (c :: cur) false s'
  end.

Definition split_ws (s : jsstring) : list jsstring := split_go [] false s.

(** [parts.join(sep)]. *)
Fixpoint join (sep : jsstring) (parts : list jsstring) : jsstring :=
  match parts with
  | [] => []
  | [p] => p
  | p :: rest => p ++ sep ++ join sep rest
  end.

Definition space : jsstring := [32%N].

End JsString.

Import JsString.

(* ------------------------------------------------------------------ *)
(** ** The entity model ([src/types/index.ts]) *)

Inductive TableType := round | square | rectangle | theater | amphitheater.

Record Guest := mkGuest {
  guest_id : jsstring;
  firstName : jsstring;
  lastName : jsstring;
  middleName : option jsstring;
  fullName : jsstring
}.

Record Seat := mkSeat {
  seat_id : jsstring;
  guestId : option jsstring;
  position : Z
}.

Record TableRow := mkRow { seatCount : Z }.

Record Table := mkTable {
  table_id : jsstring;
  type : TableType;
  name : jsstring;
  x : Z;
  y : Z;
  rotation : Z;
  seats : list Seat;
  rows : option Z;
  seatsPerRow : option Z;
  rowConfigs : option (list TableRow);
  width : Z;
  height : Z
}.

Record SeatingLayout := mkLayout {
  tables : list Table;
  guests : list Guest;
  unassignedGuests : list jsstring
}.

(** The partial configuration taken by [updateTableConfig]; an absent field is
    [undefined]. *)
Record TableConfigUpdate := mkConfig {
  cfg_name : option jsstring;
  cfg_x : option Z;
  cfg_y : option Z;
  cfg_rotation : option Z;
  cfg_width : option Z;
  cfg_height : option Z;
  cfg_rows : option Z;
  cfg_seatsPerRow : option Z;
  cfg_seats : option Z;
  cfg_rowConfigs : option (list TableRow)
}.

Definition noConfig : TableConfigUpdate :=
  mkConfig None None None None None None None None None None.

(** Functional record updates, the [{ ...s, guestId: g }] of the source. *)
Definition withGuest (s : Seat) (g : option jsstring) : Seat :=
  mkSeat (seat_id s) g (position s).

Definition withSeats (t : Table) (ss : list Seat) : Table :=
  mkTable (table_id t) (type t) (name t) (x t) (y t) (rotation t) ss
          (rows t) (seatsPerRow t) (rowConfigs t) (width t) (height t).

(** [s.guestId === g] for a seat reference that may be [null]. *)
Definition holds (s : Seat) (g : jsstring) : bool :=
  match guestId s with
  | Some g' => eqb g' g
  | None => false
  end.

(** Truthiness of a seat's guest reference, as in [filter((s) => s.guestId)]. *)
Definition occupied (s : Seat) : bool :=
  match guestId s with
  | Some g => truthy g
  | None => false
  end.

(** [seats.filter((s) => s.guestId).map((s) => s.guestId!)]. *)
Fixpoint assignedIds (ss : list Seat) : list jsstring :=
  match ss with
  | [] => []
  | s :: ss' =>
      match guestId s with
      | Some g => if truthy g then g :: assignedIds ss' else assignedIds ss'
      | None => assignedIds ss'
      end
  end.

(** [a || d] on an optional number: [undefined], and [0], give the default. *)
Definition orDefault (a : option Z) (d : Z) : Z :=
  match a with
  | Some v => if (v =? 0)%Z then d else v
  | None => d
  end.

(** [a ?? b]. *)
Definition nullish {A} (a : option A) (b : A) : A :=
  match a with Some v => v | None => b end.

Definition nullishOpt {A} (a b : option A) : option A :=
  match a with Some v => Some v | None => b end.

(* ------------------------------------------------------------------ *)
(** ** Helpers of the store *)

(** The loop [for (let i = 0; i < n; i++) seats.push({id: uuidv4(), guestId: null, position: i})]. *)
Definition freshSeats (u : nat -> jsstring) (n : Z) : list Seat :=
  map (fun i => mkSeat (u i) None (Z.of_nat i)) (seq 0 (Z.to_nat n)).

Definition createSeats (u : nat -> jsstring) (ty : TableType) (seatsCount : Z)
           (rows seatsPerRow : option Z) : list Seat :=
  match ty with
  | theater | amphitheater =>
      let actualRows := orDefault rows 5 in
      let actualSeatsPerRow := orDefault seatsPerRow 8 in
      let totalSeats := (actualRows * actualSeatsPerRow)%Z in
      freshSeats u totalSeats
  | _ => freshSeats u seatsCount
  end.

(** [getDefaultTableSize]: width, height and seat count of a new table. *)
Definition getDefaultTableSize (ty : TableType) : Z * Z * Z :=
  match ty with
  | round => (160, 160, 8)
  | square => (140, 140, 8)
  | rectangle => (200, 120, 10)
  | theater => (400, 300, 40)
  | amphitheater => (400, 300, 40)
  end%Z.

Record ParsedName := mkParsed {
  p_firstName : jsstring;
  p_lastName : jsstring;
  p_middleName : option jsstring
}.

Definition parseGuestName (fullName : jsstring) : ParsedName :=
  let parts := filter truthy (split_ws (trim fullName)) in
  match parts with
  | [] => mkParsed [] [] None
  | [p0] => mkParsed p0 [] None
  | [p0; p1] => mkParsed p1 p0 None
  | p0 :: p1 :: rest => mkParsed p1 p0 (Some (join space rest))
  end.

Definition truthyOpt (o : option jsstring) : bool :=
  match o with Some s => truthy s | None => false end.

(* ------------------------------------------------------------------ *)
(** ** The operations of the store ([useSeatingStore]) *)

Definition emptyLayout : SeatingLayout := mkLayout [] [] [].

Definition addGuest (u : nat -> jsstring) (first last : jsstring)
           (middle : option jsstring) (state : SeatingLayout) : SeatingLayout :=
  let middleT := option_map trim middle in
  let formattedFullName :=
    match middleT with
    | Some m =>
        if truthy m then trim last ++ space ++ trim first ++ space ++ m
        else trim (trim last ++ space ++ trim first)
    | None => trim (trim last ++ space ++ trim first)
    end in
  let guest :=
    mkGuest (u 0%nat) (trim first) (trim last)
            (if truthyOpt middleT then middleT else None) formattedFullName in
  mkLayout (tables state) (guests state ++ [guest])
           (unassignedGuests state ++ [guest_id guest]).

(** Clearing a guest from every seat of a table that references them. *)
Definition clearGuest (g : jsstring) (t : Table) : Table :=
  withSeats t (map (fun s => if holds s g then withGuest s None else s) (seats t)).

Definition removeGuest (g : jsstring) (state : SeatingLayout) : SeatingLayout :=
  let updatedTables := map (clearGuest g) (tables state) in
  mkLayout updatedTables
           (filter (fun gu => negb (eqb (guest_id gu) g)) (guests state))
           (filter (fun i => negb (eqb i g)) (unassignedGuests state)).

(** The [forEach] of [importGuests]; [k] counts the identifiers drawn so far. *)
Fixpoint importLoop (u : nat -> jsstring) (k : nat) (names : list jsstring) : list Guest :=
  match names with
  | [] => []
  | nm :: rest =>
      if truthy (trim nm) then
        let parsed := parseGuestName (trim nm) in
        let formattedFullName :=
          if truthyOpt (p_middleName parsed)
          then p_lastName parsed ++ space ++ p_firstName parsed ++ space
               ++ nullish (p_middleName parsed) []
          else trim (p_lastName parsed ++ space ++ p_firstName parsed) in
        mkGuest (u k) (p_firstName parsed) (p_lastName parsed)
                (p_middleName parsed) formattedFullName
          :: importLoop u (S k) rest
      else importLoop u k rest
  end.

Definition importGuests (u : nat -> jsstring) (names : list jsstring)
           (state : SeatingLayout) : SeatingLayout :=
  let newGuests := importLoop u 0 names in
  let newIds := map guest_id newGuests in
  mkLayout (tables state) (guests state ++ newGuests)
           (unassignedGuests state ++ newIds).

Definition isTheaterStyle (ty : TableType) : bool :=
  match ty with theater | amphitheater => true | _ => false end.

Definition isAmphitheater (ty : TableType) : bool :=
  match ty with amphitheater => true | _ => false end.

(** [addTable]: the table identifier is the first draw, the seats take the
    following ones. *)
Definition newTable (u : nat -> jsstring) (ty : TableType) (nm : jsstring)
           (px py : Z) : Table :=
  let '(w, h, n) := getDefaultTableSize ty in
  mkTable (u 0%nat) ty nm px py 0
          (createSeats (fun i => u (S i)) ty n (Some 5%Z) (Some 8%Z))
          (if isTheaterStyle ty then Some 5%Z else None)
          (if isTheaterStyle ty then Some 8%Z else None)
          (if isAmphitheater ty then Some (repeat (mkRow 8) 5) else None)
          w h.

Definition addTable (u : nat -> jsstring) (ty : TableType) (nm : jsstring)
           (px py : Z) (state : SeatingLayout) : SeatingLayout :=
  mkLayout (tables state ++ [newTable u ty nm px py])
           (guests state) (unassignedGuests state).

Definition findTable (tid : jsstring) (ts : list Table) : option Table :=
  find (fun t => eqb (table_id t) tid) ts.

Definition findSeat (sid : jsstring) (ss : list Seat) : option Seat :=
  find (fun s => eqb (seat_id s) sid) ss.

Definition removeTable (tid : jsstring) (state : SeatingLayout) : SeatingLayout :=
  let assignedGuestIds :=
    match findTable tid (tables state) with
    | Some t => assignedIds (seats t)
    | None => []
    end in
  mkLayout (filter (fun t => negb (eqb (table_id t) tid)) (tables state))
           (guests state)
           (unassignedGuests state ++ assignedGuestIds).

Definition updateTablePosition (tid : jsstring) (px py : Z)
           (state : SeatingLayout) : SeatingLayout :=
  mkLayout
    (map (fun t => if eqb (table_id t) tid
                   then mkTable (table_id t) (type t) (name t) px py (rotation t)
                                (seats t) (rows t) (seatsPerRow t) (rowConfigs t)
                                (width t) (height t)
                   else t) (tables state))
    (guests state) (unassignedGuests state).

Definition updateTableRotation (tid : jsstring) (rot : Z)
           (state : SeatingLayout) : SeatingLayout :=
  mkLayout
    (map (fun t => if eqb (table_id t) tid
                   then mkTable (table_id t) (type t) (name t) (x t) (y t) rot
                                (seats t) (rows t) (seatsPerRow t) (rowConfigs t)
                                (width t) (height t)
                   else t) (tables state))
    (guests state) (unassignedGuests state).

(** [rowConfigs.reduce((sum, r) => sum + r.seatCount, 0)]. *)
Definition sumRows (rc : list TableRow) : Z :=
  fold_left (fun sum r => (sum + seatCount r)%Z) rc 0%Z.

(** The loop of the [rowConfigs] branch of [updateTableConfig]: seat [i] keeps
    the identifier and the guest of the existing seat [i] when there is one,
    and is a new empty seat otherwise. A draw happens only for
    [i >= existingSeats.length], so seat [i] takes draw [i - length]. *)
Definition rebuildSeats (u : nat -> jsstring) (existingSeats : list Seat)
           (seatsCount : Z) : list Seat :=
  map (fun i =>
         match nth_error existingSeats i with
         | Some e => mkSeat (seat_id e) (guestId e) (Z.of_nat i)
         | None => mkSeat (u (i - List.length existingSeats)%nat) None (Z.of_nat i)
         end)
      (seq 0 (Z.to_nat seatsCount)).

(** The loop [for (i < Math.min(existing.length, new.length)) newSeats[i].guestId = existingSeats[i].guestId]. *)
Fixpoint copyGuests (existingSeats newSeats : list Seat) : list Seat :=
  match existingSeats, newSeats with
  | e :: es, n :: ns => withGuest n (guestId e) :: copyGuests es ns
  | _, _ => newSeats
  end.

Definition isSome {A} (o : option A) : bool :=
  match o with Some _ => true | None => false end.

(** Does the configuration touch the seating ([seats], [rows], [seatsPerRow]
    or [rowConfigs] present)? *)
Definition seatingChanged (config : TableConfigUpdate) : bool :=
  isSome (cfg_seats config) || isSome (cfg_rows config)
  || isSome (cfg_seatsPerRow config) || isSome (cfg_rowConfigs config).

(** The table written back by [updateTableConfig]. *)
Definition updatedTable (u : nat -> jsstring) (config : TableConfigUpdate)
           (table : Table) : Table :=
  let newSeats :=
    if seatingChanged config then
      match cfg_rowConfigs config with
      | Some rc =>
          let seatsCount := nullish (cfg_seats config) (sumRows rc) in
          rebuildSeats u (seats table) seatsCount
      | None =>
          let seatsCount := nullish (cfg_seats config) (Z.of_nat (List.length (seats table))) in
          let rows' := nullishOpt (cfg_rows config) (rows table) in
          let seatsPerRow' := nullishOpt (cfg_seatsPerRow config) (seatsPerRow table) in
          copyGuests (seats table) (createSeats u (type table) seatsCount rows' seatsPerRow')
      end
    else seats table in
  mkTable (table_id table) (type table)
          (nullish (cfg_name config) (name table))
          (nullish (cfg_x config) (x table))
          (nullish (cfg_y config) (y table))
          (nullish (cfg_rotation config) (rotation table))
          newSeats
          (nullishOpt (cfg_rows config) (rows table))
          (nullishOpt (cfg_seatsPerRow config) (seatsPerRow table))
          (nullishOpt (cfg_rowConfigs config) (rowConfigs table))
          (nullish (cfg_width config) (width table))
          (nullish (cfg_height config) (height table)).

Definition updateTableConfig (u : nat -> jsstring) (tid : jsstring)
           (config : TableConfigUpdate) (state : SeatingLayout) : SeatingLayout :=
  match findTable tid (tables state) with
  | None => state
  | Some table =>
      let ut := updatedTable u config table in
      mkLayout (map (fun t => if eqb (table_id t) tid then ut else t) (tables state))
               (guests state) (unassignedGuests state)
  end.

(** Placing a guest on the seats of a table whose identifier is [sid]. *)
Definition seatGuest (g sid : jsstring) (t : Table) : Table :=
  withSeats t (map (fun s => if eqb (seat_id s) sid then withGuest s (Some g) else s)
                   (seats t)).

(** Emptying the seats of a table whose identifier is [sid]. *)
Definition emptySeat (sid : jsstring) (t : Table) : Table :=
  withSeats t (map (fun s => if eqb (seat_id s) sid then withGuest s None else s)
                   (seats t)).

Definition assignGuestToSeat (g tid sid : jsstring)
           (state : SeatingLayout) : SeatingLayout :=
  let tablesWithGuestRemoved := map (clearGuest g) (tables state) in
  let updatedTables :=
    map (fun t => if eqb (table_id t) tid then seatGuest g sid t else t)
        tablesWithGuestRemoved in
  mkLayout updatedTables (guests state)
           (filter (fun i => negb (eqb i g)) (unassignedGuests state)).

Definition unassignGuestFromSeat (tid sid : jsstring)
           (state : SeatingLayout) : SeatingLayout :=
  let guestId' :=
    match findTable tid (tables state) with
    | Some table =>
        match findSeat sid (seats table) with
        | Some seat => guestId seat
        | None => None
        end
    | None => None
    end in
  match guestId' with
  | Some g =>
      if truthy g then
        mkLayout (map (fun t => if eqb (table_id t) tid then emptySeat sid t else t)
                      (tables state))
                 (guests state)
                 (unassignedGuests state ++ [g])
      else state
  | None => state
  end.

(** [targetSeat?.guestId || null]. *)
Definition targetGuest (sid : jsstring) (t : Table) : option jsstring :=
  match findSeat sid (seats t) with
  | Some seat => if occupied seat then guestId seat else None
  | None => None
  end.

(** The [map] of [moveGuestBetweenSeats] with its captured variable
    [displacedGuestId] threaded through: a table whose identifier is
    [fromTableId] returns from the first [if] and never reaches the second. *)
Fixpoint moveTables (g fromT fromS toT toS : jsstring) (ts : list Table)
         (displaced : option jsstring) : list Table * option jsstring :=
  match ts with
  | [] => ([], displaced)
  | t :: rest =>
      if eqb (table_id t) fromT then
        let (r, d) := moveTables g fromT fromS toT toS rest displaced in
        (emptySeat fromS t :: r, d)
      else if eqb (table_id t) toT then
        let (r, d) := moveTables g fromT fromS toT toS rest (targetGuest toS t) in
        (seatGuest g toS t :: r, d)
      else
        let (r, d) := moveTables g fromT fromS toT toS rest displaced in
        (t :: r, d)
  end.

Definition moveGuestBetweenSeats (g fromT fromS toT toS : jsstring)
           (state : SeatingLayout) : SeatingLayout :=
  let (updatedTables, displacedGuestId) :=
    moveTables g fromT fromS toT toS (tables state) None in
  let newUnassigned :=
    match displacedGuestId with
    | Some d =>
        if truthy d && negb (eqb d g)
        then unassignedGuests state ++ [d]
        else unassignedGuests state
    | None => unassignedGuests state
    end in
  mkLayout updatedTables (guests state) newUnassigned.

Definition clearLayout (state : SeatingLayout) : SeatingLayout :=
  let allAssignedGuestIds := assignedIds (flat_map seats (tables state)) in
  mkLayout [] (guests state) (unassignedGuests state ++ allAssignedGuestIds).

Definition resetAll (state : SeatingLayout) : SeatingLayout := mkLayout [] [] [].

(* ------------------------------------------------------------------ *)
(** ** Reachable layouts *)

(** One call of a store operation, with its arguments and, for the operations
    that call [uuidv4], the identifiers drawn. *)
Inductive Op :=
| OpAddGuest (u : nat -> jsstring) (first last : jsstring) (middle : option jsstring)
| OpRemoveGuest (g : jsstring)
| OpImportGuests (u : nat -> jsstring) (names : list jsstring)
| OpAddTable (u : nat -> jsstring) (ty : TableType) (nm : jsstring) (px py : Z)
| OpRemoveTable (tid : jsstring)
| OpUpdateTablePosition (tid : jsstring) (px py : Z)
| OpUpdateTableRotation (tid : jsstring) (rot : Z)
| OpUpdateTableConfig (u : nat -> jsstring) (tid : jsstring) (config : TableConfigUpdate)
| OpAssignGuestToSeat (g tid sid : jsstring)
| OpUnassignGuestFromSeat (tid sid : jsstring)
| OpMoveGuestBetweenSeats (g fromT fromS toT toS : jsstring)
| OpClearLayout
| OpResetAll.

Definition step (state : SeatingLayout) (o : Op) : SeatingLayout :=
  match o with
  | OpAddGuest u f l m => addGuest u f l m state
  | OpRemoveGuest g => removeGuest g state
  | OpImportGuests u names => importGuests u names state
  | OpAddTable u ty nm px py => addTable u ty nm px py state
  | OpRemoveTable tid => removeTable tid state
  | OpUpdateTablePosition tid px py => updateTablePosition tid px py state
  | OpUpdateTableRotation tid rot => updateTableRotation tid rot state
  | OpUpdateTableConfig u tid config => updateTableConfig u tid config state
  | OpAssignGuestToSeat g tid sid => assignGuestToSeat g tid sid state
  | OpUnassignGuestFromSeat tid sid => unassignGuestFromSeat tid sid state
  | OpMoveGuestBetweenSeats g fT fS tT tS => moveGuestBetweenSeats g fT fS tT tS state
  | OpClearLayout => clearLayout state
  | OpResetAll => resetAll state
  end.

(** The layout reached from the empty store by a sequence of calls. *)
Definition run (ops : list Op) : SeatingLayout := fold_left step ops emptyLayout.

(* ------------------------------------------------------------------ *)
(** ** The properties of the specification, as predicates on layouts *)

(** How often a guest identifier occurs in [unassignedGuests], and how many
    seats of the layout reference it. *)
Definition countUnassigned (g : jsstring) (L : SeatingLayout) : nat :=
  List.length (filter (eqb g) (unassignedGuests L)).

Definition countSeated (g : jsstring) (L : SeatingLayout) : nat :=
  List.length (filter (fun s => holds s g) (flat_map seats (tables L))).

(** The guest is unassigned exactly once and seated nowhere, or seated on
    exactly one seat and not unassigned. *)
Definition placedOnce (L : SeatingLayout) (g : Guest) : bool :=
  let a := countUnassigned (guest_id g) L in
  let b := countSeated (guest_id g) L in
  (Nat.eqb a 1 && Nat.eqb b 0) || (Nat.eqb a 0 && Nat.eqb b 1).

Definition layoutInvariant (L : SeatingLayout) : bool :=
  forallb (placedOnce L) (guests L).

(** The seat count implied by the layout parameters of a table: rows times
    seats per row for a theater, the sum of the per-row counts for an
    amphitheater. A round, square or rectangle table stores no seat count
    besides its seat list. *)
Definition impliedSeatCount (t : Table) : option Z :=
  match type t with
  | theater =>
      match rows t, seatsPerRow t with
      | Some r, Some c => Some (r * c)%Z
      | _, _ => None
      end
  | amphitheater => option_map sumRows (rowConfigs t)
  | _ => None
  end.

Definition seatCountOk (t : Table) : bool :=
  match impliedSeatCount t with
  | Some n => (Z.of_nat (List.length (seats t)) =? n)%Z
  | None => true
  end.

(** The seat stored at index [i] has position [i]. *)
Definition indexed (ss : list Seat) : Prop :=
  map position ss = map Z.of_nat (seq 0 (List.length ss)).

Definition seatsIndexed (L : SeatingLayout) : Prop :=
  Forall (fun t => indexed (seats t)) (tables L).

(** The guest references of the seats of every table, in order. *)
Definition seatGuests (L : SeatingLayout) : list (list (option jsstring)) :=
  map (fun t => map guestId (seats t)) (tables L).

(* ------------------------------------------------------------------ *)
(** ** Functions used to state and prove the properties *)

(** Assigning a guest to a seat, seat by seat: first [unseat], then [place]. *)
Definition unseat (g : jsstring) (s : Seat) : Seat :=
  if holds s g then withGuest s None else s.

Definition place (g sid : jsstring) (s : Seat) : Seat :=
  if eqb (seat_id s) sid then withGuest s (Some g) else s.

(** The guest reference that seat [i] of a rebuilt list takes from the old one. *)
Definition guestAt (old : list Seat) (i : nat) : option jsstring :=
  match nth_error old i with
  | Some e => guestId e
  | None => None
  end.

(** The guest reference of seat [sid] of table [tid], both looked up as the
    store does, by the first match. *)
Definition seatRef (tid sid : jsstring) (L : SeatingLayout) : option (option jsstring) :=
  match findTable tid (tables L) with
  | Some t => option_map guestId (findSeat sid (seats t))
  | None => None
  end.

(** What [moveGuestBetweenSeats] does to one table. *)
Definition movedTable (g fT fS tT tS : jsstring) (t : Table) : Table :=
  if eqb (table_id t) fT then emptySeat fS t
  else if eqb (table_id t) tT then seatGuest g tS t
  else t.

(** What [trimStart] strips. *)
Fixpoint leadingSpaces (s : jsstring) : jsstring :=
  match s with
  | [] => []
  | c :: s' => if is_space c then c :: leadingSpaces s' else []
  end.

(* ------------------------------------------------------------------ *)
(** ** Bulk import of guest names: the words of the specification *)

Module NameTokens.

(** The words of the specification: an entry is blank when it holds nothing
    but white space, and its tokens are its maximal runs of units that are not
    white space, in order. [cur] is the run being read, reversed. *)
Definition blank (s : jsstring) : bool := forallb is_space s.

Fixpoint tokens_from (cur : jsstring) (s : jsstring) : list jsstring :=
  match s with
  | [] => match cur with [] => [] | _ :: _ => [rev cur] end
  | c :: s' =>
      if is_space c then
        match cur with
        | [] => tokens_from [] s'
        | _ :: _ => rev cur :: tokens_from [] s'
        end
      else tokens_from (c :: cur) s'
  end.

Definition tokens (s : jsstring) : list jsstring := tokens_from [] s.

(** What the specification asks of the guest created for an entry. *)
Definition parsedAs (entry : jsstring) (g : Guest) : Prop :=
  match tokens entry with
  | [] => False
  | [only] => firstName g = only /\ lastName g = [] /\ middleName g = None
  | [l; f] => lastName g = l /\ firstName g = f /\ middleName g = None
  | l :: f :: rest =>
      lastName g = l /\ firstName g = f /\ middleName g = Some (join space rest)
  end.

End NameTokens.

Import NameTokens.

(* ------------------------------------------------------------------ *)
(** ** The snapshot handlers of [App.tsx] *)

Module Snapshot.

(** The document written by [handleExport]. *)
Record Snapshot := mkSnapshot {
  snap_tables : list Table;
  snap_guests : list Guest;
  snap_unassignedGuests : list jsstring;
  exportDate : jsstring
}.

Inductive Toast :=
| ToastSuccess (msg : jsstring)
| ToastError (msg : jsstring).

(** What the handlers can touch: the store, the files handed to the browser
    for download (name and content) and the notices shown. *)
Record App := mkApp {
  store : SeatingLayout;
  downloads : list (jsstring * jsstring);
  toasts : list Toast
}.

(** [iso.split('T')[0]]: the date part of an ISO time stamp. *)
Fixpoint datePart (iso : jsstring) : jsstring :=
  match iso with
  | [] => []
  | c :: r => if (c =? 84)%N then [] else c :: datePart r
  end.

Section Codec.

(** [JSON.stringify] and [JSON.parse] of the platform; [JSON_parse] gives
    [None] where [JSON.parse] throws. *)
Variable Json : Type.
Variable JSON_stringify : Snapshot -> jsstring.
Variable JSON_parse : jsstring -> option Json.

Definition snapshotOf (now : jsstring) (L : SeatingLayout) : Snapshot :=
  mkSnapshot (tables L) (guests L) (unassignedGuests L) now.

(** [now] and [later] are the two readings of the clock, for [exportDate] and
    for the file name. *)
Definition handleExport (now later : jsstring) (app : App) : App :=
  let data := snapshotOf now (store app) in
  let fileName := lit "seating-plan-" ++ datePart later ++ lit ".json" in
  mkApp (store app)
        (downloads app ++ [(fileName, JSON_stringify data)])
        (toasts app ++ [ToastSuccess (lit "План рассадки экспортирован")]).

(** The [onload] callback of [handleImport] on the text of the chosen file;
    without a file nothing happens. *)
Definition handleImport (file : option jsstring) (app : App) : App :=
  match file with
  | None => app
  | Some json =>
      match JSON_parse json with
      | Some _ =>
          mkApp (store app) (downloads app)
                (toasts app ++ [ToastSuccess (lit "План рассадки импортирован")])
      | None =>
          mkApp (store app) (downloads app)
                (toasts app ++ [ToastError (lit "Ошибка импорта файла")])
      end
  end.

End Codec.

Arguments handleImport {Json} JSON_parse file app.

End Snapshot.

Import Snapshot.

(* ------------------------------------------------------------------ *)
(** ** Geometry of the round table ([RoundTable.tsx]) *)

Module RoundTable.

Local Open Scope R_scope.

Section Geometry.

(** [table.width], read as the diameter. *)
Variable tableWidth : R.

Definition tableDiameter : R := tableWidth.
Definition tableRadius : R := tableDiameter / 2.
Definition seatSize : R := 36.
Definition seatRadius : R := tableRadius + seatSize / 2 + 8.

Definition containerSize : R := tableDiameter + seatSize * 2 + 32.
Definition centerOffset : R := containerSize / 2.

Definition seatAngle (index total : R) : R :=
  (index / total) * 2 * PI - PI / 2.

(** The top-left corner of the seat marker, in the coordinates of the
    container of the table. *)
Definition getSeatPosition (index total : R) : R * R :=
  let angle := seatAngle index total in
  (centerOffset + seatRadius * cos angle - seatSize / 2,
   centerOffset + seatRadius * sin angle - seatSize / 2).

(** The centre of the marker of seat [index] of a table of [total] seats, as
    [Seat.tsx] computes it from the position and the size of the marker
    ([position.x + size / 2]); the table centre handed to the seat is
    [(centerOffset, centerOffset)]. *)
Definition seatCenter (index total : nat) : R * R :=
  let p := getSeatPosition (INR index) (INR total) in
  (fst p + seatSize / 2, snd p + seatSize / 2).

End Geometry.

End RoundTable.

(* ------------------------------------------------------------------ *)
(** ** Concrete layouts *)

Module Scenario.

(** Identifiers: a prefix followed by one character for the index ([s0], [s1], ...). *)
Definition idOf (p : string) (k : nat) : jsstring :=
  lit p ++ [(N.of_nat k + 48)%N].

(** The draws of one [addGuest]: a single identifier. *)
Definition one (p : string) : nat -> jsstring := fun _ => lit p.

(** The draws of one [addTable]: the table identifier, then the seats'. *)
Definition tableDraws (t s : string) : nat -> jsstring :=
  fun k => match k with O => lit t | S i => idOf s i end.

Definition g0 : jsstring := lit "g0".
Definition g1 : jsstring := lit "g1".
Definition g2 : jsstring := lit "g2".
Definition g3 : jsstring := lit "g3".
Definition t1 : jsstring := lit "t1".
Definition seatN (k : nat) : jsstring := idOf "s" k.

Definition seatsConfig (n : Z) : TableConfigUpdate :=
  mkConfig None None None None None None None None (Some n) None.

Definition rowsConfig (n : Z) : TableConfigUpdate :=
  mkConfig None None None None None None (Some n) None None None.

(** Four guests, one round table of eight seats [s0 .. s7], the guests on
    seats 0 to 3. *)
Definition seatedFour : list Op :=
  [ OpAddGuest (one "g0") (lit "Ann") (lit "Ames") None;
    OpAddGuest (one "g1") (lit "Bob") (lit "Beck") None;
    OpAddGuest (one "g2") (lit "Cyd") (lit "Cole") None;
    OpAddGuest (one "g3") (lit "Dan") (lit "Dale") None;
    OpAddTable (tableDraws "t1" "s") round (lit "Table 1") 0 0;
    OpAssignGuestToSeat g0 t1 (seatN 0);
    OpAssignGuestToSeat g1 t1 (seatN 1);
    OpAssignGuestToSeat g2 t1 (seatN 2);
    OpAssignGuestToSeat g3 t1 (seatN 3) ].

(** The same, resized to six seats and then to three. *)
Definition resizedToSix : list Op :=
  seatedFour ++ [OpUpdateTableConfig (idOf "r") t1 (seatsConfig 6)].

Definition resizedToThree : list Op :=
  resizedToSix ++ [OpUpdateTableConfig (idOf "q") t1 (seatsConfig 3)].

(** Guest [g0] dragged from seat [s0] to the occupied seat [s1] of the same table. *)
Definition movedWithinTable : list Op :=
  seatedFour ++ [OpMoveGuestBetweenSeats g0 t1 (seatN 0) t1 (seatN 1)].

(** One unassigned guest and one round table. *)
Definition oneGuestOneTable : list Op :=
  [ OpAddGuest (one "g0") (lit "Ann") (lit "Ames") None;
    OpAddTable (tableDraws "t1" "s") round (lit "Table 1") 0 0 ].

(** An amphitheater as [addTable] creates it, then two rows asked for through
    the configuration panel. *)
Definition amphitheaterTwoRows : list Op :=
  [ OpAddTable (tableDraws "a1" "s") amphitheater (lit "Hall") 0 0;
    OpUpdateTableConfig (idOf "r") (lit "a1") (rowsConfig 2) ].

(** Two round tables, guest [g0] on seat [s0] of the first and guest [g1] on
    seat [p1] of the second. *)
Definition t2 : jsstring := lit "t2".

Definition twoTables : list Op :=
  [ OpAddGuest (one "g0") (lit "Ann") (lit "Ames") None;
    OpAddGuest (one "g1") (lit "Bob") (lit "Beck") None;
    OpAddTable (tableDraws "t1" "s") round (lit "Table 1") 0 0;
    OpAddTable (tableDraws "t2" "p") round (lit "Table 2") 300 0;
    OpAssignGuestToSeat g0 t1 (seatN 0);
    OpAssignGuestToSeat g1 t2 (idOf "p" 1) ].

Definition hasGuest (g : jsstring) (L : SeatingLayout) : bool :=
  existsb (fun gu => eqb (guest_id gu) g) (guests L).

End Scenario.

Import Scenario.

(* ------------------------------------------------------------------ *)
(** ** Occurrences of a guest and well-formed layouts *)

(** How often an identifier occurs in a list of identifiers, and on how many
    seats of a seat list it sits. *)
Definition occ (g : jsstring) (l : list jsstring) : nat :=
  List.length (filter (eqb g) l).

Definition seatedIn (g : jsstring) (ss : list Seat) : nat :=
  List.length (filter (fun s => holds s g) ss).

(** No identifier twice. *)
Fixpoint distinct (l : list jsstring) : bool :=
  match l with
  | [] => true
  | a :: r => negb (existsb (eqb a) r) && distinct r
  end.

(** Table identifiers are unique, and so are the seat identifiers of each
    table: what [uuidv4] gives. *)
Definition uniqueIds (L : SeatingLayout) : bool :=
  distinct (map table_id (tables L))
  && forallb (fun t => distinct (map seat_id (seats t))) (tables L).

(** No guest has the empty string as identifier. *)
Definition guestIdsTruthy (L : SeatingLayout) : bool :=
  forallb (fun gu => truthy (guest_id gu)) (guests L).

(** [v === g] for an optional reference [v]. *)
Definition refIs (v : option jsstring) (g : jsstring) : bool :=
  match v with
  | Some a => eqb a g
  | None => false
  end.

Definition b2n (b : bool) : nat := if b then 1%nat else 0%nat.

(** On how many entries of a list of references [g] stands. *)
Definition seatedRefs (g : jsstring) (l : list (option jsstring)) : nat :=
  List.length (filter (fun v => refIs v g) l).

(** The seat carries no reference. *)
Definition vacant (s : Seat) : bool :=
  match guestId s with
  | None => true
  | Some _ => false
  end.

(** The seats that a resize of table [t] through configuration [cfg] removes. *)
Definition cutSeats (u : nat -> jsstring) (cfg : TableConfigUpdate) (t : Table)
  : list Seat :=
  skipn (List.length (seats (updatedTable u cfg t))) (seats t).

(** The two steps of [moveGuestBetweenSeats] on one table, apart. *)
Definition vacateIn (fT fS : jsstring) (t : Table) : Table :=
  if eqb (table_id t) fT then emptySeat fS t else t.

Definition seatIn (g tT tS : jsstring) (t : Table) : Table :=
  if eqb (table_id t) tT then seatGuest g tS t else t.

(** The operations that call [uuidv4] for seats or tables. *)
Definition drawsSeatIds (o : Op) : bool :=
  match o with
  | OpAddTable _ _ _ _ _ => true
  | OpUpdateTableConfig _ _ _ => true
  | _ => false
  end.

(** The first [n] identifiers of a supply. *)
Definition draws (u : nat -> jsstring) (n : nat) : list jsstring :=
  map u (seq 0 n).

(* ------------------------------------------------------------------ *)
(** ** Names *)

(** The full name as the store formats it from the three name fields:
    last name, first name and, when there is one, the middle name, separated
    by single spaces; without a middle name the result is trimmed, which
    removes the separator when the last name is empty. *)
Definition formattedName (last first : jsstring) (middle : option jsstring)
  : jsstring :=
  match middle with
  | Some m =>
      if truthy m then last ++ space ++ first ++ space ++ m
      else trim (last ++ space ++ first)
  | None => trim (last ++ space ++ first)
  end.

Definition nameInSync (g : Guest) : Prop :=
  fullName g = formattedName (lastName g) (firstName g) (middleName g).

(** A string that begins and ends with a unit that is not white space. *)
Definition Tight (s : jsstring) : Prop :=
  (exists c r, s = c :: r /\ is_space c = false)
  /\ (exists r c, s = r ++ [c] /\ is_space c = false).

(* ------------------------------------------------------------------ *)
(** ** The dialogs of the guest list ([GuestList.tsx]) *)

(** [s.split(sep)] for a separator of one unit; [cur] is the piece being read,
    reversed. *)
Fixpoint split_char (sep : N) (cur : jsstring) (s : jsstring) : list jsstring :=
  match s with
  | [] => [rev cur]
  | c :: s' =>
      if (c =? sep)%N then rev cur :: split_char sep [] s'
      else split_char sep (c :: cur) s'
  end.

(** [importText.split('\n')]. *)
Definition splitLines (s : jsstring) : list jsstring := split_char 10 [] s.

Module GuestList.

(** [handleImport]: the text of the import dialog, handed to the store's
    [importGuests] line by line when it is not blank. The fields of the dialog
    itself (text, open flag) are local to the component and left out. *)
Definition handleImport (u : nat -> jsstring) (importText : jsstring)
           (state : SeatingLayout) : SeatingLayout :=
  if truthy (trim importText) then
    let names := filter (fun n => truthy (trim n)) (splitLines importText) in
    importGuests u names state
  else state.

(** [handleAddGuest]: the three fields of the add dialog, handed to the
    store's [addGuest] when first and last name are not blank. *)
Definition handleAddGuest (u : nat -> jsstring)
           (newGuestFirstName newGuestLastName newGuestMiddleName : jsstring)
           (state : SeatingLayout) : SeatingLayout :=
  if truthy (trim newGuestFirstName) && truthy (trim newGuestLastName) then
    addGuest u (trim newGuestFirstName) (trim newGuestLastName)
             (if truthy (trim newGuestMiddleName)
              then Some (trim newGuestMiddleName) else None)
             state
  else state.

End GuestList.

(* ------------------------------------------------------------------ *)
(** ** Geometry of the theater ([TheaterTable]) *)

Module TheaterTable.

Local Open Scope Z_scope.

Section Geometry.

(** The row count and the seats per row held by the component. *)
Variables rows seatsPerRow : Z.

Definition seatSize : Z := 36.
Definition rowSpacing : Z := 36.
Definition seatSpacing : Z := 24.
Definition headerHeight : Z := 70.
Definition paddingX : Z := 24.
Definition paddingY : Z := 16.

Definition contentWidth : Z := seatsPerRow * seatSize + (seatsPerRow - 1) * seatSpacing.
Definition contentHeight : Z := rows * seatSize + (rows - 1) * rowSpacing.
Definition containerWidth : Z := Z.max (contentWidth + paddingX * 2) 180.
Definition containerHeight : Z := headerHeight + contentHeight + paddingY * 2.

(** [Math.floor(index / seatsPerRow)] is the floor division of [Z]; [%] is
    the remainder that takes the sign of the dividend, [Z.rem]. *)
Definition getSeatPosition (index : Z) : Z * Z :=
  let row := index / seatsPerRow in
  let col := Z.rem index seatsPerRow in
  (paddingX + col * (seatSize + seatSpacing),
   headerHeight + paddingY + row * (seatSize + rowSpacing)).

End Geometry.

End TheaterTable.

(* ------------------------------------------------------------------ *)
(** ** Geometry of the square table ([SquareTable.tsx]) *)

Module SquareTable.

(** [Math.ceil(a / b)] on integers. *)
Definition ceilDiv (a b : Z) : Z := (- ((- a) / b))%Z.

Definition seatsPerSide (total : Z) : Z := ceilDiv total 4.
Definition sideOf (index total : Z) : Z := (index / seatsPerSide total)%Z.
Definition sideIndexOf (index total : Z) : Z := Z.rem index (seatsPerSide total).

Section Geometry.

Local Open Scope R_scope.

(** [table.width], the side of the square. *)
Variable tableSize : R.

Definition seatSize : R := 36.
Definition seatOffset : R := 8.
Definition containerSize : R := tableSize + seatSize * 2 + seatOffset * 2.

Definition spacing (total : Z) : R :=
  if (seatsPerSide total >? 1)%Z
  then tableSize / (IZR (seatsPerSide total) + 1)
  else tableSize / 2.

Definition tableLeft : R := seatSize + seatOffset.
Definition tableTop : R := seatSize + seatOffset.
Definition tableRight : R := tableLeft + tableSize.
Definition tableBottom : R := tableTop + tableSize.

(** [getSeatInfo]: the position of the seat marker and the side it is on
    (0 top, 1 right, 2 bottom, 3 left). *)
Definition getSeatInfo (index total : Z) : (R * R) * Z :=
  let side := sideOf index total in
  let sideIndex := IZR (sideIndexOf index total) in
  let sp := spacing total in
  let position :=
    match side with
    | 0%Z => (tableLeft + sp * (sideIndex + 1) - seatSize / 2,
              tableTop - seatSize / 2 - seatOffset / 2)
    | 1%Z => (tableRight + seatOffset / 2 - seatSize / 2,
              tableTop + sp * (sideIndex + 1) - seatSize / 2)
    | 2%Z => (tableRight - sp * (sideIndex + 1) - seatSize / 2,
              tableBottom + seatOffset / 2 - seatSize / 2)
    | 3%Z => (tableLeft - seatSize / 2 - seatOffset / 2,
              tableBottom - sp * (sideIndex + 1) - seatSize / 2)
    | _ => (0, 0)
    end in
  (position, side).

(** The centre of the marker ([position + size / 2]). *)
Definition seatCenter (index total : Z) : R * R :=
  let p := fst (getSeatInfo index total) in
  (fst p + seatSize / 2, snd p + seatSize / 2).

End Geometry.

End SquareTable.

(* ------------------------------------------------------------------ *)
(** ** The amphitheater ([AmphitheaterTable] of [SquareTable.tsx]) *)

Module AmphitheaterTable.

(** [table.rowConfigs || Array(table.rows || 5).fill(null).map(() =>
    ({ seatCount: table.seatsPerRow || 8 }))]. ([Array(n)] throws for a
    negative [n]; here a negative row count gives no row.) *)
Definition rowConfigsOf (t : Table) : list TableRow :=
  match rowConfigs t with
  | Some rc => rc
  | None => repeat (mkRow (orDefault (seatsPerRow t) 8))
                   (Z.to_nat (orDefault (rows t) 5))
  end.

(** The loop of [getSeatPosition] that resolves a seat index to a row and a
    place in the row by walking the per-row counts: [i] is the loop index,
    [cumulativeSeats] the seats of the rows passed. When no row takes the
    index the loop ends with its initial values, row 0 and the index
    itself. *)
Fixpoint resolveRow (counts : list Z) (i : nat) (cumulativeSeats seatIndex : Z)
  : nat * Z :=
  match counts with
  | [] => (0%nat, seatIndex)
  | c :: rest =>
      if (seatIndex <? cumulativeSeats + c)%Z
      then (i, (seatIndex - cumulativeSeats)%Z)
      else resolveRow rest (S i) (cumulativeSeats + c)%Z seatIndex
  end.

Section Geometry.

Local Open Scope R_scope.

Variable rowConfigs : list TableRow.

Definition seatSize : R := 32.
Definition rowSpacing : R := 20.
Definition arcRadiusStep : R := 35.
Definition baseRadius : R := 80.
Definition headerHeight : R := 50.
Definition padding : R := 20.

Definition radiusOf (rowIndex : nat) : R := baseRadius + INR rowIndex * arcRadiusStep.

(** [Math.max(...rowData.map(r => r.rowWidth), 200)]. *)
Definition maxRowWidth : R :=
  fold_right Rmax 200
    (map (fun rowIndex => radiusOf rowIndex * 2 + seatSize)
         (seq 0 (List.length rowConfigs))).

Definition containerWidth : R := maxRowWidth + padding * 2.

Definition getSeatPosition (seatIndex : Z) : R * R :=
  let (rowIndex, seatInRow) :=
    resolveRow (map seatCount rowConfigs) 0 0 seatIndex in
  match nth_error rowConfigs rowIndex with
  | None => (0, 0)
  | Some row =>
      let radius := radiusOf rowIndex in
      let angleStep := PI / (IZR (seatCount row) + 1) in
      let angle := - PI / 2 + (IZR seatInRow + 1) * angleStep in
      let centerX := containerWidth / 2 in
      let centerY := headerHeight + padding + baseRadius in
      (centerX + radius * cos angle - seatSize / 2,
       centerY + radius * sin angle * 0.4 - seatSize / 2
       + INR rowIndex * (seatSize + rowSpacing * 2))
  end.

End Geometry.

(** The configuration the three controls send: per-row counts, the row count
    when the number of rows changes, and the total. *)
Definition rowsUpdate (newConfigs : list TableRow) (rows : option Z)
           (totalSeats : Z) : TableConfigUpdate :=
  mkConfig None None None None None None rows None (Some totalSeats)
           (Some newConfigs).

(** [newConfigs[rowIndex] = row] for the index of an existing row, which is
    what the per-row buttons pass. *)
Fixpoint setRow (rc : list TableRow) (rowIndex : nat) (row : TableRow)
  : list TableRow :=
  match rc, rowIndex with
  | [], _ => []
  | _ :: rest, O => row :: rest
  | r :: rest, S k => r :: setRow rest k row
  end.

Definition updateRowSeatCount (u : nat -> jsstring) (table : Table)
           (rowIndex : nat) (delta : Z) (state : SeatingLayout) : SeatingLayout :=
  let rc := rowConfigsOf table in
  let currentCount :=
    match nth_error rc rowIndex with
    | Some r => orDefault (Some (seatCount r)) 5
    | None => 5%Z
    end in
  let newCount := Z.max 2 (Z.min 20 (currentCount + delta)) in
  let newConfigs := setRow rc rowIndex (mkRow newCount) in
  let totalSeats := sumRows newConfigs in
  updateTableConfig u (table_id table) (rowsUpdate newConfigs None totalSeats) state.

Definition addRow (u : nat -> jsstring) (table : Table)
           (state : SeatingLayout) : SeatingLayout :=
  let rc := rowConfigsOf table in
  let lastCount :=
    match nth_error rc (List.length rc - 1) with
    | Some r => orDefault (Some (seatCount r)) 8
    | None => 8%Z
    end in
  let newConfigs := rc ++ [mkRow lastCount] in
  let totalSeats := sumRows newConfigs in
  updateTableConfig u (table_id table)
    (rowsUpdate newConfigs (Some (Z.of_nat (List.length newConfigs))) totalSeats)
    state.

Definition removeRow (u : nat -> jsstring) (table : Table)
           (state : SeatingLayout) : SeatingLayout :=
  let rc := rowConfigsOf table in
  if (List.length rc <=? 1)%nat then state
  else
    let newConfigs := removelast rc in
    let totalSeats := sumRows newConfigs in
    updateTableConfig u (table_id table)
      (rowsUpdate newConfigs (Some (Z.of_nat (List.length newConfigs))) totalSeats)
      state.

End AmphitheaterTable.

(** The table called [tid] has per-row counts and as many seats as they add
    up to. *)
Definition seatsMatchRows (tid : jsstring) (L : SeatingLayout) : bool :=
  match findTable tid (tables L) with
  | Some t =>
      match rowConfigs t with
      | Some rc => (Z.of_nat (List.length (seats t)) =? sumRows rc)%Z
      | None => false
      end
  | None => false
  end.

(** The seat count of row [rowIndex] of the table called [tid]. *)
Definition rowCountAt (tid : jsstring) (rowIndex : nat) (L : SeatingLayout)
  : option Z :=
  match findTable tid (tables L) with
  | Some t =>
      match rowConfigs t with
      | Some rc => option_map seatCount (nth_error rc rowIndex)
      | None => None
      end
  | None => None
  end.

(** An amphitheater as [addTable] creates it. *)
Definition hallOps : list Op :=
  [ OpAddTable (tableDraws "a1" "s") amphitheater (lit "Hall") 0 0 ].

Definition hall : Table :=
  newTable (tableDraws "a1" "s") amphitheater (lit "Hall") 0 0.

(* ------------------------------------------------------------------ *)
(** ** Zoom of the canvas ([Canvas.tsx]) *)

Module Canvas.

Local Open Scope R_scope.

Definition zoomIn (s : R) : R := Rmin (s * 1.2) 3.
Definition zoomOut (s : R) : R := Rmax (s / 1.2) 0.3.
Definition resetZoom (s : R) : R := 1.

Inductive ZoomAction := ZoomIn | ZoomOut | ResetZoom.

Definition zoom (s : R) (a : ZoomAction) : R :=
  match a with
  | ZoomIn => zoomIn s
  | ZoomOut => zoomOut s
  | ResetZoom => resetZoom s
  end.

(** The scale after a sequence of presses, from the initial scale 1. *)
Definition scaleAfter (presses : list ZoomAction) : R := fold_left zoom presses 1.

End Canvas.

(* ------------------------------------------------------------------ *)
(** ** The seat marker ([Seat.tsx]) and the drop of a guest on it *)

Module SeatMarker.

Inductive TooltipSide := SideTop | SideBottom | SideLeft | SideRight.

Section Tooltip.

Local Open Scope R_scope.

(** [getTooltipSideFromCenter]: the side of the marker on which the tooltip
    is shown, from the offset of the centre of the marker to the centre of
    the table when one is given. *)
Definition getTooltipSideFromCenter (tooltipSide : TooltipSide)
           (position : R * R) (size : R) (tableCenter : option (R * R))
  : TooltipSide :=
  match tableCenter with
  | None => tooltipSide
  | Some center =>
      let seatCenterX := fst position + size / 2 in
      let seatCenterY := snd position + size / 2 in
      let dx := seatCenterX - fst center in
      let dy := seatCenterY - snd center in
      if Rgt_dec (Rabs dx) (Rabs dy)
      then (if Rgt_dec dx 0 then SideRight else SideLeft)
      else (if Rgt_dec dy 0 then SideBottom else SideTop)
  end.

End Tooltip.

(** The payload of a drag: [{ type: 'guest', guestId }] from the guest list,
    [{ type: 'seat-guest', guestId, sourceTableId, sourceSeatId }] from a
    seat; the source fields are not read by the drop. *)
Inductive DragType := DragGuest | DragSeatGuest.

Record DragItem := mkDrag {
  drag_type : DragType;
  drag_guestId : jsstring
}.

(** The guest a table hands to the marker of a seat:
    [seat.guestId ? guests.find((g) => g.id === seat.guestId) || null : null]. *)
Definition shownGuest (guests : list Guest) (s : Seat) : option Guest :=
  match guestId s with
  | Some gid =>
      if truthy gid then find (fun g => eqb (guest_id g) gid) guests else None
  | None => None
  end.

(** [handleDrop] of a marker: nothing on a marker that shows a guest, nothing
    for a payload that does not parse ([data = None]) or is no guest item;
    otherwise the drop handler is called. *)
Definition handleDrop (guest : option Guest) (data : option DragItem)
           (tableId seatId : jsstring)
           (onDrop : option (jsstring -> jsstring -> jsstring ->
                             SeatingLayout -> SeatingLayout))
           (state : SeatingLayout) : SeatingLayout :=
  match guest with
  | Some _ => state
  | None =>
      match data, onDrop with
      | Some d, Some drop =>
          match drag_type d with
          | DragGuest => drop (drag_guestId d) tableId seatId state
          | DragSeatGuest => state
          end
      | _, _ => state
      end
  end.

End SeatMarker.

(** The first seat that holds [g], tables and seats in order: the two nested
    loops of [handleDropOnSeat]. *)
Fixpoint firstSeatOf (g : jsstring) (ts : list Table) : option (Table * Seat) :=
  match ts with
  | [] => None
  | t :: rest =>
      match find (fun s => holds s g) (seats t) with
      | Some s => Some (t, s)
      | None => firstSeatOf g rest
      end
  end.

(** [handleDropOnSeat] of [App.tsx], on the store; the notices and the
    dragged-guest marker of the component are left out. *)
Definition handleDropOnSeat (guestId tableId seatId : jsstring)
           (state : SeatingLayout) : SeatingLayout :=
  match find (fun g => eqb (guest_id g) guestId) (guests state) with
  | None => state
  | Some _ =>
      let isAssigned := negb (existsb (eqb guestId) (unassignedGuests state)) in
      if isAssigned then
        match firstSeatOf guestId (tables state) with
        | Some (table, seat) =>
            moveGuestBetweenSeats guestId (table_id table) (seat_id seat)
                                  tableId seatId state
        | None => state
        end
      else assignGuestToSeat guestId tableId seatId state
  end.

(** A payload dropped on the marker of seat [s] of table [t], as the table
    components wire it. *)
Definition dropOnSeat (data : option SeatMarker.DragItem) (t : Table) (s : Seat)
           (state : SeatingLayout) : SeatingLayout :=
  SeatMarker.handleDrop (SeatMarker.shownGuest (guests state) s) data
                        (table_id t) (seat_id s) (Some handleDropOnSeat) state.

(** The round table of [oneGuestOneTable] and its third seat. *)
Definition firstRound : Table :=
  newTable (tableDraws "t1" "s") round (lit "Table 1") 0 0.

Definition thirdSeat : Seat := mkSeat (seatN 2) None 2.

(** The [k]-th table of a layout and the [k]-th seat of a table. *)
Definition tableAt (k : nat) (L : SeatingLayout) : Table :=
  nth k (tables L) firstRound.

Definition seatAt (k : nat) (t : Table) : Seat := nth k (seats t) thirdSeat.

(* ------------------------------------------------------------------ *)
(** * Lemmas and theorems *)

(* ------------------------------------------------------------------ *)
(** ** Strings: equality *)

Lemma eqb_refl (a : jsstring) : eqb a a = true.
Proof.
  induction a as [|c a IH]; simpl; [reflexivity|].
  now rewrite N.eqb_refl, IH.
Qed.

Lemma eqb_eq (a b : jsstring) : eqb a b = true <-> a = b.
Proof.
  split.
  - revert b; induction a as [|c a IH]; intros [|d b] H; simpl in H;
      try discriminate; [reflexivity|].
    apply andb_true_iff in H as [Hc Hr].
    apply N.eqb_eq in Hc. apply IH in Hr. now subst.
  - intros ->. apply eqb_refl.
Qed.

Lemma eqb_neq (a b : jsstring) : eqb a b = false <-> a <> b.
Proof.
  rewrite <- eqb_eq. destruct (eqb a b); split; congruence.
Qed.

(* ------------------------------------------------------------------ *)
(** ** Seat-level facts shared by the proofs *)

Lemma holds_withGuest_same (s : Seat) (g : jsstring) :
  holds (withGuest s (Some g)) g = true.
Proof. unfold holds; simpl. apply eqb_refl. Qed.

Lemma holds_withGuest_none (s : Seat) (g : jsstring) :
  holds (withGuest s None) g = false.
Proof. reflexivity. Qed.

Lemma unseat_idem (g : jsstring) (s : Seat) : unseat g (unseat g s) = unseat g s.
Proof.
  unfold unseat. destruct (holds s g) eqn:H.
  - now rewrite holds_withGuest_none.
  - now rewrite H.
Qed.

Lemma seat_id_unseat (g : jsstring) (s : Seat) : seat_id (unseat g s) = seat_id s.
Proof. unfold unseat. now destruct (holds s g). Qed.

Lemma place_unseat_idem (g sid : jsstring) (s : Seat) :
  place g sid (unseat g (place g sid (unseat g s))) = place g sid (unseat g s).
Proof.
  unfold place at 2 3. rewrite seat_id_unseat.
  destruct (eqb (seat_id s) sid) eqn:Hid.
  - unfold unseat at 1. rewrite holds_withGuest_same.
    unfold place; simpl. rewrite seat_id_unseat, Hid. reflexivity.
  - rewrite unseat_idem. unfold place. now rewrite seat_id_unseat, Hid.
Qed.

Lemma clearGuest_id (g : jsstring) (t : Table) : table_id (clearGuest g t) = table_id t.
Proof. reflexivity. Qed.

Lemma clearGuest_idem (g : jsstring) (t : Table) :
  clearGuest g (clearGuest g t) = clearGuest g t.
Proof.
  unfold clearGuest, withSeats; simpl. f_equal.
  rewrite map_map. apply map_ext. intros s. apply (unseat_idem g s).
Qed.

Lemma clear_seat_clear_seat (g sid : jsstring) (t : Table) :
  seatGuest g sid (clearGuest g (seatGuest g sid (clearGuest g t)))
  = seatGuest g sid (clearGuest g t).
Proof.
  unfold seatGuest, clearGuest, withSeats; simpl. f_equal.
  rewrite !map_map. apply map_ext. intros s. apply (place_unseat_idem g sid s).
Qed.

Lemma filter_idem {A} (p : A -> bool) (l : list A) :
  filter p (filter p l) = filter p l.
Proof.
  induction l as [|a l IH]; simpl; [reflexivity|].
  destruct (p a) eqn:H; simpl; [rewrite H|]; now rewrite IH.
Qed.

(* ------------------------------------------------------------------ *)
(** ** Idempotence of [assignGuestToSeat] *)

(** C6. For every layout, guest [g], table [t] and seat [s], calling
    [assignGuestToSeat(g, t, s)] twice in succession gives the very layout
    that one call gives. *)
Theorem assignGuestToSeat_idempotent :
  forall (g t s : jsstring) (L : SeatingLayout),
    assignGuestToSeat g t s (assignGuestToSeat g t s L) = assignGuestToSeat g t s L.
Proof.
  intros g t s L. unfold assignGuestToSeat; simpl.
  rewrite filter_idem. f_equal.
  rewrite !map_map. apply map_ext. intros tb.
  change (table_id (clearGuest g tb)) with (table_id tb).
  destruct (eqb (table_id tb) t) eqn:Ht.
  - cbv iota.
    change (table_id (clearGuest g (seatGuest g s (clearGuest g tb))))
      with (table_id tb).
    rewrite Ht. apply clear_seat_clear_seat.
  - cbv iota.
    change (table_id (clearGuest g (clearGuest g tb))) with (table_id tb).
    rewrite Ht. apply clearGuest_idem.
Qed.

(* ------------------------------------------------------------------ *)
(** ** Seat numbering *)

Section Numbering.

Lemma indexed_numbered (mk : nat -> Seat) (n : nat) :
  (forall i, position (mk i) = Z.of_nat i) ->
  indexed (map mk (seq 0 n)).
Proof.
  intros Hmk. unfold indexed.
  rewrite length_map, length_seq, map_map.
  apply map_ext. exact Hmk.
Qed.

Lemma indexed_map (f : Seat -> Seat) (ss : list Seat) :
  (forall s, position (f s) = position s) ->
  indexed ss -> indexed (map f ss).
Proof.
  intros Hf H. unfold indexed in *.
  rewrite length_map, map_map. rewrite <- H.
  apply map_ext. exact Hf.
Qed.

Lemma indexed_freshSeats (u : nat -> jsstring) (n : Z) : indexed (freshSeats u n).
Proof. apply indexed_numbered. reflexivity. Qed.

Lemma indexed_createSeats (u : nat -> jsstring) (ty : TableType) (n : Z)
      (r c : option Z) : indexed (createSeats u ty n r c).
Proof. destruct ty; apply indexed_freshSeats. Qed.

Lemma indexed_rebuildSeats (u : nat -> jsstring) (old : list Seat) (n : Z) :
  indexed (rebuildSeats u old n).
Proof.
  apply indexed_numbered. intros i. now destruct (nth_error old i).
Qed.

Lemma copyGuests_positions (old new : list Seat) :
  map position (copyGuests old new) = map position new
  /\ List.length (copyGuests old new) = List.length new.
Proof.
  revert new; induction old as [|e old IH]; intros [|n new]; simpl; auto.
  destruct (IH new) as [H1 H2]. now rewrite H1, H2.
Qed.

Lemma indexed_copyGuests (old new : list Seat) :
  indexed new -> indexed (copyGuests old new).
Proof.
  unfold indexed. destruct (copyGuests_positions old new) as [-> ->]. auto.
Qed.

Lemma indexed_regenerated (u : nat -> jsstring) (cfg : TableConfigUpdate) (t : Table) :
  if seatingChanged cfg
  then indexed (seats (updatedTable u cfg t))
  else seats (updatedTable u cfg t) = seats t.
Proof.
  unfold updatedTable; simpl.
  destruct (seatingChanged cfg); [|reflexivity].
  destruct (cfg_rowConfigs cfg).
  - apply indexed_rebuildSeats.
  - apply indexed_copyGuests, indexed_createSeats.
Qed.

Lemma indexed_updatedTable (u : nat -> jsstring) (cfg : TableConfigUpdate) (t : Table) :
  indexed (seats t) -> indexed (seats (updatedTable u cfg t)).
Proof.
  intros H. pose proof (indexed_regenerated u cfg t) as R.
  destruct (seatingChanged cfg); [exact R | now rewrite R].
Qed.

Lemma indexed_newTable (u : nat -> jsstring) (ty : TableType) (nm : jsstring)
      (px py : Z) : indexed (seats (newTable u ty nm px py)).
Proof.
  unfold newTable. destruct (getDefaultTableSize ty) as [[w h] n]; simpl.
  apply indexed_createSeats.
Qed.

(** Rewriting the guest references of a table leaves its numbering alone. *)
Lemma indexed_clearGuest (g : jsstring) (t : Table) :
  indexed (seats t) -> indexed (seats (clearGuest g t)).
Proof.
  intros H. simpl. apply indexed_map; [|exact H].
  intros s. now destruct (holds s g).
Qed.

Lemma indexed_seatGuest (g sid : jsstring) (t : Table) :
  indexed (seats t) -> indexed (seats (seatGuest g sid t)).
Proof.
  intros H. simpl. apply indexed_map; [|exact H].
  intros s. now destruct (eqb (seat_id s) sid).
Qed.

Lemma indexed_emptySeat (sid : jsstring) (t : Table) :
  indexed (seats t) -> indexed (seats (emptySeat sid t)).
Proof.
  intros H. simpl. apply indexed_map; [|exact H].
  intros s. now destruct (eqb (seat_id s) sid).
Qed.

Lemma Forall_map_indexed (f : Table -> Table) (ts : list Table) :
  (forall t, indexed (seats t) -> indexed (seats (f t))) ->
  Forall (fun t => indexed (seats t)) ts ->
  Forall (fun t => indexed (seats t)) (map f ts).
Proof.
  intros Hf H. induction H; simpl; constructor; auto.
Qed.

Lemma Forall_filter_keep {A} (P : A -> Prop) (p : A -> bool) (l : list A) :
  Forall P l -> Forall P (filter p l).
Proof.
  intros H. induction H; simpl; [constructor|].
  destruct (p x0); [constructor|]; auto.
Qed.

Lemma indexed_moveTables (g fT fS tT tS : jsstring) (ts : list Table)
      (d : option jsstring) :
  Forall (fun t => indexed (seats t)) ts ->
  Forall (fun t => indexed (seats t)) (fst (moveTables g fT fS tT tS ts d)).
Proof.
  intros H. revert d. induction H as [|t ts Ht Hts IH]; intros d; simpl.
  - constructor.
  - destruct (eqb (table_id t) fT).
    + specialize (IH d). destruct (moveTables g fT fS tT tS ts d); simpl in *.
      constructor; [now apply indexed_emptySeat | exact IH].
    + destruct (eqb (table_id t) tT).
      * specialize (IH (targetGuest tS t)).
        destruct (moveTables g fT fS tT tS ts (targetGuest tS t)); simpl in *.
        constructor; [now apply indexed_seatGuest | exact IH].
      * specialize (IH d). destruct (moveTables g fT fS tT tS ts d); simpl in *.
        constructor; [exact Ht | exact IH].
Qed.

Lemma find_Forall {A} (P : A -> Prop) (p : A -> bool) (l : list A) (a : A) :
  Forall P l -> find p l = Some a -> P a.
Proof.
  intros H Hf. apply find_some in Hf as [Hin _].
  rewrite Forall_forall in H. auto.
Qed.

Lemma step_seatsIndexed (L : SeatingLayout) (o : Op) :
  seatsIndexed L -> seatsIndexed (step L o).
Proof.
  unfold seatsIndexed. intros H. destruct o; simpl; try exact H.
  - (* removeGuest *)
    apply Forall_map_indexed; [apply indexed_clearGuest | exact H].
  - (* addTable *)
    apply Forall_app. split; [exact H|].
    constructor; [apply indexed_newTable | constructor].
  - (* removeTable *)
    apply Forall_filter_keep. exact H.
  - (* updateTablePosition *)
    apply Forall_map_indexed; [|exact H].
    intros t Ht. now destruct (eqb (table_id t) tid).
  - (* updateTableRotation *)
    apply Forall_map_indexed; [|exact H].
    intros t Ht. now destruct (eqb (table_id t) tid).
  - (* updateTableConfig *)
    unfold updateTableConfig.
    destruct (findTable tid (tables L)) as [tb|] eqn:Hf; [|exact H].
    simpl. apply Forall_map_indexed; [|exact H].
    intros t Ht. destruct (eqb (table_id t) tid); [|exact Ht].
    apply indexed_updatedTable. exact (find_Forall _ _ _ _ H Hf).
  - (* assignGuestToSeat *)
    apply Forall_map_indexed.
    + intros t Ht. destruct (eqb (table_id t) tid); [|exact Ht].
      now apply indexed_seatGuest.
    + apply Forall_map_indexed; [apply indexed_clearGuest | exact H].
  - (* unassignGuestFromSeat *)
    unfold unassignGuestFromSeat.
    destruct (findTable tid (tables L)) as [tb|]; [|exact H].
    destruct (findSeat sid (seats tb)) as [st|]; [|exact H].
    destruct (guestId st) as [gi|]; [|exact H].
    destruct (truthy gi); [|exact H].
    simpl. apply Forall_map_indexed; [|exact H].
    intros t Ht. destruct (eqb (table_id t) tid); [|exact Ht].
    now apply indexed_emptySeat.
  - (* moveGuestBetweenSeats *)
    unfold moveGuestBetweenSeats.
    pose proof (indexed_moveTables g fromT fromS toT toS _ None H) as M.
    destruct (moveTables g fromT fromS toT toS (tables L) None) as [ts d].
    exact M.
  - (* clearLayout *) constructor.
  - (* resetAll *) constructor.
Qed.

Lemma fold_seatsIndexed (ops : list Op) (L : SeatingLayout) :
  seatsIndexed L -> seatsIndexed (fold_left step ops L).
Proof.
  revert L. induction ops as [|o ops IH]; intros L H; simpl; [exact H|].
  apply IH, step_seatsIndexed, H.
Qed.

End Numbering.

(** C10. In every layout reached from the empty store by any sequence of
    store operations, the seat stored at index [i] of every table has
    position [i]; a table created by [addTable] is numbered this way, and
    whenever [updateTableConfig] regenerates the seats of a table (the
    configuration carries [seats], [rows], [seatsPerRow] or [rowConfigs]) the
    regenerated list is numbered this way whatever the table was before,
    while a configuration that does not touch the seating keeps the seat
    list. *)
Theorem seats_numbered_consecutively :
  (forall ops : list Op, seatsIndexed (run ops))
  /\ (forall u ty nm px py, indexed (seats (newTable u ty nm px py)))
  /\ (forall u cfg t,
        if seatingChanged cfg
        then indexed (seats (updatedTable u cfg t))
        else seats (updatedTable u cfg t) = seats t).
Proof.
  split; [|split].
  - intros ops. apply fold_seatsIndexed. constructor.
  - apply indexed_newTable.
  - apply indexed_regenerated.
Qed.

(* ------------------------------------------------------------------ *)
(** ** Resizing a table: what [updateTableConfig] keeps *)

Section Resizing.

Lemma map_const_seq {A} (a : A) (start n : nat) :
  map (fun _ => a) (seq start n) = repeat a n.
Proof.
  revert start. induction n as [|n IH]; intros start; simpl; [reflexivity|].
  now rewrite IH.
Qed.

Lemma guestAt_seq (old : list Seat) (n : nat) :
  map (guestAt old) (seq 0 n)
  = firstn n (map guestId old) ++ repeat None (n - List.length old).
Proof.
  revert n. induction old as [|e old IH]; intros n.
  - rewrite firstn_nil, Nat.sub_0_r. simpl.
    rewrite <- (map_const_seq None 0 n). apply map_ext.
    intros i. unfold guestAt. now destruct i.
  - destruct n as [|n]; [reflexivity|].
    cbn [seq map firstn List.length Nat.sub app]. f_equal.
    rewrite <- seq_shift, map_map. rewrite <- IH.
    apply map_ext. reflexivity.
Qed.

Lemma rebuildSeats_guests (u : nat -> jsstring) (old : list Seat) (n : Z) :
  map guestId (rebuildSeats u old n)
  = firstn (Z.to_nat n) (map guestId old)
    ++ repeat None (Z.to_nat n - List.length old).
Proof.
  unfold rebuildSeats. rewrite map_map, <- guestAt_seq.
  apply map_ext. intros i. unfold guestAt. now destruct (nth_error old i).
Qed.

Lemma rebuildSeats_length (u : nat -> jsstring) (old : list Seat) (n : Z) :
  List.length (rebuildSeats u old n) = Z.to_nat n.
Proof. unfold rebuildSeats. now rewrite length_map, length_seq. Qed.

Lemma freshSeats_length (u : nat -> jsstring) (n : Z) :
  List.length (freshSeats u n) = Z.to_nat n.
Proof. unfold freshSeats. now rewrite length_map, length_seq. Qed.

Lemma freshSeats_empty (u : nat -> jsstring) (n : Z) :
  map guestId (freshSeats u n) = repeat None (Z.to_nat n).
Proof.
  unfold freshSeats. rewrite map_map. simpl. apply map_const_seq.
Qed.

Lemma createSeats_empty (u : nat -> jsstring) (ty : TableType) (n : Z)
      (r c : option Z) :
  map guestId (createSeats u ty n r c)
  = repeat None (List.length (createSeats u ty n r c)).
Proof.
  destruct ty; simpl; now rewrite freshSeats_empty, freshSeats_length.
Qed.

Lemma copyGuests_guests (old new : list Seat) :
  map guestId new = repeat None (List.length new) ->
  map guestId (copyGuests old new)
  = firstn (List.length new) (map guestId old)
    ++ repeat None (List.length new - List.length old).
Proof.
  revert new. induction old as [|e old IH]; intros new H.
  - rewrite firstn_nil, Nat.sub_0_r. now destruct new.
  - destruct new as [|s new]; [reflexivity|].
    simpl in H. injection H as _ H.
    cbn [copyGuests map firstn List.length Nat.sub app guestId withGuest].
    f_equal. apply IH, H.
Qed.

(** When the seats of a table are regenerated, the new list of guest
    references is the old one cut to the new length and, where the table
    grows, continued by empty seats. *)
Lemma updatedTable_guests (u : nat -> jsstring) (cfg : TableConfigUpdate) (t : Table) :
  seatingChanged cfg = true ->
  map guestId (seats (updatedTable u cfg t))
  = firstn (List.length (seats (updatedTable u cfg t))) (map guestId (seats t))
    ++ repeat None (List.length (seats (updatedTable u cfg t))
                    - List.length (seats t)).
Proof.
  intros H. unfold updatedTable; simpl. rewrite H.
  destruct (cfg_rowConfigs cfg).
  - rewrite rebuildSeats_length. apply rebuildSeats_guests.
  - destruct (copyGuests_positions (seats t)
                (createSeats u (type t)
                   (nullish (cfg_seats cfg) (Z.of_nat (List.length (seats t))))
                   (nullishOpt (cfg_rows cfg) (rows t))
                   (nullishOpt (cfg_seatsPerRow cfg) (seatsPerRow t))))
      as [_ ->].
    apply copyGuests_guests, createSeats_empty.
Qed.

(** A round, square or rectangle table asked for [n] seats gets [n] seats. *)
Lemma updatedTable_perimeter_length (u : nat -> jsstring) (cfg : TableConfigUpdate)
      (t : Table) (n : Z) :
  isTheaterStyle (type t) = false ->
  cfg_seats cfg = Some n -> cfg_rowConfigs cfg = None ->
  List.length (seats (updatedTable u cfg t)) = Z.to_nat n.
Proof.
  intros Hty Hs Hrc. unfold updatedTable, seatingChanged; simpl.
  rewrite Hs, Hrc; simpl.
  destruct (copyGuests_positions (seats t)
              (createSeats u (type t) n
                 (nullishOpt (cfg_rows cfg) (rows t))
                 (nullishOpt (cfg_seatsPerRow cfg) (seatsPerRow t))))
    as [_ ->].
  destruct (type t); try discriminate; apply freshSeats_length.
Qed.

(** [updateTableConfig] writes [tables] only: nobody is added to the
    unassigned list, whatever happens to the seats. *)
Lemma updateTableConfig_unassigned (u : nat -> jsstring) (tid : jsstring)
      (cfg : TableConfigUpdate) (L : SeatingLayout) :
  unassignedGuests (updateTableConfig u tid cfg L) = unassignedGuests L
  /\ guests (updateTableConfig u tid cfg L) = guests L.
Proof.
  unfold updateTableConfig. now destruct (findTable tid (tables L)).
Qed.

End Resizing.

(* ------------------------------------------------------------------ *)
(** ** Operations on identifiers that are not in the layout *)

Section MissingTargets.

Lemma find_none_filter {A} (p : A -> bool) (l : list A) :
  find p l = None -> filter (fun a => negb (p a)) l = l.
Proof.
  induction l as [|a l IH]; simpl; [reflexivity|].
  destruct (p a); [discriminate|]. intros H. simpl. now rewrite IH.
Qed.

Lemma find_none_map {A} (p : A -> bool) (f : A -> A) (l : list A) :
  find p l = None -> map (fun a => if p a then f a else a) l = l.
Proof.
  induction l as [|a l IH]; simpl; [reflexivity|].
  destruct (p a); [discriminate|]. intros H. now rewrite IH.
Qed.

Lemma layout_eta (L : SeatingLayout) :
  mkLayout (tables L) (guests L) (unassignedGuests L) = L.
Proof. now destruct L. Qed.

Lemma removeTable_missing (tid : jsstring) (L : SeatingLayout) :
  findTable tid (tables L) = None -> removeTable tid L = L.
Proof.
  intros H. unfold removeTable. rewrite H, app_nil_r.
  unfold findTable in H. rewrite (find_none_filter _ _ H). apply layout_eta.
Qed.

Lemma updateTableConfig_missing (u : nat -> jsstring) (tid : jsstring)
      (cfg : TableConfigUpdate) (L : SeatingLayout) :
  findTable tid (tables L) = None -> updateTableConfig u tid cfg L = L.
Proof. intros H. unfold updateTableConfig. now rewrite H. Qed.

Lemma updateTablePosition_missing (tid : jsstring) (px py : Z) (L : SeatingLayout) :
  findTable tid (tables L) = None -> updateTablePosition tid px py L = L.
Proof.
  intros H. unfold updateTablePosition, findTable in *.
  rewrite (find_none_map _ _ _ H). apply layout_eta.
Qed.

Lemma updateTableRotation_missing (tid : jsstring) (rot : Z) (L : SeatingLayout) :
  findTable tid (tables L) = None -> updateTableRotation tid rot L = L.
Proof.
  intros H. unfold updateTableRotation, findTable in *.
  rewrite (find_none_map _ _ _ H). apply layout_eta.
Qed.

Lemma unassignGuestFromSeat_missing_table (tid sid : jsstring) (L : SeatingLayout) :
  findTable tid (tables L) = None -> unassignGuestFromSeat tid sid L = L.
Proof. intros H. unfold unassignGuestFromSeat. now rewrite H. Qed.

Lemma unassignGuestFromSeat_missing_seat (tid sid : jsstring) (L : SeatingLayout)
      (t : Table) :
  findTable tid (tables L) = Some t -> findSeat sid (seats t) = None ->
  unassignGuestFromSeat tid sid L = L.
Proof. intros H1 H2. unfold unassignGuestFromSeat. now rewrite H1, H2. Qed.

Lemma moveTables_missing (g fT fS tT tS : jsstring) (ts : list Table)
      (d : option jsstring) :
  findTable fT ts = None -> findTable tT ts = None ->
  moveTables g fT fS tT tS ts d = (ts, d).
Proof.
  unfold findTable. revert d. induction ts as [|t ts IH]; intros d; simpl; [reflexivity|].
  destruct (eqb (table_id t) fT); [discriminate|].
  destruct (eqb (table_id t) tT); [discriminate|].
  intros H1 H2. now rewrite IH.
Qed.

Lemma moveGuestBetweenSeats_missing_tables (g fT fS tT tS : jsstring)
      (L : SeatingLayout) :
  findTable fT (tables L) = None -> findTable tT (tables L) = None ->
  moveGuestBetweenSeats g fT fS tT tS L = L.
Proof.
  intros H1 H2. unfold moveGuestBetweenSeats.
  rewrite (moveTables_missing g fT fS tT tS _ None H1 H2). apply layout_eta.
Qed.

Lemma filter_all {A} (p : A -> bool) (l : list A) :
  (forall a, In a l -> p a = true) -> filter p l = l.
Proof.
  induction l as [|a l IH]; simpl; intros H; [reflexivity|].
  rewrite (H a (or_introl eq_refl)). f_equal. apply IH. auto.
Qed.

Lemma map_id_on {A} (f : A -> A) (l : list A) :
  (forall a, In a l -> f a = a) -> map f l = l.
Proof.
  induction l as [|a l IH]; simpl; intros H; [reflexivity|].
  rewrite (H a (or_introl eq_refl)). f_equal. apply IH. auto.
Qed.

(** [removeGuest] on an identifier that no guest, no seat and no entry of the
    unassigned list carries. *)
Lemma removeGuest_unknown (g : jsstring) (L : SeatingLayout) :
  ~ In g (map guest_id (guests L)) ->
  ~ In g (unassignedGuests L) ->
  (forall t s, In t (tables L) -> In s (seats t) -> guestId s <> Some g) ->
  removeGuest g L = L.
Proof.
  intros Hg Hu Hs. unfold removeGuest.
  rewrite (filter_all _ (unassignedGuests L)).
  2:{ intros i Hi. apply negb_true_iff, eqb_neq. intros ->. auto. }
  rewrite (filter_all _ (guests L)).
  2:{ intros gu Hi. apply negb_true_iff, eqb_neq. intros E.
      apply Hg. rewrite <- E. now apply in_map. }
  rewrite (map_id_on (clearGuest g) (tables L)); [apply layout_eta|].
  intros t Ht. unfold clearGuest.
  rewrite (map_id_on _ (seats t)); [now destruct t|].
  intros s Hin. unfold holds.
  destruct (guestId s) as [g'|] eqn:E; [|reflexivity].
  destruct (eqb g' g) eqn:Eg; [|reflexivity].
  apply eqb_eq in Eg. subst g'. now elim (Hs t s Ht Hin).
Qed.

End MissingTargets.

(* ------------------------------------------------------------------ *)
(** ** Moving a guest between two different tables *)

Section Moving.

Lemma moveTables_fst (g fT fS tT tS : jsstring) (ts : list Table)
      (d : option jsstring) :
  fst (moveTables g fT fS tT tS ts d) = map (movedTable g fT fS tT tS) ts.
Proof.
  revert d. induction ts as [|t ts IH]; intros d; simpl; [reflexivity|].
  unfold movedTable at 1.
  destruct (eqb (table_id t) fT).
  - specialize (IH d). destruct (moveTables g fT fS tT tS ts d). simpl in *.
    now rewrite IH.
  - destruct (eqb (table_id t) tT).
    + specialize (IH (targetGuest tS t)).
      destruct (moveTables g fT fS tT tS ts (targetGuest tS t)). simpl in *.
      now rewrite IH.
    + specialize (IH d). destruct (moveTables g fT fS tT tS ts d). simpl in *.
      now rewrite IH.
Qed.

Lemma findTable_not_in (tid : jsstring) (ts : list Table) :
  ~ In tid (map table_id ts) -> findTable tid ts = None.
Proof.
  induction ts as [|t ts IH]; simpl; intros H; [reflexivity|].
  destruct (eqb (table_id t) tid) eqn:E.
  - apply eqb_eq in E. elim H. now left.
  - apply IH. intros Hin. apply H. now right.
Qed.

Lemma moveTables_snd (g fT fS tT tS : jsstring) (ts : list Table)
      (d : option jsstring) :
  NoDup (map table_id ts) -> fT <> tT ->
  snd (moveTables g fT fS tT tS ts d)
  = match findTable tT ts with
    | Some t => targetGuest tS t
    | None => d
    end.
Proof.
  intros Hnd Hne. revert d.
  induction ts as [|t ts IH]; intros d; simpl; [reflexivity|].
  inversion Hnd as [|? ? Hnotin Hnd']; subst.
  destruct (eqb (table_id t) fT) eqn:Ef.
  - apply eqb_eq in Ef.
    assert (Et : eqb (table_id t) tT = false) by (apply eqb_neq; congruence).
    rewrite Et. specialize (IH Hnd' d).
    destruct (moveTables g fT fS tT tS ts d). exact IH.
  - destruct (eqb (table_id t) tT) eqn:Et.
    + apply eqb_eq in Et. specialize (IH Hnd' (targetGuest tS t)).
      destruct (moveTables g fT fS tT tS ts (targetGuest tS t)). simpl in *.
      rewrite IH, findTable_not_in; [reflexivity | congruence].
    + specialize (IH Hnd' d).
      destruct (moveTables g fT fS tT tS ts d). exact IH.
Qed.

Lemma findTable_map (f : Table -> Table) (tid : jsstring) (ts : list Table) :
  (forall t, table_id (f t) = table_id t) ->
  findTable tid (map f ts) = option_map f (findTable tid ts).
Proof.
  intros Hf. induction ts as [|t ts IH]; simpl; [reflexivity|].
  rewrite Hf. now destruct (eqb (table_id t) tid).
Qed.

Lemma findSeat_map (f : Seat -> Seat) (sid : jsstring) (ss : list Seat) :
  (forall s, seat_id (f s) = seat_id s) ->
  findSeat sid (map f ss) = option_map f (findSeat sid ss).
Proof.
  intros Hf. induction ss as [|s ss IH]; simpl; [reflexivity|].
  rewrite Hf. now destruct (eqb (seat_id s) sid).
Qed.

Lemma movedTable_id (g fT fS tT tS : jsstring) (t : Table) :
  table_id (movedTable g fT fS tT tS t) = table_id t.
Proof.
  unfold movedTable.
  destruct (eqb (table_id t) fT); [reflexivity|].
  now destruct (eqb (table_id t) tT).
Qed.

(** With guest [a] on seat [fS] of table [fT], another guest [b] on seat [tS]
    of a different table [tT], and table identifiers that are unique,
    [moveGuestBetweenSeats] puts [a] on the destination seat, empties the
    source seat and appends [b] to the unassigned list. *)
Lemma move_between_distinct_tables (a b fT fS tT tS : jsstring) (L : SeatingLayout) :
  NoDup (map table_id (tables L)) ->
  fT <> tT ->
  seatRef fT fS L = Some (Some a) ->
  seatRef tT tS L = Some (Some b) ->
  b <> a -> b <> [] ->
  seatRef tT tS (moveGuestBetweenSeats a fT fS tT tS L) = Some (Some a)
  /\ seatRef fT fS (moveGuestBetweenSeats a fT fS tT tS L) = Some None
  /\ unassignedGuests (moveGuestBetweenSeats a fT fS tT tS L)
     = unassignedGuests L ++ [b].
Proof.
  intros Hnd Hne Hfrom Hto Hba Hb.
  unfold seatRef in Hfrom, Hto.
  destruct (findTable fT (tables L)) as [ft|] eqn:Eft; [|discriminate].
  destruct (findTable tT (tables L)) as [tt'|] eqn:Ett; [|discriminate].
  destruct (findSeat fS (seats ft)) as [fs|] eqn:Efs; [|discriminate].
  destruct (findSeat tS (seats tt')) as [ts|] eqn:Ets; [|discriminate].
  simpl in Hfrom, Hto. injection Hfrom as Hfrom. injection Hto as Hto.
  assert (Hft : eqb (table_id ft) fT = true)
    by (apply (find_some _ _ Eft)).
  assert (Htt : eqb (table_id tt') tT = true)
    by (apply (find_some _ _ Ett)).
  assert (Hfs : eqb (seat_id fs) fS = true) by (apply (find_some _ _ Efs)).
  assert (Hts : eqb (seat_id ts) tS = true) by (apply (find_some _ _ Ets)).
  assert (Htf : eqb (table_id tt') fT = false).
  { apply eqb_neq. apply eqb_eq in Htt. congruence. }
  pose proof (moveTables_fst a fT fS tT tS (tables L) None) as F.
  pose proof (moveTables_snd a fT fS tT tS _ None Hnd Hne) as S.
  rewrite Ett in S.
  unfold moveGuestBetweenSeats, seatRef.
  destruct (moveTables a fT fS tT tS (tables L) None) as [ts' d]. simpl in F, S.
  subst ts' d. cbn [tables unassignedGuests].
  rewrite !(findTable_map _ _ _ (movedTable_id a fT fS tT tS)), Eft, Ett.
  cbn [option_map]. unfold movedTable. rewrite Hft, Htf, Htt.
  split; [|split].
  - cbn [seats seatGuest withSeats].
    rewrite findSeat_map by (intros s0; now destruct (eqb (seat_id s0) tS)).
    rewrite Ets. simpl. now rewrite Hts.
  - cbn [seats emptySeat withSeats].
    rewrite findSeat_map by (intros s0; now destruct (eqb (seat_id s0) fS)).
    rewrite Efs. simpl. now rewrite Hfs.
  - unfold targetGuest. rewrite Ets. unfold occupied. rewrite Hto.
    assert (Tb : truthy b = true) by (destruct b; [now elim Hb | reflexivity]).
    assert (Nb : eqb b a = false) by (now apply eqb_neq).
    rewrite Tb. cbv iota. now rewrite Tb, Nb.
Qed.

(** The lemma at work: [g0] dragged from table [t1] onto the seat of [g1] at
    table [t2]. *)
Example move_between_distinct_tables_example :
  let L := moveGuestBetweenSeats g0 t1 (seatN 0) t2 (idOf "p" 1) (run twoTables) in
  seatRef t2 (idOf "p" 1) L = Some (Some g0)
  /\ seatRef t1 (seatN 0) L = Some None
  /\ unassignedGuests L = [g1]
  /\ layoutInvariant L = true.
Proof.
  destruct (move_between_distinct_tables g0 g1 t1 (seatN 0) t2 (idOf "p" 1)
              (run twoTables)) as (H1 & H2 & H3).
  - vm_compute. constructor; [intros [H|[]]; discriminate H|].
    constructor; [intros []|constructor].
  - discriminate.
  - reflexivity.
  - reflexivity.
  - discriminate.
  - discriminate.
  - cbv zeta. rewrite H1, H2, H3. repeat split; vm_compute; reflexivity.
Qed.

End Moving.

(* ------------------------------------------------------------------ *)
(** ** Seat counts after creation and after a resize *)

Section SeatCounts.

Lemma newTable_seatCountOk (u : nat -> jsstring) (ty : TableType) (nm : jsstring)
      (px py : Z) : seatCountOk (newTable u ty nm px py) = true.
Proof. destruct ty; reflexivity. Qed.

Lemma newTable_length (u : nat -> jsstring) (ty : TableType) (nm : jsstring)
      (px py : Z) :
  Z.of_nat (List.length (seats (newTable u ty nm px py)))
  = snd (getDefaultTableSize ty).
Proof. destruct ty; reflexivity. Qed.

(** A theater whose rows or seats per row are set to positive values has
    rows times seats per row seats. *)
Lemma theater_resize_seatCountOk (u : nat -> jsstring) (cfg : TableConfigUpdate)
      (t : Table) (r c : Z) :
  type t = theater ->
  cfg_rowConfigs cfg = None ->
  seatingChanged cfg = true ->
  nullishOpt (cfg_rows cfg) (rows t) = Some r ->
  nullishOpt (cfg_seatsPerRow cfg) (seatsPerRow t) = Some c ->
  (0 < r)%Z -> (0 < c)%Z ->
  seatCountOk (updatedTable u cfg t) = true.
Proof.
  intros Hty Hrc Hch Hr Hc Hr0 Hc0.
  unfold seatCountOk, impliedSeatCount, updatedTable; simpl.
  rewrite Hty, Hch, Hrc, Hr, Hc.
  destruct (copyGuests_positions (seats t)
              (createSeats u theater
                 (nullish (cfg_seats cfg) (Z.of_nat (List.length (seats t))))
                 (Some r) (Some c))) as [_ ->].
  simpl. rewrite freshSeats_length.
  unfold orDefault.
  destruct (r =? 0)%Z eqn:E1; [apply Z.eqb_eq in E1; lia|].
  destruct (c =? 0)%Z eqn:E2; [apply Z.eqb_eq in E2; lia|].
  apply Z.eqb_eq. rewrite Z2Nat.id; nia.
Qed.

(** An amphitheater given per-row counts, with no seat count or with their
    sum as seat count, has as many seats as the rows add up to. *)
Lemma amphitheater_rowConfigs_seatCountOk (u : nat -> jsstring)
      (cfg : TableConfigUpdate) (t : Table) (rc : list TableRow) :
  type t = amphitheater ->
  cfg_rowConfigs cfg = Some rc ->
  nullish (cfg_seats cfg) (sumRows rc) = sumRows rc ->
  (0 <= sumRows rc)%Z ->
  seatCountOk (updatedTable u cfg t) = true.
Proof.
  intros Hty Hrc Hs H0.
  unfold seatCountOk, impliedSeatCount, updatedTable, seatingChanged; simpl.
  rewrite Hty, Hrc, Hs; simpl. rewrite !orb_true_r.
  rewrite rebuildSeats_length. apply Z.eqb_eq. now rewrite Z2Nat.id.
Qed.

End SeatCounts.

(* ------------------------------------------------------------------ *)
(** ** Where the store departs from the specification *)

(** C1. The invariant that every guest is unassigned exactly once or seated on
    exactly one seat holds of the layout with four seated guests, and is lost
    by two reachable continuations: shrinking the table to three seats leaves
    guest [g3] in the guest list, on no seat and not unassigned; moving [g0]
    onto the occupied seat [s1] of the same table leaves [g0] on no seat and
    not unassigned. *)
Theorem layout_invariant_lost :
  layoutInvariant (run seatedFour) = true
  /\ layoutInvariant (run resizedToThree) = false
  /\ hasGuest g3 (run resizedToThree) = true
  /\ countUnassigned g3 (run resizedToThree) = 0%nat
  /\ countSeated g3 (run resizedToThree) = 0%nat
  /\ layoutInvariant (run movedWithinTable) = false
  /\ hasGuest g0 (run movedWithinTable) = true
  /\ countUnassigned g0 (run movedWithinTable) = 0%nat
  /\ countSeated g0 (run movedWithinTable) = 0%nat.
Proof. vm_compute. repeat split; reflexivity. Qed.

(** C2. A round table of eight seats with seats 0 to 3 occupied: resized to
    six seats it keeps the four guests on seats 0 to 3 and seats 4 and 5 are
    empty; resized further to three seats, seats 0 to 2 keep their guests, but
    the guest of seat 3 is not appended to [unassignedGuests], which stays
    empty: the guest is still in the guest list and is dropped from the
    seating. *)
Theorem resize_drops_displaced_guest :
  seatGuests (run seatedFour)
    = [[Some g0; Some g1; Some g2; Some g3; None; None; None; None]]
  /\ seatGuests (run resizedToSix)
    = [[Some g0; Some g1; Some g2; Some g3; None; None]]
  /\ seatGuests (run resizedToThree) = [[Some g0; Some g1; Some g2]]
  /\ unassignedGuests (run resizedToSix) = []
  /\ unassignedGuests (run resizedToThree) = []
  /\ hasGuest g3 (run resizedToThree) = true.
Proof. vm_compute. repeat split; reflexivity. Qed.

(** C3. Guest [g0] sits on seat [s0] and guest [g1] on seat [s1] of the same
    table; [moveGuestBetweenSeats(g0, t1, s0, t1, s1)] empties [s0], leaves
    [g1] on [s1] and does not unassign [g1]: the moving guest ends on no seat. *)
Theorem move_within_table_loses_guest :
  seatGuests (run seatedFour)
    = [[Some g0; Some g1; Some g2; Some g3; None; None; None; None]]
  /\ seatGuests (run movedWithinTable)
    = [[None; Some g1; Some g2; Some g3; None; None; None; None]]
  /\ unassignedGuests (run movedWithinTable) = []
  /\ countSeated g0 (run movedWithinTable) = 0%nat.
Proof. vm_compute. repeat split; reflexivity. Qed.

(** C4. With guest [g0] unassigned and no table [nope] (and no seat [nope] on
    table [t1]) in the layout, [assignGuestToSeat] is not a no-op: it takes
    [g0] out of [unassignedGuests] and seats the guest nowhere. *)
Theorem assign_to_missing_target_changes_layout :
  let L := run oneGuestOneTable in
  findTable (lit "nope") (tables L) = None
  /\ unassignedGuests L = [g0]
  /\ unassignedGuests (assignGuestToSeat g0 (lit "nope") (seatN 0) L) = []
  /\ countSeated g0 (assignGuestToSeat g0 (lit "nope") (seatN 0) L) = 0%nat
  /\ option_map (fun t => findSeat (lit "nope") (seats t)) (findTable t1 (tables L))
     = Some None
  /\ unassignedGuests (assignGuestToSeat g0 t1 (lit "nope") L) = []
  /\ countSeated g0 (assignGuestToSeat g0 t1 (lit "nope") L) = 0%nat.
Proof. vm_compute. repeat split; reflexivity. Qed.

(** C5. An amphitheater created by [addTable] has forty seats for five rows of
    eight; after [updateTableConfig(id, { rows: 2 })] its seat list has
    sixteen seats while its per-row counts still add up to forty. *)
Theorem amphitheater_rows_break_seat_count :
  map seatCountOk (tables (run [OpAddTable (tableDraws "a1" "s") amphitheater (lit "Hall") 0 0]))
    = [true]
  /\ map seatCountOk (tables (run amphitheaterTwoRows)) = [false]
  /\ map (fun t => List.length (seats t)) (tables (run amphitheaterTwoRows)) = [16%nat]
  /\ map impliedSeatCount (tables (run amphitheaterTwoRows)) = [Some 40%Z].
Proof. vm_compute. repeat split; reflexivity. Qed.

(* ------------------------------------------------------------------ *)
(** ** Bulk import of guest names *)

Section Parsing.

Lemma truthy_rev_cons (c : N) (cur : jsstring) : truthy (rev (c :: cur)) = true.
Proof.
  simpl. destruct (rev cur); reflexivity.
Qed.

(** [split(/\s+/).filter(p => p.length > 0)] yields the tokens. *)
Lemma split_go_tokens (s cur : jsstring) (insp : bool) :
  (insp = true -> cur = []) ->
  filter truthy (split_go cur insp s) = tokens_from cur s.
Proof.
  revert cur insp. induction s as [|c s IH]; intros cur insp Hinv; simpl.
  - destruct cur as [|d cur]; [reflexivity|].
    now rewrite truthy_rev_cons.
  - destruct (is_space c).
    + destruct insp.
      * rewrite (Hinv eq_refl). apply IH. reflexivity.
      * destruct cur as [|d cur].
        -- simpl. apply IH. reflexivity.
        -- cbn [filter]. rewrite truthy_rev_cons. f_equal. apply IH. reflexivity.
    + apply IH. discriminate.
Qed.

Lemma split_ws_tokens (s : jsstring) : filter truthy (split_ws s) = tokens s.
Proof. apply split_go_tokens. discriminate. Qed.

Lemma tokens_trimStart (s : jsstring) : tokens (trimStart s) = tokens s.
Proof.
  unfold tokens. induction s as [|c s IH]; simpl; [reflexivity|].
  destruct (is_space c) eqn:Hc; [exact IH|].
  simpl. now rewrite Hc.
Qed.

Lemma tokens_from_spaces (cur ws : jsstring) :
  Forall (fun c => is_space c = true) ws ->
  tokens_from cur ws = tokens_from cur [].
Proof.
  intros H. revert cur. induction H as [|c ws Hc Hws IH]; intros cur; [reflexivity|].
  simpl. rewrite Hc. destruct cur; rewrite IH; reflexivity.
Qed.

Lemma tokens_from_app_spaces (s ws cur : jsstring) :
  Forall (fun c => is_space c = true) ws ->
  tokens_from cur (s ++ ws) = tokens_from cur s.
Proof.
  intros H. revert cur. induction s as [|c s IH]; intros cur; simpl.
  - now apply tokens_from_spaces.
  - destruct (is_space c); [destruct cur|]; now rewrite IH.
Qed.

Lemma leadingSpaces_trimStart (s : jsstring) :
  s = leadingSpaces s ++ trimStart s
  /\ Forall (fun c => is_space c = true) (leadingSpaces s).
Proof.
  induction s as [|c s [IH1 IH2]]; simpl; [split; [reflexivity|constructor]|].
  destruct (is_space c) eqn:Hc; simpl.
  - split; [now rewrite <- IH1 | now constructor].
  - split; [reflexivity | constructor].
Qed.

Lemma tokens_trimEnd (s : jsstring) : tokens (trimEnd s) = tokens s.
Proof.
  unfold trimEnd, tokens.
  destruct (leadingSpaces_trimStart (rev s)) as [Hs Hws].
  assert (E : s = rev (trimStart (rev s)) ++ rev (leadingSpaces (rev s))).
  { rewrite <- rev_app_distr, <- Hs, rev_involutive. reflexivity. }
  rewrite E at 2. symmetry. apply tokens_from_app_spaces.
  apply Forall_rev. exact Hws.
Qed.

Lemma tokens_trim (s : jsstring) : tokens (trim s) = tokens s.
Proof. unfold trim. now rewrite tokens_trimEnd, tokens_trimStart. Qed.

Lemma tokens_from_nil (s cur : jsstring) :
  tokens_from cur s = [] -> cur = [] /\ blank s = true.
Proof.
  revert cur. induction s as [|c s IH]; intros cur H; simpl in *.
  - destruct cur; [auto | discriminate].
  - destruct (is_space c).
    + destruct cur; [|discriminate]. split; [reflexivity|]. now apply IH in H.
    + apply IH in H as [H _]. discriminate.
Qed.

Lemma blank_trimStart (s : jsstring) : blank s = true -> trimStart s = [].
Proof.
  induction s as [|c s IH]; simpl; [reflexivity|].
  destruct (is_space c); [exact IH | discriminate].
Qed.

(** [name.trim()] is truthy exactly for the entries that are not blank. *)
Lemma truthy_trim (s : jsstring) : truthy (trim s) = negb (blank s).
Proof.
  destruct (blank s) eqn:Hb; simpl.
  - unfold trim. now rewrite (blank_trimStart s Hb).
  - destruct (trim s) eqn:Ht; [|reflexivity].
    pose proof (tokens_trim s) as E. rewrite Ht in E.
    symmetry in E. apply tokens_from_nil in E as [_ E]. congruence.
Qed.

Lemma parseGuestName_tokens (s : jsstring) :
  parseGuestName (trim s) =
  match tokens s with
  | [] => mkParsed [] [] None
  | [p0] => mkParsed p0 [] None
  | [p0; p1] => mkParsed p1 p0 None
  | p0 :: p1 :: rest => mkParsed p1 p0 (Some (join space rest))
  end.
Proof.
  unfold parseGuestName. now rewrite split_ws_tokens, !tokens_trim.
Qed.

Lemma importLoop_parsedAs (u : nat -> jsstring) (names : list jsstring) (k : nat) :
  Forall2 parsedAs (filter (fun e => negb (blank e)) names) (importLoop u k names).
Proof.
  revert k. induction names as [|e names IH]; intros k; simpl; [constructor|].
  rewrite truthy_trim. destruct (blank e) eqn:Hb; simpl; [apply IH|].
  constructor; [|apply IH].
  unfold parsedAs. rewrite parseGuestName_tokens.
  destruct (tokens e) as [|p0 [|p1 [|p2 rest]]] eqn:Ht; simpl; auto.
  apply tokens_from_nil in Ht as [_ Ht]. congruence.
Qed.

End Parsing.

(** The literals of this file read as UTF-16: Cyrillic letters are single
    units, and a blank line of the import text is skipped. *)
Example lit_cyrillic : lit "Иван" = [0x418; 0x432; 0x430; 0x43D]%N.
Proof. reflexivity. Qed.

Example import_skips_blank_lines :
  map fullName
      (guests (importGuests (idOf "n") [lit "  "; lit " Ада   Лавлейс "; []] emptyLayout))
  = [lit "Ада Лавлейс"].
Proof. vm_compute. reflexivity. Qed.

(** Every token is a non-empty run without white space. *)
Lemma tokens_from_wellformed (s cur : jsstring) :
  forallb (fun c => negb (is_space c)) cur = true ->
  Forall (fun t => t <> [] /\ forallb (fun c => negb (is_space c)) t = true)
         (tokens_from cur s).
Proof.
  assert (R : forall d l, forallb (fun c => negb (is_space c)) (d :: l) = true ->
              rev (d :: l) <> []
              /\ forallb (fun c => negb (is_space c)) (rev (d :: l)) = true).
  { intros d l H. split.
    - simpl. destruct (rev l); discriminate.
    - apply forallb_forall. intros c Hc. apply in_rev in Hc.
      rewrite forallb_forall in H. apply H. exact Hc. }
  revert cur. induction s as [|c s IH]; intros cur H; simpl.
  - destruct cur; constructor; [apply R, H | constructor].
  - destruct (is_space c) eqn:Hc.
    + destruct cur; [apply IH; reflexivity|].
      constructor; [apply R, H | apply IH; reflexivity].
    + apply IH. simpl. now rewrite Hc.
Qed.

(** C7. [importGuests] leaves the tables alone and appends to the guest list
    one guest for each entry that is not blank, in order, the blank entries
    being skipped; the guest of an entry with one token has that token as
    first name and an empty last name, with two tokens the first is the last
    name and the second the first name, with three or more the remaining
    tokens joined by single spaces are the middle name; the identifiers of the
    created guests are appended to [unassignedGuests]. Importing
    ["Иванов Иван", "Петров Петр Сергеевич", "Сидорова"] into the empty store creates the three guests of the specification, all
    unassigned. *)
Theorem importGuests_parses_names :
  (forall (u : nat -> jsstring) (names : list jsstring) (L : SeatingLayout),
     exists created : list Guest,
       tables (importGuests u names L) = tables L
       /\ guests (importGuests u names L) = guests L ++ created
       /\ unassignedGuests (importGuests u names L)
          = unassignedGuests L ++ map guest_id created
       /\ Forall2 parsedAs (filter (fun e => negb (blank e)) names) created)
  /\ importGuests (idOf "n")
       [lit "Иванов Иван"; lit "Петров Петр Сергеевич"; lit "Сидорова"]
       emptyLayout
     = mkLayout []
         [ mkGuest (idOf "n" 0) (lit "Иван") (lit "Иванов") None (lit "Иванов Иван");
           mkGuest (idOf "n" 1) (lit "Петр") (lit "Петров") (Some (lit "Сергеевич"))
                   (lit "Петров Петр Сергеевич");
           mkGuest (idOf "n" 2) (lit "Сидорова") [] None (lit "Сидорова") ]
         [idOf "n" 0; idOf "n" 1; idOf "n" 2].
Proof.
  split.
  - intros u names L. exists (importLoop u 0 names).
    repeat split. apply importLoop_parsedAs.
  - vm_compute. reflexivity.
Qed.

(** C9, as amended. Whatever the JSON codec: exporting leaves the store as it
    is, shows the success notice and hands out one file, named
    [seating-plan-<date>.json], whose content is the serialisation of the
    tables, the guests and the unassigned list of the store with the time
    stamp. Importing never writes the store or the downloads, whatever the
    document and whatever the store holds: a document that parses is
    answered by the success notice, one that does not by the error notice,
    and without a file nothing happens. Hence the store after export followed
    by import of the exported document is the store that was exported. *)
Theorem import_only_checks_the_document :
  forall (Json : Type) (JSON_stringify : Snapshot -> jsstring)
         (JSON_parse : jsstring -> option Json)
         (now later : jsstring) (app : App),
    let doc :=
      JSON_stringify (mkSnapshot (tables (store app)) (guests (store app))
                                 (unassignedGuests (store app)) now) in
    let exported := handleExport JSON_stringify now later app in
    (store exported = store app
     /\ downloads exported
        = downloads app
          ++ [(lit "seating-plan-" ++ datePart later ++ lit ".json", doc)]
     /\ toasts exported
        = toasts app ++ [ToastSuccess (lit "План рассадки экспортирован")])
    /\ (forall json,
          store (handleImport JSON_parse (Some json) app) = store app
          /\ downloads (handleImport JSON_parse (Some json) app) = downloads app
          /\ toasts (handleImport JSON_parse (Some json) app)
             = toasts app
               ++ [match JSON_parse json with
                   | Some _ => ToastSuccess (lit "План рассадки импортирован")
                   | None => ToastError (lit "Ошибка импорта файла")
                   end])
    /\ handleImport JSON_parse None app = app
    /\ store (handleImport JSON_parse (Some doc) exported) = store app.
Proof.
  intros Json JSON_stringify JSON_parse now later app doc exported.
  assert (K : forall json a,
            store (handleImport JSON_parse (Some json) a) = store a).
  { intros json a. unfold handleImport. now destruct (JSON_parse json). }
  split; [|split; [|split]].
  - repeat split.
  - intros json. split; [apply K|].
    unfold handleImport. now destruct (JSON_parse json).
  - reflexivity.
  - rewrite K. reflexivity.
Qed.

(** C9, counterexample. The store holds guest [g0] and table [t1]; it is
    exported, then reset, and the exported document is imported. Whatever
    the JSON codec, the document handed out is that of the guest and the
    table, and after the import the store is still empty: it has no table
    and not the guest of the snapshot, also when the document parses and the
    success notice is shown. The import does not yield the layout of the
    snapshot. *)
Lemma import_after_reset_restores_nothing :
  (hasGuest g0 (run oneGuestOneTable) = true
   /\ map table_id (tables (run oneGuestOneTable)) = [t1])
  /\ forall (Json : Type) (JSON_stringify : Snapshot -> jsstring)
            (JSON_parse : jsstring -> option Json) (now later : jsstring),
      let before := mkApp (run oneGuestOneTable) [] [] in
      let exported := handleExport JSON_stringify now later before in
      let doc :=
        JSON_stringify (mkSnapshot (tables (run oneGuestOneTable))
                                   (guests (run oneGuestOneTable))
                                   (unassignedGuests (run oneGuestOneTable))
                                   now) in
      let cleared :=
        mkApp (resetAll (store exported)) (downloads exported)
              (toasts exported) in
      let imported := handleImport JSON_parse (Some doc) cleared in
      map snd (downloads exported) = [doc]
      /\ store imported = emptyLayout
      /\ hasGuest g0 (store imported) = false
      /\ tables (store imported) = []
      /\ guests (store imported) <> guests (run oneGuestOneTable)
      /\ match JSON_parse doc with
         | Some _ =>
             toasts imported
             = toasts exported
               ++ [ToastSuccess (lit "План рассадки импортирован")]
         | None =>
             toasts imported
             = toasts exported ++ [ToastError (lit "Ошибка импорта файла")]
         end.
Proof.
  split; [split; vm_compute; reflexivity|].
  intros Json JSON_stringify JSON_parse now later before exported doc cleared
         imported.
  assert (S : store imported = emptyLayout).
  { unfold imported, handleImport. now destruct (JSON_parse doc). }
  split; [reflexivity|]. split; [exact S|]. rewrite S.
  split; [reflexivity|]. split; [reflexivity|]. split.
  - change (guests emptyLayout) with (@nil Guest).
    intros H. apply (f_equal (@List.length Guest)) in H.
    vm_compute in H. discriminate.
  - unfold imported, handleImport. now destruct (JSON_parse doc).
Qed.

(* ------------------------------------------------------------------ *)
(** ** Geometry of the round table: the seats on their circle *)

Section RoundGeometry.

Local Open Scope R_scope.

Lemma cos_minus_PI2 : cos (- (PI / 2)) = 0.
Proof. rewrite cos_neg. apply cos_PI2. Qed.

Lemma sin_minus_PI2 : sin (- (PI / 2)) = -1.
Proof. rewrite sin_neg, sin_PI2. reflexivity. Qed.

Lemma seatAngle_quarters :
  RoundTable.seatAngle 0 4 = - (PI / 2) /\ RoundTable.seatAngle 1 4 = 0
  /\ RoundTable.seatAngle 2 4 = PI / 2 /\ RoundTable.seatAngle 3 4 = PI.
Proof. unfold RoundTable.seatAngle. repeat split; lra. Qed.

Lemma seatCenter_on_circle (w : R) (i n : nat) :
  RoundTable.seatCenter w i n
  = (RoundTable.centerOffset w + RoundTable.seatRadius w * cos (RoundTable.seatAngle (INR i) (INR n)),
     RoundTable.centerOffset w + RoundTable.seatRadius w * sin (RoundTable.seatAngle (INR i) (INR n))).
Proof.
  unfold RoundTable.seatCenter, RoundTable.getSeatPosition; simpl. f_equal; lra.
Qed.

End RoundGeometry.

(** C8. Arithmetic on numbers read over the reals, [Math.cos], [Math.sin] and
    [Math.PI] as [cos], [sin] and [PI]. For a round table of [n >= 1] seats
    and any diameter, the centre of seat [i] lies at angle
    [(i / n) * 2 * PI - PI / 2] from the table centre, on the circle of radius
    diameter / 2 + seat size / 2 + 8 around it (seat size 36). For four
    seats and diameter 160 the angles are -90, 0, 90 and 180 degrees, the
    radius is 106 and the four centres are (132, 26), (238, 132), (132, 238)
    and (26, 132) around the table centre (132, 132). The position is a
    function of the diameter, the index and the seat count alone. *)
Theorem round_seat_geometry :
  forall (w : R) (i n : nat),
    (1 <= n)%nat ->
    let c := RoundTable.centerOffset w in
    let r := (w / 2 + 36 / 2 + 8)%R in
    let theta := (INR i / INR n * 2 * PI - PI / 2)%R in
    RoundTable.seatRadius w = r
    /\ RoundTable.seatCenter w i n = (c + r * cos theta, c + r * sin theta)%R
    /\ ((fst (RoundTable.seatCenter w i n) - c) ^ 2
        + (snd (RoundTable.seatCenter w i n) - c) ^ 2 = r ^ 2)%R
    /\ (RoundTable.seatAngle 0 4 = - (PI / 2)
        /\ RoundTable.seatAngle 1 4 = 0
        /\ RoundTable.seatAngle 2 4 = PI / 2
        /\ RoundTable.seatAngle 3 4 = PI)%R
    /\ (RoundTable.centerOffset 160 = 132 /\ RoundTable.seatRadius 160 = 106)%R
    /\ (RoundTable.seatCenter 160 0 4 = (132, 26)
        /\ RoundTable.seatCenter 160 1 4 = (238, 132)
        /\ RoundTable.seatCenter 160 2 4 = (132, 238)
        /\ RoundTable.seatCenter 160 3 4 = (26, 132))%R
    /\ (forall (w' : R) (i' n' : nat),
          (w', i', n') = (w, i, n) ->
          RoundTable.getSeatPosition w' (INR i') (INR n')
          = RoundTable.getSeatPosition w (INR i) (INR n)).
Proof.
  intros w i n Hn c r theta.
  assert (Hr : RoundTable.seatRadius w = r).
  { unfold RoundTable.seatRadius, RoundTable.tableRadius,
      RoundTable.tableDiameter, RoundTable.seatSize, r. lra. }
  assert (Hc : RoundTable.seatCenter w i n
               = (c + r * cos theta, c + r * sin theta)%R).
  { rewrite seatCenter_on_circle, Hr. reflexivity. }
  assert (Q : forall k a,
            RoundTable.seatAngle (INR k) 4 = a ->
            RoundTable.seatCenter 160 k 4
            = (132 + 106 * cos a, 132 + 106 * sin a)%R).
  { intros k a Ha. rewrite seatCenter_on_circle.
    replace (INR 4) with 4%R by (simpl; lra). rewrite Ha.
    unfold RoundTable.centerOffset, RoundTable.containerSize,
      RoundTable.seatRadius, RoundTable.tableRadius,
      RoundTable.tableDiameter, RoundTable.seatSize.
    f_equal; lra. }
  destruct seatAngle_quarters as (A0 & A1 & A2 & A3).
  split; [exact Hr|]. split; [exact Hc|]. split.
  { rewrite Hc; simpl.
    replace (c + r * cos theta - c)%R with (r * cos theta)%R by lra.
    replace (c + r * sin theta - c)%R with (r * sin theta)%R by lra.
    pose proof (sin2_cos2 theta) as T. unfold Rsqr in T. nra. }
  split; [repeat split; assumption|]. split.
  { unfold RoundTable.centerOffset, RoundTable.containerSize,
      RoundTable.seatRadius, RoundTable.tableRadius,
      RoundTable.tableDiameter, RoundTable.seatSize. split; lra. }
  split; [|intros w' i' n' E; injection E as -> -> ->; reflexivity].
  repeat split.
  - rewrite (Q 0%nat _ A0), cos_minus_PI2, sin_minus_PI2.
    f_equal; lra.
  - rewrite (Q 1%nat _ A1), cos_0, sin_0. f_equal; lra.
  - rewrite (Q 2%nat _ ltac:(simpl; exact A2)), cos_PI2, sin_PI2. f_equal; lra.
  - rewrite (Q 3%nat _ ltac:(simpl; replace (1 + 1 + 1)%R with 3%R by lra; exact A3)),
      cos_PI, sin_PI. f_equal; lra.
Qed.

Lemma round_seat_geometry_witness :
  (1 <= 4)%nat
  /\ RoundTable.seatCenter 160 1 4 = (238, 132)%R.
Proof.
  split; [lia|].
  apply (round_seat_geometry 160 1 4). lia.
Defined.

(* ------------------------------------------------------------------ *)
(** ** Counting the occurrences of a guest *)

Section Counting.

Lemma eqb_sym (a b : jsstring) : eqb a b = eqb b a.
Proof.
  destruct (eqb a b) eqn:E.
  - apply eqb_eq in E. subst. symmetry. apply eqb_refl.
  - destruct (eqb b a) eqn:E'; [|reflexivity].
    apply eqb_eq in E'. subst. now rewrite eqb_refl in E.
Qed.

Lemma countUnassigned_occ (g : jsstring) (L : SeatingLayout) :
  countUnassigned g L = occ g (unassignedGuests L).
Proof. reflexivity. Qed.

Lemma occ_app (g : jsstring) (l r : list jsstring) :
  occ g (l ++ r) = (occ g l + occ g r)%nat.
Proof. unfold occ. now rewrite filter_app, length_app. Qed.

Lemma occ_single (g a : jsstring) : occ g [a] = b2n (eqb g a).
Proof. unfold occ; simpl. now destruct (eqb g a). Qed.

Lemma occ_filter_other (g g' : jsstring) (l : list jsstring) :
  occ g' (filter (fun i => negb (eqb i g)) l)
  = if eqb g' g then 0%nat else occ g' l.
Proof.
  unfold occ. induction l as [|a l IH]; simpl.
  - now destruct (eqb g' g).
  - destruct (eqb a g) eqn:Ea; simpl.
    + rewrite IH. destruct (eqb g' g) eqn:Eg; [reflexivity|].
      destruct (eqb g' a) eqn:Ega; [|reflexivity].
      apply eqb_eq in Ea, Ega. subst. now rewrite eqb_refl in Eg.
    + destruct (eqb g' a) eqn:Ega; simpl; rewrite IH.
      * destruct (eqb g' g) eqn:Eg; [|reflexivity].
        apply eqb_eq in Eg, Ega. subst. now rewrite eqb_refl in Ea.
      * reflexivity.
Qed.

Lemma seatedIn_app (g : jsstring) (l r : list Seat) :
  seatedIn g (l ++ r) = (seatedIn g l + seatedIn g r)%nat.
Proof. unfold seatedIn. now rewrite filter_app, length_app. Qed.

Lemma seatedIn_cons (g : jsstring) (s : Seat) (ss : list Seat) :
  seatedIn g (s :: ss) = (b2n (holds s g) + seatedIn g ss)%nat.
Proof. unfold seatedIn; simpl. now destruct (holds s g). Qed.

(** The seats of the layout that hold [g], table by table. *)
Lemma countSeated_tables (g : jsstring) (L : SeatingLayout) :
  countSeated g L = list_sum (map (fun t => seatedIn g (seats t)) (tables L)).
Proof.
  unfold countSeated. induction (tables L) as [|t ts IH]; simpl; [reflexivity|].
  rewrite filter_app, length_app, IH. reflexivity.
Qed.

Lemma seatedIn_guests (g : jsstring) (ss ss' : list Seat) :
  map guestId ss = map guestId ss' -> seatedIn g ss = seatedIn g ss'.
Proof.
  revert ss'. induction ss as [|s ss IH]; intros [|s' ss'] H; simpl in H;
    try discriminate; [reflexivity|].
  injection H as H1 H2. rewrite !seatedIn_cons, (IH _ H2).
  unfold holds. now rewrite H1.
Qed.

Lemma seatedIn_empty (g : jsstring) (ss : list Seat) :
  map guestId ss = repeat None (List.length ss) -> seatedIn g ss = 0%nat.
Proof.
  induction ss as [|s ss IH]; simpl; intros H; [reflexivity|].
  injection H as H1 H2. rewrite seatedIn_cons, (IH H2).
  unfold holds. now rewrite H1.
Qed.

Lemma holds_unseat (g g' : jsstring) (s : Seat) :
  holds (unseat g s) g' = if eqb g' g then false else holds s g'.
Proof.
  destruct s as [i [a|] p]; unfold unseat, holds; simpl.
  - destruct (eqb a g) eqn:E1; simpl.
    + destruct (eqb g' g) eqn:E2; [reflexivity|].
      destruct (eqb a g') eqn:E3; [|reflexivity].
      apply eqb_eq in E1, E3. subst. now rewrite eqb_refl in E2.
    + destruct (eqb g' g) eqn:E2; [|reflexivity].
      destruct (eqb a g') eqn:E3; [|reflexivity].
      apply eqb_eq in E2, E3. subst. now rewrite eqb_refl in E1.
  - now destruct (eqb g' g).
Qed.

Lemma seatedIn_unseat (g g' : jsstring) (ss : list Seat) :
  seatedIn g' (map (unseat g) ss) = if eqb g' g then 0%nat else seatedIn g' ss.
Proof.
  induction ss as [|s ss IH]; simpl.
  - now destruct (eqb g' g).
  - rewrite !seatedIn_cons, IH, holds_unseat. now destruct (eqb g' g).
Qed.

Lemma occ_assignedIds (g : jsstring) (ss : list Seat) :
  truthy g = true -> occ g (assignedIds ss) = seatedIn g ss.
Proof.
  intros Hg. induction ss as [|s ss IH]; simpl; [reflexivity|].
  rewrite seatedIn_cons. unfold holds.
  destruct (guestId s) as [a|]; [|exact IH].
  destruct (truthy a) eqn:Ta.
  - change (a :: assignedIds ss) with ([a] ++ assignedIds ss).
    rewrite occ_app, occ_single, IH, (eqb_sym g a). reflexivity.
  - rewrite IH. destruct (eqb a g) eqn:E; [|reflexivity].
    apply eqb_eq in E. subst. congruence.
Qed.

Lemma assignedIds_app (l r : list Seat) :
  assignedIds (l ++ r) = assignedIds l ++ assignedIds r.
Proof.
  induction l as [|s l IH]; simpl; [reflexivity|].
  destruct (guestId s) as [a|]; [|exact IH].
  destruct (truthy a); [simpl|]; now rewrite IH.
Qed.

(** A guest is placed once when the two counts are (1, 0) or (0, 1). *)
Lemma placedOnce_counts (L : SeatingLayout) (gu : Guest) :
  placedOnce L gu = true <->
  (countUnassigned (guest_id gu) L + countSeated (guest_id gu) L = 1)%nat.
Proof.
  unfold placedOnce.
  destruct (countUnassigned (guest_id gu) L) as [|[|a]];
    destruct (countSeated (guest_id gu) L) as [|[|b]]; simpl; split;
    intros H; try reflexivity; try discriminate; try lia.
Qed.

Lemma layoutInvariant_counts (L : SeatingLayout) :
  layoutInvariant L = true <->
  forall gu, In gu (guests L) ->
    (countUnassigned (guest_id gu) L + countSeated (guest_id gu) L = 1)%nat.
Proof.
  unfold layoutInvariant. rewrite forallb_forall.
  split; intros H gu Hin; apply placedOnce_counts, H, Hin.
Qed.

End Counting.

(* ------------------------------------------------------------------ *)
(** ** Operations that keep every guest placed once *)

Section Conservation.

Lemma list_sum_map_ext {A} (f h : A -> nat) (l : list A) :
  (forall a, In a l -> f a = h a) -> list_sum (map f l) = list_sum (map h l).
Proof.
  intros H. f_equal. apply map_ext_in. exact H.
Qed.

Lemma list_sum_zero {A} (f : A -> nat) (l : list A) :
  (forall a, In a l -> f a = 0%nat) -> list_sum (map f l) = 0%nat.
Proof.
  induction l as [|a l IH]; simpl; intros H; [reflexivity|].
  rewrite (H a (or_introl eq_refl)), IH; auto.
Qed.

(** Two layouts with the same guests and the same counts are consistent
    together. *)
Lemma layoutInvariant_same_counts (L L' : SeatingLayout) :
  guests L' = guests L ->
  (forall g, countUnassigned g L' = countUnassigned g L) ->
  (forall g, countSeated g L' = countSeated g L) ->
  layoutInvariant L' = layoutInvariant L.
Proof.
  intros Hg Hu Hs. unfold layoutInvariant. rewrite Hg. clear Hg.
  induction (guests L) as [|gu l IH]; simpl; [reflexivity|].
  assert (E : placedOnce L' gu = placedOnce L gu)
    by (unfold placedOnce; now rewrite Hu, Hs).
  now rewrite E, IH.
Qed.

Lemma existsb_filter_false {A} (p : A -> bool) (l : list A) :
  existsb p (filter (fun a => negb (p a)) l) = false.
Proof.
  induction l as [|a l IH]; simpl; [reflexivity|].
  destruct (p a) eqn:E; simpl; [exact IH|]. now rewrite E.
Qed.

Lemma countSeated_removeGuest (g g' : jsstring) (L : SeatingLayout) :
  countSeated g' (removeGuest g L) = if eqb g' g then 0%nat else countSeated g' L.
Proof.
  rewrite !countSeated_tables. unfold removeGuest; simpl. rewrite map_map.
  destruct (eqb g' g) eqn:E.
  - apply list_sum_zero. intros t _. simpl.
    change (seatedIn g' (map (unseat g) (seats t)) = 0%nat).
    now rewrite seatedIn_unseat, E.
  - apply list_sum_map_ext. intros t _. simpl.
    change (seatedIn g' (map (unseat g) (seats t)) = seatedIn g' (seats t)).
    now rewrite seatedIn_unseat, E.
Qed.

Lemma countSeated_clearGuest_tables (g g' : jsstring) (ts : list Table) :
  list_sum (map (fun t => seatedIn g' (seats t)) (map (clearGuest g) ts))
  = if eqb g' g then 0%nat
    else list_sum (map (fun t => seatedIn g' (seats t)) ts).
Proof.
  pose proof (countSeated_removeGuest g g' (mkLayout ts [] [])) as H.
  rewrite !countSeated_tables in H. exact H.
Qed.

End Conservation.

(** X1. [removeGuest(g)] detaches the guest everywhere: afterwards no guest
    of the list, no entry of [unassignedGuests] and no seat carries the
    identifier [g], while the occurrences of every other identifier, in the
    unassigned list and on the seats, are what they were. *)
Theorem removeGuest_detaches :
  forall (g g' : jsstring) (L : SeatingLayout),
    hasGuest g (removeGuest g L) = false
    /\ countUnassigned g' (removeGuest g L)
       = (if eqb g' g then 0%nat else countUnassigned g' L)
    /\ countSeated g' (removeGuest g L)
       = (if eqb g' g then 0%nat else countSeated g' L)
    /\ map table_id (tables (removeGuest g L)) = map table_id (tables L).
Proof.
  intros g g' L. repeat split.
  - unfold hasGuest, removeGuest; simpl.
    apply (existsb_filter_false (fun gu => eqb (guest_id gu) g)).
  - unfold countUnassigned, removeGuest; simpl. apply (occ_filter_other g g').
  - apply countSeated_removeGuest.
  - unfold removeGuest; simpl. rewrite map_map. reflexivity.
Qed.

(** X2. [removeGuest] keeps a consistent layout consistent: if every guest is
    unassigned exactly once or on exactly one seat, the same holds of the
    guests that remain. *)
Theorem removeGuest_keeps_invariant :
  forall (g : jsstring) (L : SeatingLayout),
    layoutInvariant L = true ->
    layoutInvariant (removeGuest g L) = true.
Proof.
  intros g L H. rewrite layoutInvariant_counts in *.
  intros gu Hin. unfold removeGuest in Hin; simpl in Hin.
  apply filter_In in Hin as [Hin Hne]. apply negb_true_iff in Hne.
  assert (E : countUnassigned (guest_id gu) (removeGuest g L)
              = countUnassigned (guest_id gu) L).
  { unfold countUnassigned, removeGuest; simpl.
    pose proof (occ_filter_other g (guest_id gu) (unassignedGuests L)) as K.
    rewrite Hne in K. exact K. }
  rewrite E, countSeated_removeGuest, Hne. apply H, Hin.
Qed.

Lemma removeGuest_keeps_invariant_witness :
  layoutInvariant (run seatedFour) = true
  /\ layoutInvariant (removeGuest g1 (run seatedFour)) = true.
Proof.
  split; [reflexivity|].
  apply (removeGuest_keeps_invariant g1 (run seatedFour)). reflexivity.
Defined.

Section Releasing.

Lemma assignedIds_flat (g : jsstring) (ts : list Table) :
  truthy g = true ->
  occ g (assignedIds (flat_map seats ts))
  = list_sum (map (fun t => seatedIn g (seats t)) ts).
Proof.
  intros Hg. induction ts as [|t ts IH]; simpl; [reflexivity|].
  rewrite assignedIds_app, occ_app, IH, occ_assignedIds by exact Hg.
  reflexivity.
Qed.

(** After [clearLayout] a non-empty identifier occurs in the unassigned list
    as often as it did there and on the seats together. *)
Lemma clearLayout_counts (g : jsstring) (L : SeatingLayout) :
  truthy g = true ->
  countUnassigned g (clearLayout L)
  = (countUnassigned g L + countSeated g L)%nat
  /\ countSeated g (clearLayout L) = 0%nat.
Proof.
  intros Hg. split; [|reflexivity].
  rewrite countSeated_tables. unfold countUnassigned, clearLayout; simpl.
  fold (occ g (unassignedGuests L ++ assignedIds (flat_map seats (tables L)))).
  rewrite occ_app, assignedIds_flat by exact Hg. reflexivity.
Qed.

End Releasing.

(** X3. [clearLayout] loses no guest: when no guest has the empty string as
    identifier and every guest is unassigned once or seated once, then after
    [clearLayout] there is no table, the guest list is untouched, and every
    guest is in [unassignedGuests] exactly once. *)
Theorem clearLayout_unassigns_everyone :
  forall L : SeatingLayout,
    guestIdsTruthy L = true ->
    layoutInvariant L = true ->
    tables (clearLayout L) = []
    /\ guests (clearLayout L) = guests L
    /\ Forall (fun gu => countUnassigned (guest_id gu) (clearLayout L) = 1%nat)
              (guests L)
    /\ layoutInvariant (clearLayout L) = true.
Proof.
  intros L Hids Hinv.
  assert (K : forall gu, In gu (guests L) ->
              countUnassigned (guest_id gu) (clearLayout L) = 1%nat
              /\ countSeated (guest_id gu) (clearLayout L) = 0%nat).
  { intros gu Hin. unfold guestIdsTruthy in Hids.
    rewrite forallb_forall in Hids.
    destruct (clearLayout_counts (guest_id gu) L (Hids gu Hin)) as [-> ->].
    rewrite layoutInvariant_counts in Hinv. split; [apply Hinv, Hin | reflexivity]. }
  repeat split.
  - apply Forall_forall. intros gu Hin. apply (K gu Hin).
  - apply layoutInvariant_counts. intros gu Hin.
    destruct (K gu Hin) as [-> ->]. reflexivity.
Qed.

Lemma clearLayout_unassigns_everyone_witness :
  guestIdsTruthy (run seatedFour) = true
  /\ layoutInvariant (run seatedFour) = true
  /\ layoutInvariant (clearLayout (run seatedFour)) = true.
Proof.
  split; [reflexivity|]. split; [reflexivity|].
  apply (clearLayout_unassigns_everyone (run seatedFour)); reflexivity.
Defined.

Section Untouched.

Lemma seatedIn_createSeats (g : jsstring) (u : nat -> jsstring) (ty : TableType)
      (n : Z) (r c : option Z) : seatedIn g (createSeats u ty n r c) = 0%nat.
Proof. apply seatedIn_empty, createSeats_empty. Qed.

Lemma newTable_seats (u : nat -> jsstring) (ty : TableType) (nm : jsstring)
      (px py : Z) :
  seats (newTable u ty nm px py)
  = createSeats (fun i => u (S i)) ty (snd (getDefaultTableSize ty))
                (Some 5%Z) (Some 8%Z).
Proof. now destruct ty. Qed.

Lemma flat_map_seats_map (f : Table -> Table) (ts : list Table) :
  (forall t, seats (f t) = seats t) ->
  flat_map seats (map f ts) = flat_map seats ts.
Proof.
  intros H. induction ts as [|t ts IH]; simpl; [reflexivity|].
  now rewrite H, IH.
Qed.

End Untouched.

(** X4. Adding a table, moving a table and rotating a table touch no guest:
    the guest list and the unassigned list are kept, every identifier sits on
    as many seats as before (the seats of a new table are empty, the seats of
    a moved or rotated table are the same), so the layout is consistent after
    the call exactly when it was before. *)
Theorem table_placement_touches_no_guest :
  forall (u : nat -> jsstring) (ty : TableType) (nm tid : jsstring)
         (px py rot : Z) (L : SeatingLayout) (g : jsstring),
    let A := addTable u ty nm px py L in
    let P := updateTablePosition tid px py L in
    let R := updateTableRotation tid rot L in
    (guests A = guests L /\ unassignedGuests A = unassignedGuests L
     /\ countSeated g A = countSeated g L
     /\ layoutInvariant A = layoutInvariant L)
    /\ (guests P = guests L /\ unassignedGuests P = unassignedGuests L
        /\ flat_map seats (tables P) = flat_map seats (tables L)
        /\ map table_id (tables P) = map table_id (tables L)
        /\ layoutInvariant P = layoutInvariant L)
    /\ (guests R = guests L /\ unassignedGuests R = unassignedGuests L
        /\ flat_map seats (tables R) = flat_map seats (tables L)
        /\ map table_id (tables R) = map table_id (tables L)
        /\ layoutInvariant R = layoutInvariant L).
Proof.
  intros u ty nm tid px py rot L g A P R.
  assert (HA : forall g0, countSeated g0 A = countSeated g0 L).
  { intros g0. rewrite !countSeated_tables. unfold A, addTable; simpl.
    rewrite map_app, list_sum_app; simpl.
    rewrite newTable_seats, seatedIn_createSeats. lia. }
  assert (HP : flat_map seats (tables P) = flat_map seats (tables L)).
  { unfold P, updateTablePosition; simpl. apply flat_map_seats_map.
    intros t. now destruct (eqb (table_id t) tid). }
  assert (HR : flat_map seats (tables R) = flat_map seats (tables L)).
  { unfold R, updateTableRotation; simpl. apply flat_map_seats_map.
    intros t. now destruct (eqb (table_id t) tid). }
  split; [|split].
  - repeat split; [apply HA|].
    apply layoutInvariant_same_counts; [reflexivity | reflexivity | exact HA].
  - repeat split; [exact HP| |].
    + unfold P, updateTablePosition; simpl. rewrite map_map.
      apply map_ext. intros t. now destruct (eqb (table_id t) tid).
    + apply layoutInvariant_same_counts; [reflexivity | reflexivity |].
      intros g0. unfold countSeated. now rewrite HP.
  - repeat split; [exact HR| |].
    + unfold R, updateTableRotation; simpl. rewrite map_map.
      apply map_ext. intros t. now destruct (eqb (table_id t) tid).
    + apply layoutInvariant_same_counts; [reflexivity | reflexivity |].
      intros g0. unfold countSeated. now rewrite HR.
Qed.

(** X5. [addGuest] keeps a consistent layout consistent when the identifier
    drawn is fresh, that is on no seat and not in the unassigned list: the new
    guest is unassigned exactly once and nobody else is touched. *)
Theorem addGuest_keeps_invariant :
  forall (u : nat -> jsstring) (first last : jsstring) (middle : option jsstring)
         (L : SeatingLayout),
    layoutInvariant L = true ->
    countUnassigned (u 0%nat) L = 0%nat ->
    countSeated (u 0%nat) L = 0%nat ->
    layoutInvariant (addGuest u first last middle L) = true
    /\ countUnassigned (u 0%nat) (addGuest u first last middle L) = 1%nat
    /\ tables (addGuest u first last middle L) = tables L.
Proof.
  intros u first last middle L Hinv Hu Hs.
  assert (CU : forall g, countUnassigned g (addGuest u first last middle L)
                         = (countUnassigned g L + b2n (eqb g (u 0%nat)))%nat).
  { intros g. unfold countUnassigned, addGuest; simpl.
    fold (occ g (unassignedGuests L ++ [u 0%nat])).
    now rewrite occ_app, occ_single. }
  split; [|split; [|reflexivity]].
  - rewrite layoutInvariant_counts in *. intros gu Hin.
    rewrite CU.
    change (countSeated (guest_id gu) (addGuest u first last middle L))
      with (countSeated (guest_id gu) L).
    unfold addGuest in Hin; simpl in Hin. apply in_app_or in Hin as [Hin|Hin].
    + specialize (Hinv gu Hin).
      destruct (eqb (guest_id gu) (u 0%nat)) eqn:E; simpl; [|lia].
      apply eqb_eq in E. rewrite E in Hinv. lia.
    + destruct Hin as [<-|[]]. simpl. rewrite eqb_refl, Hu, Hs. reflexivity.
  - rewrite CU, Hu, eqb_refl. reflexivity.
Qed.

Lemma addGuest_keeps_invariant_witness :
  layoutInvariant (run seatedFour) = true
  /\ layoutInvariant
       (addGuest (one "g9") (lit "Eve") (lit "Ende") None (run seatedFour)) = true.
Proof.
  split; [reflexivity|].
  apply (addGuest_keeps_invariant (one "g9") (lit "Eve") (lit "Ende") None
           (run seatedFour)); reflexivity.
Defined.

(* ------------------------------------------------------------------ *)
(** ** Layouts with unique identifiers *)

Section Unique.

Lemma existsb_eqb_In (a : jsstring) (l : list jsstring) :
  existsb (eqb a) l = true <-> In a l.
Proof.
  rewrite existsb_exists. split.
  - intros (b & Hin & E). apply eqb_eq in E. now subst.
  - intros H. exists a. split; [exact H | apply eqb_refl].
Qed.

Lemma distinct_cons (a : jsstring) (l : list jsstring) :
  distinct (a :: l) = true <-> ~ In a l /\ distinct l = true.
Proof.
  simpl. rewrite andb_true_iff, negb_true_iff. split.
  - intros [H1 H2]. split; [|exact H2].
    intros Hin. apply existsb_eqb_In in Hin. congruence.
  - intros [H1 H2]. split; [|exact H2].
    destruct (existsb (eqb a) l) eqn:E; [|reflexivity].
    apply existsb_eqb_In in E. contradiction.
Qed.

Lemma distinct_NoDup (l : list jsstring) : distinct l = true <-> NoDup l.
Proof.
  induction l as [|a l IH].
  - split; [constructor | reflexivity].
  - rewrite distinct_cons, IH. split.
    + intros [H1 H2]. now constructor.
    + intros H. inversion H; subst. now split.
Qed.

Lemma findSeat_not_in (sid : jsstring) (ss : list Seat) :
  ~ In sid (map seat_id ss) -> findSeat sid ss = None.
Proof.
  induction ss as [|s ss IH]; simpl; intros H; [reflexivity|].
  destruct (eqb (seat_id s) sid) eqn:E.
  - apply eqb_eq in E. elim H. now left.
  - apply IH. intros Hin. apply H. now right.
Qed.

Lemma uniqueIds_tables (L : SeatingLayout) :
  uniqueIds L = true -> distinct (map table_id (tables L)) = true.
Proof. unfold uniqueIds. now intros [H _]%andb_true_iff. Qed.

Lemma uniqueIds_seats (L : SeatingLayout) (tid : jsstring) (t : Table) :
  uniqueIds L = true -> findTable tid (tables L) = Some t ->
  distinct (map seat_id (seats t)) = true.
Proof.
  unfold uniqueIds. intros [_ H]%andb_true_iff Hf.
  rewrite forallb_forall in H. apply H.
  apply (find_some _ _ Hf).
Qed.

(** Writing the reference [v] on the one seat called [sid]. *)
Lemma seatedIn_set (g sid : jsstring) (v : option jsstring) (ss : list Seat)
      (s : Seat) :
  distinct (map seat_id ss) = true ->
  findSeat sid ss = Some s ->
  (seatedIn g (map (fun x => if eqb (seat_id x) sid then withGuest x v else x) ss)
   + b2n (holds s g)
   = seatedIn g ss + b2n (refIs v g))%nat.
Proof.
  induction ss as [|s0 ss IH]; simpl; intros Hd Hf; [discriminate|].
  apply (distinct_cons (seat_id s0) (map seat_id ss)) in Hd as [Hnotin Hd].
  rewrite !seatedIn_cons.
  destruct (eqb (seat_id s0) sid) eqn:E.
  - injection Hf as <-. apply eqb_eq in E.
    rewrite (map_id_on _ ss).
    + unfold holds at 1. simpl. fold (refIs v g). lia.
    + intros x Hx. destruct (eqb (seat_id x) sid) eqn:Ex; [|reflexivity].
      apply eqb_eq in Ex. elim Hnotin. rewrite E, <- Ex. now apply in_map.
  - specialize (IH Hd Hf). lia.
Qed.

(** Replacing the one table called [tid]. *)
Lemma tables_replace (g tid : jsstring) (f : Table -> Table) (ts : list Table)
      (t : Table) :
  distinct (map table_id ts) = true ->
  findTable tid ts = Some t ->
  (list_sum (map (fun x => seatedIn g (seats x))
                 (map (fun x => if eqb (table_id x) tid then f x else x) ts))
   + seatedIn g (seats t)
   = list_sum (map (fun x => seatedIn g (seats x)) ts)
     + seatedIn g (seats (f t)))%nat.
Proof.
  induction ts as [|t0 ts IH]; simpl; intros Hd Hf; [discriminate|].
  apply (distinct_cons (table_id t0) (map table_id ts)) in Hd as [Hnotin Hd].
  destruct (eqb (table_id t0) tid) eqn:E.
  - injection Hf as <-. apply eqb_eq in E.
    rewrite (map_id_on _ ts); [lia|].
    intros x Hx. destruct (eqb (table_id x) tid) eqn:Ex; [|reflexivity].
    apply eqb_eq in Ex. elim Hnotin. rewrite E, <- Ex. now apply in_map.
  - specialize (IH Hd Hf). lia.
Qed.

(** Taking out the one table called [tid]. *)
Lemma tables_remove (g tid : jsstring) (ts : list Table) (t : Table) :
  distinct (map table_id ts) = true ->
  findTable tid ts = Some t ->
  (list_sum (map (fun x => seatedIn g (seats x))
                 (filter (fun x => negb (eqb (table_id x) tid)) ts))
   + seatedIn g (seats t)
   = list_sum (map (fun x => seatedIn g (seats x)) ts))%nat.
Proof.
  induction ts as [|t0 ts IH]; simpl; intros Hd Hf; [discriminate|].
  apply (distinct_cons (table_id t0) (map table_id ts)) in Hd as [Hnotin Hd].
  destruct (eqb (table_id t0) tid) eqn:E; simpl.
  - injection Hf as <-. apply eqb_eq in E.
    rewrite (find_none_filter (fun x => eqb (table_id x) tid) ts); [lia|].
    apply findTable_not_in. now rewrite <- E.
  - specialize (IH Hd Hf). lia.
Qed.

End Unique.

(** X6. With unique table identifiers and no empty guest identifier,
    [removeTable] loses no guest: the table is gone, and a consistent layout
    stays consistent, the guests who sat at the table being unassigned. *)
Theorem removeTable_keeps_invariant :
  forall (tid : jsstring) (L : SeatingLayout),
    uniqueIds L = true ->
    guestIdsTruthy L = true ->
    layoutInvariant L = true ->
    findTable tid (tables (removeTable tid L)) = None
    /\ guests (removeTable tid L) = guests L
    /\ (forall gu, In gu (guests L) ->
          countSeated (guest_id gu) (removeTable tid L)
          = match findTable tid (tables L) with
            | Some t => (countSeated (guest_id gu) L
                         - seatedIn (guest_id gu) (seats t))%nat
            | None => countSeated (guest_id gu) L
            end)
    /\ layoutInvariant (removeTable tid L) = true.
Proof.
  intros tid L Hu Hids Hinv.
  assert (Hnone : findTable tid (tables (removeTable tid L)) = None).
  { unfold removeTable, findTable; simpl.
    induction (tables L) as [|t ts IH]; simpl; [reflexivity|].
    destruct (eqb (table_id t) tid) eqn:E; simpl; [exact IH|].
    now rewrite E. }
  destruct (findTable tid (tables L)) as [t|] eqn:Hf.
  - assert (K : forall g, truthy g = true ->
                (countSeated g (removeTable tid L) + seatedIn g (seats t)
                 = countSeated g L)%nat
                /\ countUnassigned g (removeTable tid L)
                   = (countUnassigned g L + seatedIn g (seats t))%nat).
    { intros g Hg. rewrite !countSeated_tables. split.
      - unfold removeTable; simpl.
        apply tables_remove; [apply uniqueIds_tables, Hu | exact Hf].
      - unfold countUnassigned, removeTable; simpl. rewrite Hf.
        fold (occ g (unassignedGuests L ++ assignedIds (seats t))).
        now rewrite occ_app, occ_assignedIds. }
    unfold guestIdsTruthy in Hids. rewrite forallb_forall in Hids.
    split; [exact Hnone|]. split; [reflexivity|]. split.
    + intros gu Hin. destruct (K _ (Hids gu Hin)) as [K1 _]. lia.
    + rewrite layoutInvariant_counts in *. intros gu Hin.
      change (In gu (guests L)) in Hin.
      destruct (K _ (Hids gu Hin)) as [K1 K2]. specialize (Hinv gu Hin). lia.
  - rewrite (removeTable_missing tid L Hf) in *.
    repeat split; auto.
Qed.

Lemma removeTable_keeps_invariant_witness :
  uniqueIds (run seatedFour) = true
  /\ layoutInvariant (removeTable t1 (run seatedFour)) = true.
Proof.
  split; [reflexivity|].
  apply (removeTable_keeps_invariant t1 (run seatedFour)); reflexivity.
Defined.

Section SeatWrites.

Lemma emptySeat_id (sid : jsstring) (t : Table) : table_id (emptySeat sid t) = table_id t.
Proof. reflexivity. Qed.

Lemma seatGuest_id (g sid : jsstring) (t : Table) :
  table_id (seatGuest g sid t) = table_id t.
Proof. reflexivity. Qed.

Lemma holds_ref (s : Seat) (g : jsstring) : holds s g = refIs (guestId s) g.
Proof. reflexivity. Qed.

(** The counts after [unassignGuestFromSeat] has found guest [g] on the seat. *)
Lemma unassign_counts (tid sid g g' : jsstring) (L : SeatingLayout) (t : Table)
      (s : Seat) :
  uniqueIds L = true ->
  findTable tid (tables L) = Some t ->
  findSeat sid (seats t) = Some s ->
  guestId s = Some g -> truthy g = true ->
  (countSeated g' (unassignGuestFromSeat tid sid L) + b2n (eqb g g')
   = countSeated g' L)%nat
  /\ countUnassigned g' (unassignGuestFromSeat tid sid L)
     = (countUnassigned g' L + b2n (eqb g' g))%nat.
Proof.
  intros Hu Hf Hs Hg Ht.
  unfold unassignGuestFromSeat. rewrite Hf, Hs, Hg, Ht.
  rewrite !countSeated_tables. cbn [tables unassignedGuests]. split.
  - pose proof (tables_replace g' tid (emptySeat sid) (tables L) t
                  (uniqueIds_tables L Hu) Hf) as R.
    pose proof (seatedIn_set g' sid None (seats t) s
                  (uniqueIds_seats L tid t Hu Hf) Hs) as W.
    change (seats (emptySeat sid t))
      with (map (fun x => if eqb (seat_id x) sid then withGuest x None else x)
                (seats t)) in R.
    rewrite holds_ref, Hg in W. simpl in W. lia.
  - unfold countUnassigned. cbn [unassignedGuests].
    fold (occ g' (unassignedGuests L ++ [g])).
    now rewrite occ_app, occ_single.
Qed.

(** The counts after [assignGuestToSeat] on an existing seat. *)
Lemma assign_counts (g tid sid g' : jsstring) (L : SeatingLayout) (t : Table)
      (s : Seat) :
  uniqueIds L = true ->
  findTable tid (tables L) = Some t ->
  findSeat sid (seats t) = Some s ->
  (countSeated g' (assignGuestToSeat g tid sid L)
   + (if eqb g' g then 0 else b2n (holds s g'))
   = if eqb g' g then 1 else countSeated g' L)%nat
  /\ countUnassigned g' (assignGuestToSeat g tid sid L)
     = (if eqb g' g then 0 else countUnassigned g' L)%nat.
Proof.
  intros Hu Hf Hs. split.
  - rewrite !countSeated_tables. unfold assignGuestToSeat. cbn [tables].
    assert (D1 : distinct (map table_id (map (clearGuest g) (tables L))) = true).
    { rewrite map_map. apply uniqueIds_tables, Hu. }
    assert (F1 : findTable tid (map (clearGuest g) (tables L))
                 = Some (clearGuest g t)).
    { rewrite (findTable_map _ _ _ (clearGuest_id g)), Hf. reflexivity. }
    pose proof (tables_replace g' tid (seatGuest g sid) _ _ D1 F1) as R.
    assert (D2 : distinct (map seat_id (map (unseat g) (seats t))) = true).
    { rewrite map_map.
      rewrite (map_ext _ seat_id (seat_id_unseat g)).
      apply (uniqueIds_seats L tid t Hu Hf). }
    assert (F2 : findSeat sid (map (unseat g) (seats t)) = Some (unseat g s)).
    { rewrite (findSeat_map _ _ _ (seat_id_unseat g)), Hs. reflexivity. }
    pose proof (seatedIn_set g' sid (Some g) _ _ D2 F2) as W.
    change (seats (seatGuest g sid (clearGuest g t)))
      with (map (fun x => if eqb (seat_id x) sid then withGuest x (Some g) else x)
                (map (unseat g) (seats t))) in R.
    change (seats (clearGuest g t)) with (map (unseat g) (seats t)) in R.
    rewrite holds_unseat in W. simpl in W.
    rewrite countSeated_clearGuest_tables in R.
    rewrite (eqb_sym g g') in W.
    destruct (eqb g' g); simpl in *; lia.
  - unfold countUnassigned, assignGuestToSeat. cbn [unassignedGuests].
    apply (occ_filter_other g g').
Qed.

End SeatWrites.

(** X7. With unique identifiers, [unassignGuestFromSeat] keeps a consistent
    layout consistent. When the seat holds a guest, the seat ends empty and
    the guest is appended to [unassignedGuests]; when the table or the seat
    is missing or the seat is empty, the layout is returned as it is. *)
Theorem unassignGuestFromSeat_keeps_invariant :
  forall (tid sid : jsstring) (L : SeatingLayout),
    uniqueIds L = true ->
    layoutInvariant L = true ->
    layoutInvariant (unassignGuestFromSeat tid sid L) = true
    /\ match seatRef tid sid L with
       | Some (Some g) =>
           if truthy g
           then seatRef tid sid (unassignGuestFromSeat tid sid L) = Some None
                /\ unassignedGuests (unassignGuestFromSeat tid sid L)
                   = unassignedGuests L ++ [g]
           else unassignGuestFromSeat tid sid L = L
       | _ => unassignGuestFromSeat tid sid L = L
       end.
Proof.
  intros tid sid L Hu Hinv. unfold seatRef.
  destruct (findTable tid (tables L)) as [t|] eqn:Hf.
  2:{ rewrite (unassignGuestFromSeat_missing_table tid sid L Hf). now split. }
  destruct (findSeat sid (seats t)) as [s|] eqn:Hs.
  2:{ rewrite (unassignGuestFromSeat_missing_seat tid sid L t Hf Hs). now split. }
  simpl. destruct (guestId s) as [g|] eqn:Hg.
  2:{ assert (E : unassignGuestFromSeat tid sid L = L)
        by (unfold unassignGuestFromSeat; now rewrite Hf, Hs, Hg).
      rewrite E. now split. }
  destruct (truthy g) eqn:Ht.
  2:{ assert (E : unassignGuestFromSeat tid sid L = L)
        by (unfold unassignGuestFromSeat; now rewrite Hf, Hs, Hg, Ht).
      rewrite E. now split. }
  split.
  - rewrite layoutInvariant_counts in *. intros gu Hin.
    assert (Hin' : In gu (guests L)).
    { revert Hin. unfold unassignGuestFromSeat. now rewrite Hf, Hs, Hg, Ht. }
    destruct (unassign_counts tid sid g (guest_id gu) L t s Hu Hf Hs Hg Ht)
      as [K1 K2].
    specialize (Hinv gu Hin'). rewrite (eqb_sym g (guest_id gu)) in K1. lia.
  - unfold unassignGuestFromSeat. rewrite Hf, Hs, Hg, Ht.
    cbn [tables unassignedGuests]. split; [|reflexivity].
    rewrite (findTable_map
               (fun t0 => if eqb (table_id t0) tid then emptySeat sid t0 else t0)).
    2:{ intros t0. now destruct (eqb (table_id t0) tid). }
    rewrite Hf. cbn [option_map].
    assert (Et : eqb (table_id t) tid = true) by (apply (find_some _ _ Hf)).
    rewrite Et. cbn [seats emptySeat withSeats].
    rewrite findSeat_map by (intros s0; now destruct (eqb (seat_id s0) sid)).
    rewrite Hs. cbn [option_map].
    assert (Es : eqb (seat_id s) sid = true) by (apply (find_some _ _ Hs)).
    now rewrite Es.
Qed.

Lemma unassignGuestFromSeat_keeps_invariant_witness :
  uniqueIds (run seatedFour) = true
  /\ layoutInvariant (unassignGuestFromSeat t1 (seatN 2) (run seatedFour)) = true.
Proof.
  assert (H1 : uniqueIds (run seatedFour) = true) by (vm_compute; reflexivity).
  assert (H2 : layoutInvariant (run seatedFour) = true)
    by (vm_compute; reflexivity).
  split; [exact H1|].
  exact (proj1 (unassignGuestFromSeat_keeps_invariant
                  t1 (seatN 2) (run seatedFour) H1 H2)).
Defined.

(** After [assignGuestToSeat] on an existing seat the seat holds the guest. *)
Lemma assign_seatRef (g tid sid : jsstring) (L : SeatingLayout) (t : Table)
      (s : Seat) :
  findTable tid (tables L) = Some t ->
  findSeat sid (seats t) = Some s ->
  seatRef tid sid (assignGuestToSeat g tid sid L) = Some (Some g).
Proof.
  intros Hf Hs.
  unfold seatRef, assignGuestToSeat. cbn [tables].
  rewrite (findTable_map
             (fun t0 => if eqb (table_id t0) tid then seatGuest g sid t0 else t0)).
  2:{ intros t0. now destruct (eqb (table_id t0) tid). }
  rewrite (findTable_map _ _ _ (clearGuest_id g)), Hf. cbn [option_map].
  change (table_id (clearGuest g t)) with (table_id t).
  assert (Et : eqb (table_id t) tid = true) by (apply (find_some _ _ Hf)).
  rewrite Et. cbn [seats seatGuest clearGuest withSeats].
  rewrite findSeat_map by (intros s0; now destruct (eqb (seat_id s0) sid)).
  rewrite (findSeat_map _ _ _ (seat_id_unseat g)), Hs. cbn [option_map].
  rewrite seat_id_unseat.
  assert (Es : eqb (seat_id s) sid = true) by (apply (find_some _ _ Hs)).
  now rewrite Es.
Qed.

(** X8. With unique identifiers, [assignGuestToSeat] on an existing empty seat
    keeps a consistent layout consistent: afterwards the seat holds the
    guest, the guest is on exactly one seat (any seat held before is
    vacated) and is not in [unassignedGuests]. *)
Theorem assignGuestToSeat_empty_seat :
  forall (g tid sid : jsstring) (L : SeatingLayout),
    uniqueIds L = true ->
    layoutInvariant L = true ->
    seatRef tid sid L = Some None ->
    seatRef tid sid (assignGuestToSeat g tid sid L) = Some (Some g)
    /\ countSeated g (assignGuestToSeat g tid sid L) = 1%nat
    /\ countUnassigned g (assignGuestToSeat g tid sid L) = 0%nat
    /\ layoutInvariant (assignGuestToSeat g tid sid L) = true.
Proof.
  intros g tid sid L Hu Hinv Href. unfold seatRef in Href.
  destruct (findTable tid (tables L)) as [t|] eqn:Hf; [|discriminate].
  destruct (findSeat sid (seats t)) as [s|] eqn:Hs; [|discriminate].
  simpl in Href. injection Href as Hg.
  assert (C : forall g',
            countSeated g' (assignGuestToSeat g tid sid L)
            = (if eqb g' g then 1 else countSeated g' L)%nat
            /\ countUnassigned g' (assignGuestToSeat g tid sid L)
               = (if eqb g' g then 0 else countUnassigned g' L)%nat).
  { intros g'. destruct (assign_counts g tid sid g' L t s Hu Hf Hs) as [K1 K2].
    split; [|exact K2]. rewrite holds_ref, Hg in K1. simpl in K1.
    destruct (eqb g' g); lia. }
  split; [|split; [|split]].
  - exact (assign_seatRef g tid sid L t s Hf Hs).
  - destruct (C g) as [-> _]. now rewrite eqb_refl.
  - destruct (C g) as [_ ->]. now rewrite eqb_refl.
  - rewrite layoutInvariant_counts in *. intros gu Hin.
    change (In gu (guests L)) in Hin.
    destruct (C (guest_id gu)) as [-> ->].
    destruct (eqb (guest_id gu) g); [reflexivity | apply Hinv, Hin].
Qed.

Lemma assignGuestToSeat_empty_seat_witness :
  uniqueIds (run seatedFour) = true
  /\ seatRef t1 (seatN 5) (run seatedFour) = Some None
  /\ layoutInvariant (assignGuestToSeat g0 t1 (seatN 5) (run seatedFour)) = true.
Proof.
  assert (H1 : uniqueIds (run seatedFour) = true) by (vm_compute; reflexivity).
  assert (H2 : layoutInvariant (run seatedFour) = true)
    by (vm_compute; reflexivity).
  assert (H3 : seatRef t1 (seatN 5) (run seatedFour) = Some None)
    by (vm_compute; reflexivity).
  split; [exact H1|]. split; [exact H3|].
  exact (proj2 (proj2 (proj2 (assignGuestToSeat_empty_seat
                                g0 t1 (seatN 5) (run seatedFour) H1 H2 H3)))).
Defined.

Section Resize.

Lemma seatedIn_refs (g : jsstring) (ss : list Seat) :
  seatedIn g ss = seatedRefs g (map guestId ss).
Proof.
  unfold seatedIn, seatedRefs.
  induction ss as [|s ss IH]; simpl; [reflexivity|].
  rewrite holds_ref. destruct (refIs (guestId s) g); simpl; now rewrite IH.
Qed.

Lemma seatedRefs_app (g : jsstring) (l r : list (option jsstring)) :
  seatedRefs g (l ++ r) = (seatedRefs g l + seatedRefs g r)%nat.
Proof. unfold seatedRefs. now rewrite filter_app, length_app. Qed.

Lemma seatedRefs_none (g : jsstring) (k : nat) : seatedRefs g (repeat None k) = 0%nat.
Proof. induction k as [|k IH]; [reflexivity | exact IH]. Qed.

Lemma seatedIn_vacant (g : jsstring) (ss : list Seat) :
  forallb vacant ss = true -> seatedIn g ss = 0%nat.
Proof.
  induction ss as [|s ss IH]; simpl; [reflexivity|].
  intros [H1 H2]%andb_true_iff. rewrite seatedIn_cons, (IH H2).
  unfold vacant in H1. unfold holds. now destruct (guestId s).
Qed.

(** The regenerated seats hold whom the old seats held, the cut ones apart. *)
Lemma seatedIn_updatedTable (g : jsstring) (u : nat -> jsstring)
      (cfg : TableConfigUpdate) (t : Table) :
  (seatedIn g (seats (updatedTable u cfg t)) + seatedIn g (cutSeats u cfg t)
   = seatedIn g (seats t))%nat.
Proof.
  unfold cutSeats.
  pose proof (indexed_regenerated u cfg t) as R.
  destruct (seatingChanged cfg) eqn:E.
  - rewrite (seatedIn_refs g (seats (updatedTable u cfg t))).
    rewrite (updatedTable_guests u cfg t E).
    rewrite seatedRefs_app, seatedRefs_none, Nat.add_0_r.
    rewrite firstn_map, <- seatedIn_refs, <- seatedIn_app.
    now rewrite firstn_skipn.
  - rewrite R, skipn_all. change (seatedIn g []) with 0%nat. lia.
Qed.

End Resize.

(** X9. With unique table identifiers, [updateTableConfig] changes nobody's
    place as long as the seats it removes are empty (in particular when the
    table grows, or when the configuration does not touch the seating): the
    guest list and the unassigned list are kept, every identifier sits on as
    many seats as before, and the layout is consistent after the call exactly
    when it was before. *)
Theorem updateTableConfig_keeps_guests :
  forall (u : nat -> jsstring) (tid : jsstring) (cfg : TableConfigUpdate)
         (L : SeatingLayout),
    uniqueIds L = true ->
    match findTable tid (tables L) with
    | Some t => forallb vacant (cutSeats u cfg t)
    | None => true
    end = true ->
    guests (updateTableConfig u tid cfg L) = guests L
    /\ unassignedGuests (updateTableConfig u tid cfg L) = unassignedGuests L
    /\ (forall g, countSeated g (updateTableConfig u tid cfg L) = countSeated g L)
    /\ layoutInvariant (updateTableConfig u tid cfg L) = layoutInvariant L.
Proof.
  intros u tid cfg L Hu Hcut.
  destruct (updateTableConfig_unassigned u tid cfg L) as [EU EG].
  assert (C : forall g, countSeated g (updateTableConfig u tid cfg L)
                        = countSeated g L).
  { intros g. destruct (findTable tid (tables L)) as [t|] eqn:Hf.
    - rewrite !countSeated_tables. unfold updateTableConfig. rewrite Hf.
      cbn [tables].
      pose proof (tables_replace g tid (fun _ => updatedTable u cfg t)
                    (tables L) t (uniqueIds_tables L Hu) Hf) as R.
      pose proof (seatedIn_updatedTable g u cfg t) as S.
      rewrite (seatedIn_vacant g _ Hcut) in S. cbv beta in R. lia.
    - now rewrite (updateTableConfig_missing u tid cfg L Hf). }
  repeat split; auto.
  apply layoutInvariant_same_counts; auto.
  intros g. unfold countUnassigned. now rewrite EU.
Qed.

Lemma updateTableConfig_keeps_guests_witness :
  uniqueIds (run seatedFour) = true
  /\ layoutInvariant (run resizedToSix) = true.
Proof.
  assert (H1 : uniqueIds (run seatedFour) = true) by (vm_compute; reflexivity).
  assert (H2 : match findTable t1 (tables (run seatedFour)) with
               | Some t => forallb vacant (cutSeats (idOf "r") (seatsConfig 6) t)
               | None => true
               end = true) by (vm_compute; reflexivity).
  split; [exact H1|].
  pose proof (updateTableConfig_keeps_guests (idOf "r") t1 (seatsConfig 6)
                (run seatedFour) H1 H2) as (_ & _ & _ & E).
  etransitivity; [exact E | vm_compute; reflexivity].
Defined.

Section MoveInvariant.

Lemma movedTable_steps (g fT fS tT tS : jsstring) (t : Table) :
  fT <> tT ->
  movedTable g fT fS tT tS t = seatIn g tT tS (vacateIn fT fS t).
Proof.
  intros Hne. unfold movedTable, seatIn, vacateIn.
  destruct (eqb (table_id t) fT) eqn:E1.
  - rewrite emptySeat_id. apply eqb_eq in E1.
    destruct (eqb (table_id t) tT) eqn:E2; [|reflexivity].
    apply eqb_eq in E2. congruence.
  - reflexivity.
Qed.

Lemma vacateIn_id (fT fS : jsstring) (t : Table) :
  table_id (vacateIn fT fS t) = table_id t.
Proof. unfold vacateIn. now destruct (eqb (table_id t) fT). Qed.

Lemma occupied_target (sid : jsstring) (t : Table) (s : Seat) :
  findSeat sid (seats t) = Some s ->
  targetGuest sid t = if occupied s then guestId s else None.
Proof. intros H. unfold targetGuest. now rewrite H. Qed.

(** The counts after a move between two different tables. *)
Lemma move_counts (a fT fS tT tS g' : jsstring) (L : SeatingLayout)
      (ft tt0 : Table) (fs ts : Seat) :
  uniqueIds L = true -> fT <> tT ->
  findTable fT (tables L) = Some ft -> findSeat fS (seats ft) = Some fs ->
  findTable tT (tables L) = Some tt0 -> findSeat tS (seats tt0) = Some ts ->
  (countSeated g' (moveGuestBetweenSeats a fT fS tT tS L)
   + b2n (holds fs g') + b2n (holds ts g')
   = countSeated g' L + b2n (eqb a g'))%nat
  /\ countUnassigned g' (moveGuestBetweenSeats a fT fS tT tS L)
     = (countUnassigned g' L
        + match guestId ts with
          | Some d => b2n (truthy d && negb (eqb d a) && eqb g' d)
          | None => 0
          end)%nat.
Proof.
  intros Hu Hne Hft Hfs Htt Hts.
  pose proof (uniqueIds_tables L Hu) as D.
  pose proof (moveTables_fst a fT fS tT tS (tables L) None) as F.
  pose proof (moveTables_snd a fT fS tT tS (tables L) None
                (proj1 (distinct_NoDup _) D) Hne) as S.
  rewrite Htt, (occupied_target tS tt0 ts Hts) in S.
  unfold moveGuestBetweenSeats.
  destruct (moveTables a fT fS tT tS (tables L) None) as [ts' d].
  simpl in F, S. subst ts' d. split.
  - rewrite !countSeated_tables. cbn [tables].
    rewrite (map_ext _ _ (fun t => movedTable_steps a fT fS tT tS t Hne)).
    rewrite <- (map_map (vacateIn fT fS) (seatIn a tT tS)).
    (* first step: the source seat is emptied *)
    pose proof (tables_replace g' fT (emptySeat fS) (tables L) ft D Hft) as R1.
    pose proof (seatedIn_set g' fS None (seats ft) fs
                  (uniqueIds_seats L fT ft Hu Hft) Hfs) as W1.
    change (seats (emptySeat fS ft))
      with (map (fun x => if eqb (seat_id x) fS then withGuest x None else x)
                (seats ft)) in R1.
    (* second step: the destination seat takes the guest *)
    assert (D2 : distinct (map table_id (map (vacateIn fT fS) (tables L))) = true).
    { rewrite map_map, (map_ext _ table_id (vacateIn_id fT fS)). exact D. }
    assert (F2 : findTable tT (map (vacateIn fT fS) (tables L)) = Some tt0).
    { rewrite (findTable_map _ _ _ (vacateIn_id fT fS)), Htt. simpl.
      unfold vacateIn.
      assert (E : eqb (table_id tt0) fT = false).
      { apply eqb_neq. pose proof (find_some _ _ Htt) as [_ E].
        apply eqb_eq in E. congruence. }
      now rewrite E. }
    pose proof (tables_replace g' tT (seatGuest a tS) _ tt0 D2 F2) as R2.
    pose proof (seatedIn_set g' tS (Some a) (seats tt0) ts
                  (uniqueIds_seats L tT tt0 Hu Htt) Hts) as W2.
    change (seats (seatGuest a tS tt0))
      with (map (fun x => if eqb (seat_id x) tS then withGuest x (Some a) else x)
                (seats tt0)) in R2.
    simpl in W1, W2. unfold seatIn, vacateIn in *. lia.
  - unfold countUnassigned. unfold occupied.
    destruct (guestId ts) as [d0|]; [|cbn [unassignedGuests]; lia].
    destruct (truthy d0) eqn:Td; [|cbn [unassignedGuests]; simpl; lia].
    rewrite Td. cbn [andb].
    destruct (eqb d0 a) eqn:Ed; cbn [negb unassignedGuests andb b2n].
    + lia.
    + fold (occ g' (unassignedGuests L ++ [d0])).
      rewrite occ_app, occ_single. reflexivity.
Qed.

End MoveInvariant.

(** After a move between two different tables the destination seat holds the
    guest and the source seat is empty. *)
Lemma move_seatRefs (a fT fS tT tS : jsstring) (L : SeatingLayout)
      (ft tt0 : Table) (fs ts : Seat) :
  fT <> tT ->
  findTable fT (tables L) = Some ft -> findSeat fS (seats ft) = Some fs ->
  findTable tT (tables L) = Some tt0 -> findSeat tS (seats tt0) = Some ts ->
  seatRef tT tS (moveGuestBetweenSeats a fT fS tT tS L) = Some (Some a)
  /\ seatRef fT fS (moveGuestBetweenSeats a fT fS tT tS L) = Some None.
Proof.
  intros Hne Eft Efs Ett Ets.
  assert (Hft : eqb (table_id ft) fT = true) by (apply (find_some _ _ Eft)).
  assert (Htt : eqb (table_id tt0) tT = true) by (apply (find_some _ _ Ett)).
  assert (Hfs : eqb (seat_id fs) fS = true) by (apply (find_some _ _ Efs)).
  assert (Hts : eqb (seat_id ts) tS = true) by (apply (find_some _ _ Ets)).
  assert (Htf : eqb (table_id tt0) fT = false).
  { apply eqb_neq. apply eqb_eq in Htt. congruence. }
  assert (T : tables (moveGuestBetweenSeats a fT fS tT tS L)
              = map (movedTable a fT fS tT tS) (tables L)).
  { pose proof (moveTables_fst a fT fS tT tS (tables L) None) as F.
    unfold moveGuestBetweenSeats.
    now destruct (moveTables a fT fS tT tS (tables L) None). }
  split.
  - unfold seatRef. rewrite T.
    rewrite (findTable_map _ _ _ (movedTable_id a fT fS tT tS)), Ett.
    cbn [option_map]. unfold movedTable. rewrite Htf, Htt.
    cbn [seats seatGuest withSeats].
    rewrite findSeat_map by (intros s0; now destruct (eqb (seat_id s0) tS)).
    rewrite Ets. simpl. now rewrite Hts.
  - unfold seatRef. rewrite T.
    rewrite (findTable_map _ _ _ (movedTable_id a fT fS tT tS)), Eft.
    cbn [option_map]. unfold movedTable. rewrite Hft.
    cbn [seats emptySeat withSeats].
    rewrite findSeat_map by (intros s0; now destruct (eqb (seat_id s0) fS)).
    rewrite Efs. simpl. now rewrite Hfs.
Qed.

(** X10. With unique identifiers and no empty guest identifier, moving guest
    [a] from the seat they hold to a seat of a different table keeps a
    consistent layout consistent, whether the destination seat is empty or
    held by somebody else: afterwards the destination seat holds [a], the
    source seat is empty, and a displaced guest is unassigned. *)
Theorem moveGuestBetweenSeats_between_tables :
  forall (a fT fS tT tS : jsstring) (v : option jsstring) (L : SeatingLayout),
    uniqueIds L = true ->
    guestIdsTruthy L = true ->
    layoutInvariant L = true ->
    fT <> tT ->
    seatRef fT fS L = Some (Some a) ->
    seatRef tT tS L = Some v ->
    refIs v a = false ->
    seatRef tT tS (moveGuestBetweenSeats a fT fS tT tS L) = Some (Some a)
    /\ seatRef fT fS (moveGuestBetweenSeats a fT fS tT tS L) = Some None
    /\ guests (moveGuestBetweenSeats a fT fS tT tS L) = guests L
    /\ layoutInvariant (moveGuestBetweenSeats a fT fS tT tS L) = true.
Proof.
  intros a fT fS tT tS v L Hu Hids Hinv Hne Hfrom Hto Hva.
  unfold seatRef in Hfrom, Hto.
  destruct (findTable fT (tables L)) as [ft|] eqn:Eft; [|discriminate].
  destruct (findTable tT (tables L)) as [tt0|] eqn:Ett; [|discriminate].
  destruct (findSeat fS (seats ft)) as [fs|] eqn:Efs; [|discriminate].
  destruct (findSeat tS (seats tt0)) as [ts|] eqn:Ets; [|discriminate].
  simpl in Hfrom, Hto. injection Hfrom as Hfrom. injection Hto as Hto.
  assert (Hft : eqb (table_id ft) fT = true) by (apply (find_some _ _ Eft)).
  assert (Htt : eqb (table_id tt0) tT = true) by (apply (find_some _ _ Ett)).
  assert (Hfs : eqb (seat_id fs) fS = true) by (apply (find_some _ _ Efs)).
  assert (Hts : eqb (seat_id ts) tS = true) by (apply (find_some _ _ Ets)).
  assert (Htf : eqb (table_id tt0) fT = false).
  { apply eqb_neq. apply eqb_eq in Htt. congruence. }
  assert (G : guests (moveGuestBetweenSeats a fT fS tT tS L) = guests L).
  { unfold moveGuestBetweenSeats.
    now destruct (moveTables a fT fS tT tS (tables L) None). }
  assert (T : tables (moveGuestBetweenSeats a fT fS tT tS L)
              = map (movedTable a fT fS tT tS) (tables L)).
  { pose proof (moveTables_fst a fT fS tT tS (tables L) None) as F.
    unfold moveGuestBetweenSeats.
    now destruct (moveTables a fT fS tT tS (tables L) None). }
  split; [|split; [|split; [exact G|]]].
  - exact (proj1 (move_seatRefs a fT fS tT tS L ft tt0 fs ts Hne Eft Efs Ett Ets)).
  - exact (proj2 (move_seatRefs a fT fS tT tS L ft tt0 fs ts Hne Eft Efs Ett Ets)).
  - rewrite layoutInvariant_counts in *. intros gu Hin. rewrite G in Hin.
    destruct (move_counts a fT fS tT tS (guest_id gu) L ft tt0 fs ts
                Hu Hne Eft Efs Ett Ets) as [K1 K2].
    specialize (Hinv gu Hin). rewrite K2. clear K2.
    unfold guestIdsTruthy in Hids. rewrite forallb_forall in Hids.
    specialize (Hids gu Hin).
    rewrite !holds_ref, Hfrom, Hto in K1. rewrite Hto. simpl in K1.
    destruct v as [d|]; simpl in *.
    + rewrite Hva. cbn [negb]. rewrite andb_true_r.
      rewrite (eqb_sym (guest_id gu) d).
      destruct (eqb d (guest_id gu)) eqn:E.
      * apply eqb_eq in E. subst d. rewrite Hids. simpl in *. lia.
      * rewrite andb_false_r. simpl in *. lia.
    + lia.
Qed.

Lemma moveGuestBetweenSeats_between_tables_witness :
  uniqueIds (run twoTables) = true
  /\ layoutInvariant
       (moveGuestBetweenSeats g0 t1 (seatN 0) t2 (idOf "p" 1) (run twoTables))
     = true.
Proof.
  assert (H1 : uniqueIds (run twoTables) = true) by (vm_compute; reflexivity).
  assert (H2 : guestIdsTruthy (run twoTables) = true) by (vm_compute; reflexivity).
  assert (H3 : layoutInvariant (run twoTables) = true) by (vm_compute; reflexivity).
  assert (H4 : t1 <> t2) by discriminate.
  assert (H5 : seatRef t1 (seatN 0) (run twoTables) = Some (Some g0))
    by (vm_compute; reflexivity).
  assert (H6 : seatRef t2 (idOf "p" 1) (run twoTables) = Some (Some g1))
    by (vm_compute; reflexivity).
  assert (H7 : refIs (Some g1) g0 = false) by (vm_compute; reflexivity).
  split; [exact H1|].
  exact (proj2 (proj2 (proj2 (moveGuestBetweenSeats_between_tables
           g0 t1 (seatN 0) t2 (idOf "p" 1) (Some g1) (run twoTables)
           H1 H2 H3 H4 H5 H6 H7)))).
Defined.

(* ------------------------------------------------------------------ *)
(** ** Identifiers stay unique *)

Section UniqueKept.

Lemma forallb_map_eq {A B} (p : B -> bool) (f : A -> B) (l : list A) :
  forallb p (map f l) = forallb (fun a => p (f a)) l.
Proof. induction l as [|a l IH]; simpl; [reflexivity | now rewrite IH]. Qed.

Lemma forallb_ext_in {A} (p q : A -> bool) (l : list A) :
  (forall a, In a l -> p a = q a) -> forallb p l = forallb q l.
Proof.
  induction l as [|a l IH]; simpl; intros H; [reflexivity|].
  rewrite (H a (or_introl eq_refl)), IH; auto.
Qed.

(** A rewriting of the tables that keeps the identifiers of every table and
    of its seats keeps uniqueness. *)
Lemma uniqueIds_map (f : Table -> Table) (L L' : SeatingLayout) :
  (forall t, In t (tables L) ->
             table_id (f t) = table_id t
             /\ map seat_id (seats (f t)) = map seat_id (seats t)) ->
  tables L' = map f (tables L) ->
  uniqueIds L' = uniqueIds L.
Proof.
  intros Hf HT. unfold uniqueIds. rewrite HT, map_map, forallb_map_eq.
  f_equal.
  - f_equal. apply map_ext_in. intros t Ht. apply (Hf t Ht).
  - apply forallb_ext_in. intros t Ht. now rewrite (proj2 (Hf t Ht)).
Qed.

Lemma distinct_filter_tables (p : Table -> bool) (ts : list Table) :
  distinct (map table_id ts) = true ->
  distinct (map table_id (filter p ts)) = true.
Proof.
  rewrite !distinct_NoDup. induction ts as [|t ts IH]; simpl; intros H; [exact H|].
  inversion H as [|? ? Hn Hd]; subst.
  destruct (p t); simpl; [constructor|]; auto.
  intros Hin. apply Hn. apply in_map_iff in Hin as (x & Hx & Hin).
  apply filter_In in Hin as [Hin _]. rewrite <- Hx. now apply in_map.
Qed.

Lemma forallb_filter_keep {A} (q p : A -> bool) (l : list A) :
  forallb q l = true -> forallb q (filter p l) = true.
Proof.
  rewrite !forallb_forall. intros H a Ha. apply filter_In in Ha as [Ha _]. auto.
Qed.

Lemma seat_ids_map (f : Seat -> Seat) (ss : list Seat) :
  (forall s, seat_id (f s) = seat_id s) ->
  map seat_id (map f ss) = map seat_id ss.
Proof. intros H. rewrite map_map. apply map_ext. exact H. Qed.

Lemma clearGuest_shape (g : jsstring) (t : Table) :
  table_id (clearGuest g t) = table_id t
  /\ map seat_id (seats (clearGuest g t)) = map seat_id (seats t).
Proof. split; [reflexivity|]. apply seat_ids_map, (seat_id_unseat g). Qed.

Lemma seatGuest_shape (g sid : jsstring) (t : Table) :
  table_id (seatGuest g sid t) = table_id t
  /\ map seat_id (seats (seatGuest g sid t)) = map seat_id (seats t).
Proof.
  split; [reflexivity|]. apply seat_ids_map.
  intros s. now destruct (eqb (seat_id s) sid).
Qed.

Lemma emptySeat_shape (sid : jsstring) (t : Table) :
  table_id (emptySeat sid t) = table_id t
  /\ map seat_id (seats (emptySeat sid t)) = map seat_id (seats t).
Proof.
  split; [reflexivity|]. apply seat_ids_map.
  intros s. now destruct (eqb (seat_id s) sid).
Qed.

Lemma step_uniqueIds (L : SeatingLayout) (o : Op) :
  drawsSeatIds o = false -> uniqueIds L = true -> uniqueIds (step L o) = true.
Proof.
  intros Hd HU. destruct o; try discriminate; simpl.
  - exact HU.
  - rewrite <- HU. apply (uniqueIds_map (clearGuest g)); [|reflexivity].
    intros t _. apply clearGuest_shape.
  - exact HU.
  - (* removeTable *)
    unfold uniqueIds in *. apply andb_true_iff in HU as [E1 E2].
    unfold removeTable; simpl. apply andb_true_iff. split.
    + now apply distinct_filter_tables.
    + now apply forallb_filter_keep.
  - rewrite <- HU.
    apply (uniqueIds_map
             (fun t => if eqb (table_id t) tid
                       then mkTable (table_id t) (type t) (name t) px py
                              (rotation t) (seats t) (rows t) (seatsPerRow t)
                              (rowConfigs t) (width t) (height t)
                       else t)); [|reflexivity].
    intros t _. now destruct (eqb (table_id t) tid).
  - rewrite <- HU.
    apply (uniqueIds_map
             (fun t => if eqb (table_id t) tid
                       then mkTable (table_id t) (type t) (name t) (x t) (y t)
                              rot (seats t) (rows t) (seatsPerRow t)
                              (rowConfigs t) (width t) (height t)
                       else t)); [|reflexivity].
    intros t _. now destruct (eqb (table_id t) tid).
  - rewrite <- HU.
    apply (uniqueIds_map
             (fun t => (fun t0 => if eqb (table_id t0) tid
                                  then seatGuest g sid t0 else t0)
                         (clearGuest g t))).
    + intros t _. cbv beta.
      change (table_id (clearGuest g t)) with (table_id t).
      destruct (eqb (table_id t) tid).
      * destruct (seatGuest_shape g sid (clearGuest g t)) as [-> ->].
        apply clearGuest_shape.
      * apply clearGuest_shape.
    + unfold assignGuestToSeat; simpl. now rewrite map_map.
  - (* unassignGuestFromSeat *)
    unfold unassignGuestFromSeat.
    destruct (findTable tid (tables L)) as [t|]; [|exact HU].
    destruct (findSeat sid (seats t)) as [s|]; [|exact HU].
    destruct (guestId s) as [g|]; [|exact HU].
    destruct (truthy g); [|exact HU].
    rewrite <- HU.
    apply (uniqueIds_map
             (fun t0 => if eqb (table_id t0) tid then emptySeat sid t0 else t0));
      [|reflexivity].
    intros t0 _. destruct (eqb (table_id t0) tid); [apply emptySeat_shape | now split].
  - (* moveGuestBetweenSeats *)
    rewrite <- HU. apply (uniqueIds_map (movedTable g fromT fromS toT toS)).
    + intros t _. unfold movedTable.
      destruct (eqb (table_id t) fromT); [apply emptySeat_shape|].
      destruct (eqb (table_id t) toT); [apply seatGuest_shape | now split].
    + pose proof (moveTables_fst g fromT fromS toT toS (tables L) None) as F.
      unfold moveGuestBetweenSeats.
      now destruct (moveTables g fromT fromS toT toS (tables L) None).
  - reflexivity.
  - reflexivity.
Qed.

End UniqueKept.

(** X11. Every store operation that draws no seat or table identifier (all
    but [addTable] and [updateTableConfig]) keeps the table identifiers
    unique and the seat identifiers of each table unique. *)
Theorem ids_stay_unique :
  forall (L : SeatingLayout) (o : Op),
    drawsSeatIds o = false ->
    uniqueIds L = true ->
    uniqueIds (step L o) = true.
Proof. exact step_uniqueIds. Qed.

Lemma ids_stay_unique_witness :
  uniqueIds (run seatedFour) = true
  /\ uniqueIds (step (run seatedFour) (OpMoveGuestBetweenSeats g0 t1 (seatN 0) t1 (seatN 1)))
     = true.
Proof.
  assert (H1 : uniqueIds (run seatedFour) = true) by (vm_compute; reflexivity).
  split; [exact H1|].
  exact (ids_stay_unique (run seatedFour)
           (OpMoveGuestBetweenSeats g0 t1 (seatN 0) t1 (seatN 1)) eq_refl H1).
Defined.

Section FreshDraws.

Lemma freshSeats_ids (u : nat -> jsstring) (n : Z) :
  map seat_id (freshSeats u n) = draws u (Z.to_nat n).
Proof. unfold freshSeats, draws. now rewrite map_map. Qed.

Lemma createSeats_ids (u : nat -> jsstring) (ty : TableType) (n : Z)
      (r c : option Z) :
  map seat_id (createSeats u ty n r c)
  = draws u (List.length (createSeats u ty n r c)).
Proof.
  destruct ty; simpl; now rewrite freshSeats_ids, freshSeats_length.
Qed.

Lemma copyGuests_ids (old new : list Seat) :
  map seat_id (copyGuests old new) = map seat_id new.
Proof.
  revert new. induction old as [|e old IH]; intros [|s new]; simpl; auto.
  now rewrite IH.
Qed.

Lemma numbered_by_old {A} (f : Seat -> A) (h : nat -> A) (old : list Seat) (n : nat) :
  map (fun i => match nth_error old i with
                | Some e => f e
                | None => h (i - List.length old)%nat
                end) (seq 0 n)
  = firstn n (map f old) ++ map h (seq 0 (n - List.length old)).
Proof.
  revert n. induction old as [|e old IH]; intros n.
  - rewrite firstn_nil, Nat.sub_0_r. simpl. apply map_ext.
    intros i. rewrite Nat.sub_0_r. now destruct i.
  - destruct n as [|n]; [reflexivity|].
    cbn [seq map firstn List.length Nat.sub app nth_error]. f_equal.
    rewrite <- seq_shift, map_map. rewrite <- IH.
    apply map_ext. reflexivity.
Qed.

Lemma rebuildSeats_ids (u : nat -> jsstring) (old : list Seat) (n : Z) :
  map seat_id (rebuildSeats u old n)
  = firstn (Z.to_nat n) (map seat_id old)
    ++ draws u (Z.to_nat n - List.length old).
Proof.
  unfold rebuildSeats, draws. rewrite map_map.
  rewrite <- (numbered_by_old seat_id u old (Z.to_nat n)).
  apply map_ext. intros i. now destruct (nth_error old i).
Qed.

Lemma NoDup_app_disjoint {A} (l r : list A) (a : A) :
  NoDup (l ++ r) -> In a l -> ~ In a r.
Proof.
  induction l as [|b l IH]; simpl; intros H Hin; [contradiction|].
  inversion H as [|? ? Hn Hd]; subst. destruct Hin as [->|Hin].
  - intros Hr. apply Hn, in_or_app. now right.
  - now apply IH.
Qed.

Lemma draws_prefix (u : nat -> jsstring) (k n : nat) :
  (k <= n)%nat -> exists rest, draws u n = draws u k ++ rest.
Proof.
  intros Hk. unfold draws. replace n with (k + (n - k))%nat by lia.
  rewrite seq_app, map_app. eauto.
Qed.

Lemma firstn_In {A} (n : nat) (l : list A) (a : A) : In a (firstn n l) -> In a l.
Proof.
  intros H. rewrite <- (firstn_skipn n l). apply in_or_app. now left.
Qed.

(** Old identifiers and fresh draws that are pairwise different give a
    regenerated seat list with unique identifiers. *)
Lemma regenerated_ids_distinct (u : nat -> jsstring) (cfg : TableConfigUpdate)
      (t : Table) :
  distinct (map seat_id (seats t)
            ++ draws u (List.length (seats (updatedTable u cfg t)))) = true ->
  distinct (map seat_id (seats (updatedTable u cfg t))) = true.
Proof.
  rewrite !distinct_NoDup. intros H.
  pose proof (indexed_regenerated u cfg t) as R.
  destruct (seatingChanged cfg) eqn:E.
  2:{ rewrite R. now apply NoDup_app_remove_r in H. }
  clear R. revert H. unfold updatedTable; simpl. rewrite E.
  destruct (cfg_rowConfigs cfg) as [rc|].
  - rewrite rebuildSeats_length, rebuildSeats_ids.
    set (N := Z.to_nat (nullish (cfg_seats cfg) (sumRows rc))).
    intros H.
    destruct (draws_prefix u (N - List.length (seats t)) N ltac:(lia)) as [rest Hr].
    rewrite Hr in H.
    apply NoDup_app.
    + apply NoDup_app_remove_r in H.
      rewrite <- (firstn_skipn N (map seat_id (seats t))) in H.
      now apply NoDup_app_remove_r in H.
    + apply NoDup_app_remove_l in H. now apply NoDup_app_remove_r in H.
    + intros a Ha Hb. apply (NoDup_app_disjoint _ _ a H).
      * exact (firstn_In _ _ _ Ha).
      * apply in_or_app. now left.
  - rewrite copyGuests_ids.
    destruct (copyGuests_positions (seats t)
                (createSeats u (type t)
                   (nullish (cfg_seats cfg) (Z.of_nat (List.length (seats t))))
                   (nullishOpt (cfg_rows cfg) (rows t))
                   (nullishOpt (cfg_seatsPerRow cfg) (seatsPerRow t))))
      as [_ ->].
    rewrite createSeats_ids. intros H. now apply NoDup_app_remove_l in H.
Qed.

End FreshDraws.

(** X12. [addTable] keeps identifiers unique when its draws are fresh: the
    first draw is no table identifier of the layout and the draws taken for
    the seats are pairwise different. (The first draw and the seats' draws
    need not differ.) *)
Theorem addTable_ids_unique :
  forall (u : nat -> jsstring) (ty : TableType) (nm : jsstring) (px py : Z)
         (L : SeatingLayout),
    uniqueIds L = true ->
    existsb (eqb (u 0%nat)) (map table_id (tables L)) = false ->
    distinct (draws (fun i => u (S i))
                    (Z.to_nat (snd (getDefaultTableSize ty)))) = true ->
    uniqueIds (addTable u ty nm px py L) = true.
Proof.
  intros u ty nm px py L HU Hfresh Hd.
  unfold uniqueIds in *. apply andb_true_iff in HU as [H1 H2].
  unfold addTable; simpl. rewrite map_app, forallb_app. simpl.
  apply andb_true_iff. split.
  - apply distinct_NoDup. apply distinct_NoDup in H1.
    apply NoDup_app; [exact H1 | repeat constructor; intros [] |].
    intros a Ha [<-|[]].
    apply existsb_eqb_In in Ha.
    assert (E : table_id (newTable u ty nm px py) = u 0%nat) by now destruct ty.
    rewrite E in Ha. congruence.
  - rewrite H2, andb_true_r. simpl.
    rewrite newTable_seats, createSeats_ids.
    assert (E : List.length
                  (createSeats (fun i => u (S i)) ty (snd (getDefaultTableSize ty))
                               (Some 5%Z) (Some 8%Z))
                = Z.to_nat (snd (getDefaultTableSize ty))) by now destruct ty.
    rewrite E. exact Hd.
Qed.

Lemma addTable_ids_unique_witness :
  uniqueIds (run seatedFour) = true
  /\ uniqueIds (addTable (tableDraws "t2" "p") square (lit "Table 2") 300 0
                         (run seatedFour)) = true.
Proof.
  assert (H1 : uniqueIds (run seatedFour) = true) by (vm_compute; reflexivity).
  split; [exact H1|].
  apply (addTable_ids_unique (tableDraws "t2" "p") square (lit "Table 2") 300 0
           (run seatedFour) H1); vm_compute; reflexivity.
Defined.

(** X13. [updateTableConfig] keeps identifiers unique when the draws it may
    take are pairwise different and differ from the seat identifiers of the
    table: seats that are kept keep their identifier, regenerated seats take
    the draws. *)
Theorem updateTableConfig_ids_unique :
  forall (u : nat -> jsstring) (tid : jsstring) (cfg : TableConfigUpdate)
         (L : SeatingLayout),
    uniqueIds L = true ->
    match findTable tid (tables L) with
    | Some t =>
        distinct (map seat_id (seats t)
                  ++ draws u (List.length (seats (updatedTable u cfg t))))
    | None => true
    end = true ->
    uniqueIds (updateTableConfig u tid cfg L) = true.
Proof.
  intros u tid cfg L HU Hd.
  destruct (findTable tid (tables L)) as [t|] eqn:Hf.
  2:{ now rewrite (updateTableConfig_missing u tid cfg L Hf). }
  unfold updateTableConfig. rewrite Hf.
  pose proof (regenerated_ids_distinct u cfg t Hd) as Hnew.
  assert (Et : table_id t = tid).
  { apply eqb_eq. apply (find_some _ _ Hf). }
  unfold uniqueIds in *. apply andb_true_iff in HU as [H1 H2].
  cbn [tables]. apply andb_true_iff. split.
  - rewrite map_map. rewrite <- H1. f_equal. apply map_ext.
    intros x. destruct (eqb (table_id x) tid) eqn:E; [|reflexivity].
    apply eqb_eq in E. cbn [table_id updatedTable]. congruence.
  - rewrite forallb_map_eq. rewrite forallb_forall in *.
    intros x Hx. destruct (eqb (table_id x) tid); [exact Hnew | apply H2, Hx].
Qed.

Lemma updateTableConfig_ids_unique_witness :
  uniqueIds (run seatedFour) = true
  /\ uniqueIds (run resizedToSix) = true.
Proof.
  assert (H1 : uniqueIds (run seatedFour) = true) by (vm_compute; reflexivity).
  split; [exact H1|].
  change (run resizedToSix)
    with (updateTableConfig (idOf "r") t1 (seatsConfig 6) (run seatedFour)).
  apply (updateTableConfig_ids_unique (idOf "r") t1 (seatsConfig 6)
           (run seatedFour) H1); vm_compute; reflexivity.
Defined.

(* ------------------------------------------------------------------ *)
(** ** Full names *)

Section FullNames.

Lemma importLoop_inSync (u : nat -> jsstring) (names : list jsstring) (k : nat) :
  Forall nameInSync (importLoop u k names).
Proof.
  revert k. induction names as [|e names IH]; intros k; simpl; [constructor|].
  destruct (truthy (trim e)); [|apply IH].
  constructor; [|apply IH].
  unfold nameInSync, formattedName; simpl.
  destruct (p_middleName (parseGuestName (trim e))) as [m|]; simpl; [|reflexivity].
  now destruct (truthy m).
Qed.

Lemma addGuest_inSync (u : nat -> jsstring) (first last : jsstring)
      (middle : option jsstring) (L : SeatingLayout) :
  Forall nameInSync (guests L) ->
  Forall nameInSync (guests (addGuest u first last middle L)).
Proof.
  intros H. unfold addGuest; simpl. apply Forall_app. split; [exact H|].
  constructor; [|constructor].
  unfold nameInSync, formattedName; simpl.
  destruct middle as [m|]; simpl; [|reflexivity].
  destruct (truthy (trim m)) eqn:E; simpl; now rewrite ?E.
Qed.

Lemma step_inSync (L : SeatingLayout) (o : Op) :
  Forall nameInSync (guests L) -> Forall nameInSync (guests (step L o)).
Proof.
  intros H. destruct o; simpl; try exact H.
  - now apply addGuest_inSync.
  - now apply Forall_filter_keep.
  - apply Forall_app. split; [exact H | apply importLoop_inSync].
  - unfold updateTableConfig. now destruct (findTable tid (tables L)).
  - unfold unassignGuestFromSeat.
    destruct (findTable tid (tables L)) as [t|]; [|exact H].
    destruct (findSeat sid (seats t)) as [s|]; [|exact H].
    destruct (guestId s) as [g|]; [|exact H].
    now destruct (truthy g).
  - unfold moveGuestBetweenSeats.
    now destruct (moveTables g fromT fromS toT toS (tables L) None).
  - constructor.
Qed.

End FullNames.

(** X14. In every layout reached from the empty store, the full name of every
    guest is the formatted name of its own fields: last name, space, first
    name and, when the guest has a middle name, space and middle name; no
    operation lets them drift apart. *)
Theorem fullName_in_sync :
  forall ops : list Op, Forall nameInSync (guests (run ops)).
Proof.
  intros ops. unfold run.
  assert (G : forall L, Forall nameInSync (guests L) ->
                        Forall nameInSync (guests (fold_left step ops L))).
  { induction ops as [|o ops IH]; intros L H; simpl; [exact H|].
    apply IH, step_inSync, H. }
  apply G. constructor.
Qed.

Section Trimming.

Lemma trimStart_head (s r : jsstring) (c : N) :
  trimStart s = c :: r -> is_space c = false.
Proof.
  induction s as [|d s IH]; simpl; [discriminate|].
  destruct (is_space d) eqn:E; [exact IH|].
  intros H. injection H as <- _. exact E.
Qed.

Lemma trimStart_keeps_last (l : jsstring) (c : N) :
  is_space c = false -> exists l', trimStart (l ++ [c]) = l' ++ [c].
Proof.
  intros Hc. induction l as [|d l IH]; simpl.
  - rewrite Hc. now exists [].
  - destruct (is_space d); [exact IH|]. now exists (d :: l).
Qed.

Lemma trimEnd_nil : trimEnd [] = [].
Proof. reflexivity. Qed.

Lemma trimEnd_last_ok (l : jsstring) (c : N) :
  is_space c = false -> trimEnd (l ++ [c]) = l ++ [c].
Proof.
  intros Hc. unfold trimEnd. rewrite rev_app_distr. simpl. rewrite Hc.
  simpl. now rewrite rev_involutive.
Qed.

Lemma trimEnd_last (s r : jsstring) (c : N) :
  trimEnd s = r ++ [c] -> is_space c = false.
Proof.
  unfold trimEnd. intros H.
  apply (f_equal (@rev N)) in H. rewrite rev_involutive, rev_app_distr in H.
  simpl in H. exact (trimStart_head _ _ _ H).
Qed.

Lemma trimEnd_keeps_head (r : jsstring) (c : N) :
  is_space c = false -> exists r', trimEnd (c :: r) = c :: r'.
Proof.
  intros Hc. unfold trimEnd. simpl.
  destruct (trimStart_keeps_last (rev r) c Hc) as [l' ->].
  rewrite rev_app_distr. simpl. eauto.
Qed.

Lemma trim_Tight_id (s : jsstring) : Tight s -> trim s = s.
Proof.
  intros [(c & r & -> & Hc) (r' & z & E & Hz)]. unfold trim. simpl. rewrite Hc.
  rewrite E. now apply trimEnd_last_ok.
Qed.

Lemma trim_is_Tight (s : jsstring) : truthy (trim s) = true -> Tight (trim s).
Proof.
  unfold trim. destruct (trimStart s) as [|c r] eqn:E; [discriminate|].
  intros _. pose proof (trimStart_head _ _ _ E) as Hc.
  destruct (trimEnd_keeps_head r c Hc) as [r' Hr]. split.
  - exists c, r'. now split.
  - rewrite Hr. destruct (exists_last (l := c :: r') ltac:(discriminate))
      as (l & z & El).
    exists l, z. split; [exact El|].
    apply (trimEnd_last (c :: r) l z). now rewrite Hr.
Qed.

Lemma trim_nil : trim [] = [].
Proof. reflexivity. Qed.

Lemma trim_idempotent (s : jsstring) : trim (trim s) = trim s.
Proof.
  destruct (truthy (trim s)) eqn:E.
  - apply trim_Tight_id, trim_is_Tight, E.
  - destruct (trim s); [reflexivity | discriminate].
Qed.

Lemma Tight_join (a m b : jsstring) : Tight a -> Tight b -> Tight (a ++ m ++ b).
Proof.
  intros [(c & r & -> & Hc) _] [_ (r' & z & -> & Hz)]. split.
  - exists c, (r ++ m ++ r' ++ [z]). now split.
  - exists ((c :: r) ++ m ++ r'), z. split; [|exact Hz].
    now rewrite <- !app_assoc.
Qed.

Lemma Tight_truthy (s : jsstring) : Tight s -> truthy s = true.
Proof. now intros [(c & r & -> & _) _]. Qed.

(** A token is tight. *)
Lemma token_Tight (t : jsstring) :
  t <> [] -> forallb (fun c => negb (is_space c)) t = true -> Tight t.
Proof.
  intros Hne Hall. rewrite forallb_forall in Hall. split.
  - destruct t as [|c r]; [contradiction|]. exists c, r. split; [reflexivity|].
    apply negb_true_iff, Hall. now left.
  - destruct (exists_last Hne) as (l & z & ->). exists l, z.
    split; [reflexivity|]. apply negb_true_iff, Hall, in_or_app. right. now left.
Qed.

Lemma tokens_Tight (s : jsstring) : Forall Tight (tokens s).
Proof.
  pose proof (tokens_from_wellformed s [] eq_refl) as H.
  eapply Forall_impl; [|exact H]. intros t [H1 H2]. now apply token_Tight.
Qed.

Lemma join_Tight (ts : list jsstring) :
  ts <> [] -> Forall Tight ts -> Tight (join space ts).
Proof.
  intros Hne H. induction H as [|t ts Ht Hts IH]; [contradiction|].
  destruct ts as [|t' ts]; [exact Ht|].
  change (join space (t :: t' :: ts)) with (t ++ space ++ join space (t' :: ts)).
  apply Tight_join; [exact Ht | apply IH; discriminate].
Qed.

Lemma trim_space_Tight (t : jsstring) : Tight t -> trim (space ++ t) = t.
Proof.
  intros H. unfold trim. simpl.
  change (trimEnd (trimStart t) = t). apply (trim_Tight_id t H).
Qed.

(** The guest that [importGuests] makes of an entry carries, as full name,
    the tokens of the entry joined by single spaces. *)
Lemma importLoop_normalised (u : nat -> jsstring) (names : list jsstring) (k : nat) :
  Forall2 (fun e g => fullName g = join space (tokens e))
          (filter (fun e => negb (blank e)) names) (importLoop u k names).
Proof.
  revert k. induction names as [|e names IH]; intros k; simpl; [constructor|].
  rewrite truthy_trim. destruct (blank e) eqn:Hb; simpl; [apply IH|].
  constructor; [|apply IH].
  rewrite parseGuestName_tokens.
  pose proof (tokens_Tight e) as HT.
  destruct (tokens e) as [|p0 [|p1 [|p2 rest]]] eqn:Ht; simpl.
  - apply tokens_from_nil in Ht as [_ Ht]. congruence.
  - inversion HT; subst. now apply trim_space_Tight.
  - inversion HT as [|? ? H0 HT']; subst. inversion HT'; subst.
    apply trim_Tight_id. now apply (Tight_join p0 space p1).
  - inversion HT as [|? ? H0 HT']; subst. inversion HT' as [|? ? H1 HT'']; subst.
    assert (J : Tight (join space (p2 :: rest)))
      by (apply join_Tight; [discriminate | exact HT'']).
    pose proof (Tight_truthy _ J) as Tr. simpl in Tr. rewrite Tr. reflexivity.
Qed.

End Trimming.

(** X15. [importGuests] normalises white space: the guest created for an entry
    that is not blank has as full name the tokens of the entry joined by
    single spaces, whatever white space the entry had between or around
    them. *)
Theorem importGuests_normalises_names :
  forall (u : nat -> jsstring) (names : list jsstring) (L : SeatingLayout),
    exists created : list Guest,
      guests (importGuests u names L) = guests L ++ created
      /\ Forall2 (fun e g => fullName g = join space (tokens e))
                 (filter (fun e => negb (blank e)) names) created.
Proof.
  intros u names L. exists (importLoop u 0 names).
  split; [reflexivity | apply importLoop_normalised].
Qed.

Section Dialogs.

Lemma Forall2_and {A B} (P Q : A -> B -> Prop) (l : list A) (r : list B) :
  Forall2 P l r -> Forall2 Q l r -> Forall2 (fun a b => P a b /\ Q a b) l r.
Proof.
  intros H. induction H; intros HQ; inversion HQ; subst; constructor; auto.
Qed.

Lemma blank_rev (s : jsstring) : blank s = true -> blank (rev s) = true.
Proof.
  unfold blank. rewrite !forallb_forall. intros H c Hc. apply H. now apply in_rev.
Qed.

Lemma split_char_blank (sep : N) (s cur : jsstring) :
  blank cur = true -> blank s = true ->
  Forall (fun piece => blank piece = true) (split_char sep cur s).
Proof.
  revert cur. induction s as [|c s IH]; intros cur Hcur Hs; simpl.
  - constructor; [now apply blank_rev | constructor].
  - simpl in Hs. apply andb_true_iff in Hs as [Hc Hs].
    destruct (c =? sep)%N.
    + constructor; [now apply blank_rev | now apply IH].
    + apply IH; [|exact Hs]. simpl. now rewrite Hc.
Qed.

Lemma filter_none {A} (p : A -> bool) (l : list A) :
  Forall (fun a => p a = false) l -> filter p l = [].
Proof.
  intros H. induction H as [|a l Ha Hl IH]; simpl; [reflexivity|].
  now rewrite Ha.
Qed.

Lemma filter_nonblank_twice (l : list jsstring) :
  filter (fun e => negb (blank e)) (filter (fun n => truthy (trim n)) l)
  = filter (fun e => negb (blank e)) l.
Proof.
  rewrite (filter_ext (fun n => truthy (trim n)) (fun e => negb (blank e)))
    by apply truthy_trim.
  apply filter_idem.
Qed.

End Dialogs.

(** X16. The import dialog creates one guest for each line of its text that
    is not blank, in order: the name fields are parsed from the tokens of the
    line as [importGuests] does, the full name is the tokens joined by single
    spaces, the new guests are unassigned, and a blank text creates nobody. *)
Theorem GuestList_handleImport_lines :
  forall (u : nat -> jsstring) (importText : jsstring) (L : SeatingLayout),
    exists created : list Guest,
      tables (GuestList.handleImport u importText L) = tables L
      /\ guests (GuestList.handleImport u importText L) = guests L ++ created
      /\ unassignedGuests (GuestList.handleImport u importText L)
         = unassignedGuests L ++ map guest_id created
      /\ Forall2 (fun line g =>
                    parsedAs line g /\ fullName g = join space (tokens line))
                 (filter (fun e => negb (blank e)) (splitLines importText))
                 created.
Proof.
  intros u text L. unfold GuestList.handleImport.
  rewrite truthy_trim. destruct (blank text) eqn:Hb; simpl.
  - exists []. rewrite !app_nil_r. repeat split.
    rewrite filter_none; [constructor|].
    pose proof (split_char_blank 10 text [] eq_refl Hb) as H.
    eapply Forall_impl; [|exact H]. intros a Ha. simpl in Ha. now rewrite Ha.
  - exists (importLoop u 0 (filter (fun n => truthy (trim n)) (splitLines text))).
    repeat split.
    rewrite <- filter_nonblank_twice.
    apply Forall2_and; [apply importLoop_parsedAs | apply importLoop_normalised].
Qed.

(** X17. The add dialog refuses a guest whose first or last name is blank and
    leaves the store as it is; otherwise it adds one unassigned guest whose
    names are the trimmed fields, whose middle name is absent when the field
    is blank, and whose full name is last name, space, first name and, with a
    middle name, space and middle name. *)
Theorem GuestList_handleAddGuest_names :
  forall (u : nat -> jsstring) (f l m : jsstring) (L : SeatingLayout),
    if truthy (trim f) && truthy (trim l)
    then exists g : Guest,
        guests (GuestList.handleAddGuest u f l m L) = guests L ++ [g]
        /\ unassignedGuests (GuestList.handleAddGuest u f l m L)
           = unassignedGuests L ++ [guest_id g]
        /\ tables (GuestList.handleAddGuest u f l m L) = tables L
        /\ guest_id g = u 0%nat
        /\ firstName g = trim f /\ lastName g = trim l
        /\ middleName g = (if truthy (trim m) then Some (trim m) else None)
        /\ fullName g
           = trim l ++ space ++ trim f
             ++ (if truthy (trim m) then space ++ trim m else [])
    else GuestList.handleAddGuest u f l m L = L.
Proof.
  intros u f l m L. unfold GuestList.handleAddGuest.
  destruct (truthy (trim f)) eqn:Hf; [|reflexivity].
  destruct (truthy (trim l)) eqn:Hl; [|reflexivity]. simpl.
  eexists. unfold addGuest; simpl. rewrite !trim_idempotent.
  repeat split.
  - destruct (truthy (trim m)) eqn:Hm; simpl.
    + now rewrite trim_idempotent, Hm.
    + reflexivity.
  - destruct (truthy (trim m)) eqn:Hm; simpl.
    + rewrite trim_idempotent, Hm. reflexivity.
    + rewrite app_nil_r. apply trim_Tight_id.
      apply (Tight_join (trim l) space (trim f)); now apply trim_is_Tight.
Qed.

(* ------------------------------------------------------------------ *)
(** ** Geometry of the theater and of the square table *)

Section Grid.

Lemma grid_cell (n i : Z) :
  (0 < n)%Z -> (0 <= i)%Z ->
  (0 <= i / n /\ 0 <= Z.rem i n < n /\ i = n * (i / n) + Z.rem i n)%Z.
Proof.
  intros Hn Hi. rewrite Z.rem_mod_nonneg by lia.
  pose proof (Z.mod_pos_bound i n Hn). pose proof (Z.div_mod i n ltac:(lia)).
  pose proof (Z.div_pos i n Hi Hn). lia.
Qed.

End Grid.

(** X18. In a theater of [rows] rows of [seatsPerRow] seats, every seat index
    below [rows * seatsPerRow] is drawn inside the content box: its marker
    of 36 by 36 lies between the paddings, within the content width and
    height, hence within the container. *)
Theorem theater_seats_fit :
  forall rows seatsPerRow index : Z,
    (0 < rows)%Z -> (0 < seatsPerRow)%Z ->
    (0 <= index < rows * seatsPerRow)%Z ->
    let p := TheaterTable.getSeatPosition seatsPerRow index in
    (TheaterTable.paddingX <= fst p
     /\ fst p + TheaterTable.seatSize
        <= TheaterTable.paddingX + TheaterTable.contentWidth seatsPerRow
     /\ TheaterTable.headerHeight + TheaterTable.paddingY <= snd p
     /\ snd p + TheaterTable.seatSize
        <= TheaterTable.headerHeight + TheaterTable.paddingY
           + TheaterTable.contentHeight rows
     /\ fst p + TheaterTable.seatSize + TheaterTable.paddingX
        <= TheaterTable.containerWidth seatsPerRow
     /\ snd p + TheaterTable.seatSize + TheaterTable.paddingY
        <= TheaterTable.containerHeight rows)%Z.
Proof.
  intros rows spr index Hr Hs Hi p.
  destruct (grid_cell spr index Hs ltac:(lia)) as (Hq & Hc & E).
  assert (Hrow : (index / spr < rows)%Z).
  { apply Z.div_lt_upper_bound; lia. }
  unfold p, TheaterTable.getSeatPosition, TheaterTable.containerWidth,
    TheaterTable.containerHeight, TheaterTable.contentWidth,
    TheaterTable.contentHeight, TheaterTable.paddingX, TheaterTable.paddingY,
    TheaterTable.headerHeight, TheaterTable.seatSize, TheaterTable.seatSpacing,
    TheaterTable.rowSpacing; cbn [fst snd].
  repeat split; lia.
Qed.

Lemma theater_seats_fit_witness :
  (0 <= 39 < 5 * 8)%Z
  /\ (snd (TheaterTable.getSeatPosition 8 39) + TheaterTable.seatSize
      + TheaterTable.paddingY <= TheaterTable.containerHeight 5)%Z.
Proof.
  split; [lia|].
  apply (theater_seats_fit 5 8 39); lia.
Defined.

(** X19. Two different seats of a theater never overlap: their markers are
    apart by at least a marker and the seat spacing horizontally (60) or by a
    marker and the row spacing vertically (72). *)
Theorem theater_seats_apart :
  forall seatsPerRow i j : Z,
    (0 < seatsPerRow)%Z -> (0 <= i)%Z -> (0 <= j)%Z -> i <> j ->
    let p := TheaterTable.getSeatPosition seatsPerRow i in
    let q := TheaterTable.getSeatPosition seatsPerRow j in
    (TheaterTable.seatSize + TheaterTable.seatSpacing <= Z.abs (fst p - fst q)
     \/ TheaterTable.seatSize + TheaterTable.rowSpacing <= Z.abs (snd p - snd q))%Z.
Proof.
  intros spr i j Hs Hi Hj Hne p q.
  destruct (grid_cell spr i Hs Hi) as (Hqi & Hci & Ei).
  destruct (grid_cell spr j Hs Hj) as (Hqj & Hcj & Ej).
  unfold p, q, TheaterTable.getSeatPosition, TheaterTable.paddingX,
    TheaterTable.paddingY, TheaterTable.headerHeight, TheaterTable.seatSize,
    TheaterTable.seatSpacing, TheaterTable.rowSpacing; cbn [fst snd].
  destruct (Z.eq_dec (i / spr) (j / spr)) as [Eq|Nq].
  - left. assert (Z.rem i spr <> Z.rem j spr) by (intros E; apply Hne; lia). lia.
  - right. lia.
Qed.

Lemma theater_seats_apart_witness :
  (TheaterTable.seatSize + TheaterTable.seatSpacing
   <= Z.abs (fst (TheaterTable.getSeatPosition 8 7)
             - fst (TheaterTable.getSeatPosition 8 8))
   \/ TheaterTable.seatSize + TheaterTable.rowSpacing
      <= Z.abs (snd (TheaterTable.getSeatPosition 8 7)
                - snd (TheaterTable.getSeatPosition 8 8)))%Z.
Proof.
  apply (theater_seats_apart 8 7 8); lia.
Defined.

Section SquareSides.

Lemma ceilDiv4 (total : Z) :
  (1 <= total)%Z ->
  (1 <= SquareTable.seatsPerSide total
   /\ total <= 4 * SquareTable.seatsPerSide total)%Z.
Proof.
  intros H. unfold SquareTable.seatsPerSide, SquareTable.ceilDiv.
  pose proof (Z.div_mod (- total) 4 ltac:(lia)).
  pose proof (Z.mod_pos_bound (- total) 4 ltac:(lia)). lia.
Qed.

Lemma square_side_bounds (index total : Z) :
  (0 <= index < total)%Z -> (0 <= SquareTable.sideOf index total <= 3)%Z.
Proof.
  intros Hi.
  destruct (ceilDiv4 total ltac:(lia)) as [H1 H4].
  destruct (grid_cell (SquareTable.seatsPerSide total) index
              ltac:(lia) ltac:(lia)) as (Hq & Hc & E).
  assert (Hs : (index / SquareTable.seatsPerSide total < 4)%Z)
    by (apply Z.div_lt_upper_bound; lia).
  unfold SquareTable.sideOf. lia.
Qed.

End SquareSides.

(** X20. Every seat of a square table of [total >= 1] seats lands on one of
    the four sides, in a slot of its own: the side is 0, 1, 2 or 3 (never the
    fallback position), the slot is below the seats per side, and side and
    slot give the index back. *)
Theorem square_seat_sides :
  forall (tableSize : R) (index total : Z),
    (0 <= index < total)%Z ->
    let n := SquareTable.seatsPerSide total in
    let side := snd (SquareTable.getSeatInfo tableSize index total) in
    (side = SquareTable.sideOf index total
     /\ 0 <= side <= 3
     /\ 0 <= SquareTable.sideIndexOf index total < n
     /\ index = side * n + SquareTable.sideIndexOf index total)%Z.
Proof.
  intros size index total Hi n side.
  destruct (ceilDiv4 total ltac:(lia)) as [H1 H4]. fold n in H1, H4.
  destruct (grid_cell n index ltac:(lia) ltac:(lia)) as (Hq & Hc & E).
  assert (Hs : (index / n < 4)%Z) by (apply Z.div_lt_upper_bound; lia).
  unfold side, SquareTable.getSeatInfo, SquareTable.sideOf,
    SquareTable.sideIndexOf. cbn [snd]. fold n.
  repeat split; lia.
Qed.

Lemma square_seat_sides_witness :
  (0 <= 7 < 8)%Z
  /\ (snd (SquareTable.getSeatInfo 140 7 8) = 3)%Z.
Proof.
  split; [lia|].
  assert (H : (0 <= 7 < 8)%Z) by lia.
  destruct (square_seat_sides 140 7 8 H) as (E & _).
  rewrite E. reflexivity.
Defined.

Section SquareEdges.

Local Open Scope R_scope.

(** The offset of a slot along its side lies strictly inside the side. *)
Lemma square_slot_inside (size : R) (index total : Z) :
  0 < size -> (0 <= index < total)%Z ->
  0 < SquareTable.spacing size total
      * (IZR (SquareTable.sideIndexOf index total) + 1) < size.
Proof.
  intros Hsize Hi.
  destruct (ceilDiv4 total ltac:(lia)) as [H1 H4].
  destruct (grid_cell (SquareTable.seatsPerSide total) index ltac:(lia) ltac:(lia))
    as (_ & Hc & _).
  fold (SquareTable.sideIndexOf index total) in Hc.
  set (n := SquareTable.seatsPerSide total) in *.
  set (k := SquareTable.sideIndexOf index total) in *.
  assert (Hn : 1 <= IZR n) by (apply IZR_le in H1; exact H1).
  assert (Hk0 : 0 <= IZR k) by (apply (IZR_le 0 k); lia).
  assert (Hk1 : IZR k + 1 <= IZR n).
  { rewrite <- plus_IZR. apply IZR_le. lia. }
  assert (Esp : SquareTable.spacing size total * (IZR n + 1) = size).
  { unfold SquareTable.spacing. fold n.
    destruct (n >? 1)%Z eqn:E.
    - field. lra.
    - assert (n = 1%Z) by (rewrite Z.gtb_ltb in E; apply Z.ltb_ge in E; lia).
      replace (IZR n) with 1 by (subst n; now rewrite H). lra. }
  assert (Hsp : 0 < SquareTable.spacing size total).
  { apply (Rmult_lt_reg_r (IZR n + 1)); [lra|]. rewrite Esp. lra. }
  split; [nra|]. rewrite <- Esp at 2. nra.
Qed.

End SquareEdges.

(** X21. Arithmetic read over the reals. For a square table with a positive
    side and a seat index below the seat count, the centre of the seat marker
    lies 4 units outside the edge of its side (top, right, bottom or left)
    and strictly between the two corners of that edge. *)
Theorem square_seat_on_edge :
  forall (tableSize : R) (index total : Z),
    (0 < tableSize)%R ->
    (0 <= index < total)%Z ->
    let c := SquareTable.seatCenter tableSize index total in
    match SquareTable.sideOf index total with
    | 0%Z => (SquareTable.tableLeft < fst c < SquareTable.tableRight tableSize
              /\ snd c = SquareTable.tableTop - 4)%R
    | 1%Z => (fst c = SquareTable.tableRight tableSize + 4
              /\ SquareTable.tableTop < snd c < SquareTable.tableBottom tableSize)%R
    | 2%Z => (SquareTable.tableLeft < fst c < SquareTable.tableRight tableSize
              /\ snd c = SquareTable.tableBottom tableSize + 4)%R
    | 3%Z => (fst c = SquareTable.tableLeft - 4
              /\ SquareTable.tableTop < snd c < SquareTable.tableBottom tableSize)%R
    | _ => False
    end.
Proof.
  intros size index total Hsize Hi c.
  pose proof (square_slot_inside size index total Hsize Hi) as [S1 S2].
  pose proof (square_side_bounds index total Hi) as Hside.
  unfold c, SquareTable.seatCenter, SquareTable.getSeatInfo.
  cbn [fst snd].
  unfold SquareTable.tableRight, SquareTable.tableBottom, SquareTable.tableLeft,
    SquareTable.tableTop, SquareTable.seatSize, SquareTable.seatOffset.
  destruct (SquareTable.sideOf index total) as [|[[|[]|]|[]|]|]; try lia;
    cbn [fst snd]; lra.
Qed.

Lemma square_seat_on_edge_witness :
  (0 < 140)%R /\ (0 <= 7 < 8)%Z
  /\ fst (SquareTable.seatCenter 140 7 8) = (SquareTable.tableLeft - 4)%R.
Proof.
  assert (H1 : (0 < 140)%R) by lra.
  assert (H2 : (0 <= 7 < 8)%Z) by lia.
  split; [exact H1|]. split; [exact H2|].
  pose proof (square_seat_on_edge 140 7 8 H1 H2) as H.
  change (SquareTable.sideOf 7 8) with 3%Z in H. exact (proj1 H).
Defined.

(* ------------------------------------------------------------------ *)
(** ** The amphitheater: rows *)

Section AmphitheaterRows.

Lemma sumRows_from (rc : list TableRow) (a : Z) :
  fold_left (fun sum r => (sum + seatCount r)%Z) rc a = (a + sumRows rc)%Z.
Proof.
  unfold sumRows. revert a. induction rc as [|r rc IH]; intros a; simpl; [lia|].
  rewrite IH, (IH (seatCount r)). lia.
Qed.

Lemma sumRows_cons (r : TableRow) (rc : list TableRow) :
  sumRows (r :: rc) = (seatCount r + sumRows rc)%Z.
Proof. unfold sumRows at 1. simpl. apply sumRows_from. Qed.

Lemma sumRows_app (l r : list TableRow) :
  sumRows (l ++ r) = (sumRows l + sumRows r)%Z.
Proof.
  induction l as [|a l IH]; simpl; [reflexivity|].
  rewrite !sumRows_cons, IH. lia.
Qed.

Lemma sumRows_nonneg (rc : list TableRow) :
  Forall (fun r => (0 <= seatCount r)%Z) rc -> (0 <= sumRows rc)%Z.
Proof.
  intros H. induction H as [|r rc Hr Hrc IH]; [reflexivity|].
  rewrite sumRows_cons. lia.
Qed.

Lemma resolveRow_found (rc : list TableRow) (i : nat) (cum idx : Z) :
  (cum <= idx < cum + sumRows rc)%Z ->
  exists k row,
    fst (AmphitheaterTable.resolveRow (map seatCount rc) i cum idx) = (i + k)%nat
    /\ nth_error rc k = Some row
    /\ (0 <= snd (AmphitheaterTable.resolveRow (map seatCount rc) i cum idx)
        < seatCount row)%Z
    /\ (idx = cum + sumRows (firstn k rc)
              + snd (AmphitheaterTable.resolveRow (map seatCount rc) i cum idx))%Z.
Proof.
  revert i cum. induction rc as [|r rc IH]; intros i cum H; simpl.
  - unfold sumRows in H; simpl in H. lia.
  - rewrite sumRows_cons in H.
    destruct (idx <? cum + seatCount r)%Z eqn:E.
    + apply Z.ltb_lt in E. exists 0%nat, r. simpl.
      rewrite Nat.add_0_r. repeat split; try lia.
      unfold sumRows; simpl. lia.
    + apply Z.ltb_ge in E.
      destruct (IH (S i) (cum + seatCount r)%Z ltac:(lia)) as (k & row & H1 & H2 & H3 & H4).
      exists (S k), row. simpl. rewrite sumRows_cons.
      repeat split; try lia. exact H2.
Qed.

Lemma resolveRow_top (rc : list TableRow) (idx : Z) :
  (0 <= idx < sumRows rc)%Z ->
  exists row,
    nth_error rc (fst (AmphitheaterTable.resolveRow (map seatCount rc) 0 0 idx))
    = Some row
    /\ (0 <= snd (AmphitheaterTable.resolveRow (map seatCount rc) 0 0 idx)
        < seatCount row)%Z
    /\ (idx = sumRows (firstn (fst (AmphitheaterTable.resolveRow
                                      (map seatCount rc) 0 0 idx)) rc)
              + snd (AmphitheaterTable.resolveRow (map seatCount rc) 0 0 idx))%Z.
Proof.
  intros H.
  destruct (resolveRow_found rc 0 0 idx ltac:(lia)) as (k & row & H1 & H2 & H3 & H4).
  simpl in H1. rewrite H1.
  exists row. repeat split; try lia. exact H2.
Qed.

End AmphitheaterRows.

(** X22. The amphitheater resolves a seat index below the total of its rows
    to a row that exists and a place inside that row: the place is at least 0
    and below the seat count of the row, and the seats of the rows before it
    plus the place give the index back. *)
Theorem amphitheater_row_resolution :
  forall (rc : list TableRow) (seatIndex : Z),
    (0 <= seatIndex < sumRows rc)%Z ->
    let rp := AmphitheaterTable.resolveRow (map seatCount rc) 0 0 seatIndex in
    exists row,
      nth_error rc (fst rp) = Some row
      /\ (0 <= snd rp < seatCount row)%Z
      /\ (seatIndex = sumRows (firstn (fst rp) rc) + snd rp)%Z.
Proof.
  intros rc idx H rp. exact (resolveRow_top rc idx H).
Qed.

Lemma amphitheater_row_resolution_witness :
  (0 <= 17 < sumRows (repeat (mkRow 8) 5))%Z
  /\ exists row,
      nth_error (repeat (mkRow 8) 5)
        (fst (AmphitheaterTable.resolveRow (map seatCount (repeat (mkRow 8) 5)) 0 0 17))
      = Some row
      /\ (0 <= snd (AmphitheaterTable.resolveRow
                      (map seatCount (repeat (mkRow 8) 5)) 0 0 17)
          < seatCount row)%Z
      /\ (17 = sumRows (firstn
                 (fst (AmphitheaterTable.resolveRow
                         (map seatCount (repeat (mkRow 8) 5)) 0 0 17))
                 (repeat (mkRow 8) 5))
               + snd (AmphitheaterTable.resolveRow
                        (map seatCount (repeat (mkRow 8) 5)) 0 0 17))%Z.
Proof.
  assert (H : (0 <= 17 < sumRows (repeat (mkRow 8) 5))%Z) by (vm_compute; split; congruence).
  split; [exact H|].
  exact (amphitheater_row_resolution (repeat (mkRow 8) 5) 17 H).
Defined.

Section AmphitheaterControls.

Lemma findTable_replaced (tid : jsstring) (ut : Table) (ts : list Table) (t : Table) :
  findTable tid ts = Some t -> table_id ut = tid ->
  findTable tid (map (fun x => if eqb (table_id x) tid then ut else x) ts) = Some ut.
Proof.
  intros Hf Hid. induction ts as [|x ts IH]; simpl in *; [discriminate|].
  destruct (eqb (table_id x) tid) eqn:E; simpl.
  - now rewrite Hid, eqb_refl.
  - rewrite E. apply IH, Hf.
Qed.

(** What the configuration of the three controls does to the table. *)
Lemma rowsUpdate_table (u : nat -> jsstring) (t : Table) (L : SeatingLayout)
      (newConfigs : list TableRow) (rws : option Z) :
  findTable (table_id t) (tables L) = Some t ->
  (0 <= sumRows newConfigs)%Z ->
  let L' := updateTableConfig u (table_id t)
              (AmphitheaterTable.rowsUpdate newConfigs rws (sumRows newConfigs)) L in
  seatsMatchRows (table_id t) L' = true
  /\ (forall k, rowCountAt (table_id t) k L'
                = option_map seatCount (nth_error newConfigs k))
  /\ guests L' = guests L /\ unassignedGuests L' = unassignedGuests L.
Proof.
  intros Hf Hsum L'.
  assert (F : findTable (table_id t) (tables L')
              = Some (updatedTable u
                        (AmphitheaterTable.rowsUpdate newConfigs rws (sumRows newConfigs))
                        t)).
  { unfold L', updateTableConfig. rewrite Hf. cbn [tables].
    apply (findTable_replaced _ _ _ t Hf). reflexivity. }
  split; [|split].
  - unfold seatsMatchRows. rewrite F. cbn [rowConfigs updatedTable
      AmphitheaterTable.rowsUpdate cfg_rowConfigs nullishOpt].
    unfold updatedTable, seatingChanged; simpl.
    rewrite rebuildSeats_length. apply Z.eqb_eq. now rewrite Z2Nat.id.
  - intros k. unfold rowCountAt. now rewrite F.
  - unfold L', updateTableConfig. now rewrite Hf.
Qed.

Lemma setRow_nth (rc : list TableRow) (k : nat) (row : TableRow) :
  (k < List.length rc)%nat -> nth_error (AmphitheaterTable.setRow rc k row) k = Some row.
Proof.
  revert k. induction rc as [|r rc IH]; intros [|k] H; simpl in *; try lia.
  - reflexivity.
  - apply IH. lia.
Qed.

Lemma setRow_nonneg (rc : list TableRow) (k : nat) (row : TableRow) :
  (0 <= seatCount row)%Z ->
  Forall (fun r => (0 <= seatCount r)%Z) rc ->
  Forall (fun r => (0 <= seatCount r)%Z) (AmphitheaterTable.setRow rc k row).
Proof.
  intros Hrow H. revert k. induction H as [|r rc Hr Hrc IH]; intros k; simpl.
  - destruct k; constructor.
  - destruct k; constructor; auto.
Qed.

Lemma removelast_nonneg (rc : list TableRow) :
  Forall (fun r => (0 <= seatCount r)%Z) rc ->
  Forall (fun r => (0 <= seatCount r)%Z) (removelast rc).
Proof.
  intros H. induction H as [|r rc Hr Hrc IH]; simpl; [constructor|].
  destruct rc; [constructor|]. constructor; auto.
Qed.

End AmphitheaterControls.

(** X23. The controls of the amphitheater keep its seats in step with its
    rows. For the table of the layout, with row counts that are not
    negative: after changing the seats of an existing row, after adding a row
    and after removing a row the table has as many seats as its per-row
    counts add up to, and the guest list and the unassigned list are left as
    they are; the row that was changed has between 2 and 20 seats; removing
    the only row is refused and returns the layout as it is. *)
Theorem amphitheater_controls_keep_seat_count :
  forall (u : nat -> jsstring) (t : Table) (L : SeatingLayout)
         (rowIndex : nat) (delta : Z),
    findTable (table_id t) (tables L) = Some t ->
    Forall (fun r => (0 <= seatCount r)%Z) (AmphitheaterTable.rowConfigsOf t) ->
    (rowIndex < List.length (AmphitheaterTable.rowConfigsOf t))%nat ->
    let U := AmphitheaterTable.updateRowSeatCount u t rowIndex delta L in
    let A := AmphitheaterTable.addRow u t L in
    let D := AmphitheaterTable.removeRow u t L in
    (seatsMatchRows (table_id t) U = true
     /\ (exists c, rowCountAt (table_id t) rowIndex U = Some c /\ (2 <= c <= 20)%Z)
     /\ guests U = guests L /\ unassignedGuests U = unassignedGuests L)
    /\ (seatsMatchRows (table_id t) A = true
        /\ guests A = guests L /\ unassignedGuests A = unassignedGuests L)
    /\ (if (List.length (AmphitheaterTable.rowConfigsOf t) <=? 1)%nat
        then D = L
        else seatsMatchRows (table_id t) D = true
             /\ guests D = guests L /\ unassignedGuests D = unassignedGuests L).
Proof.
  intros u t L rowIndex delta Hf Hnn Hidx U A D.
  split; [|split].
  - unfold U, AmphitheaterTable.updateRowSeatCount.
    set (newCount := Z.max 2 (Z.min 20 _)).
    assert (Hc : (2 <= newCount <= 20)%Z) by (unfold newCount; lia).
    set (newConfigs := AmphitheaterTable.setRow _ rowIndex (mkRow newCount)).
    assert (Hs : (0 <= sumRows newConfigs)%Z).
    { apply sumRows_nonneg, setRow_nonneg; [simpl; lia | exact Hnn]. }
    destruct (rowsUpdate_table u t L newConfigs None Hf Hs) as (H1 & H2 & H3 & H4).
    repeat split; auto.
    exists newCount. split; [|exact Hc].
    rewrite H2. unfold newConfigs. now rewrite setRow_nth.
  - unfold A, AmphitheaterTable.addRow.
    set (lastCount := match nth_error _ _ with Some r => _ | None => 8%Z end).
    assert (Hl : (0 <= lastCount)%Z).
    { unfold lastCount.
      destruct (nth_error (AmphitheaterTable.rowConfigsOf t)
                          (List.length (AmphitheaterTable.rowConfigsOf t) - 1))
        as [r|] eqn:E; [|lia].
      apply nth_error_In in E. rewrite Forall_forall in Hnn.
      specialize (Hnn r E). unfold orDefault.
      destruct (seatCount r =? 0)%Z; lia. }
    set (newConfigs := _ ++ [mkRow lastCount]).
    assert (Hs : (0 <= sumRows newConfigs)%Z).
    { apply sumRows_nonneg, Forall_app. split; [exact Hnn|].
      constructor; [exact Hl | constructor]. }
    destruct (rowsUpdate_table u t L newConfigs
                (Some (Z.of_nat (List.length newConfigs))) Hf Hs)
      as (H1 & _ & H3 & H4).
    repeat split; auto.
  - unfold D, AmphitheaterTable.removeRow.
    destruct (List.length (AmphitheaterTable.rowConfigsOf t) <=? 1)%nat;
      [reflexivity|].
    set (newConfigs := removelast _).
    assert (Hs : (0 <= sumRows newConfigs)%Z).
    { apply sumRows_nonneg, removelast_nonneg, Hnn. }
    destruct (rowsUpdate_table u t L newConfigs
                (Some (Z.of_nat (List.length newConfigs))) Hf Hs)
      as (H1 & _ & H3 & H4).
    repeat split; auto.
Qed.

Lemma amphitheater_controls_keep_seat_count_witness :
  findTable (table_id hall) (tables (run hallOps)) = Some hall
  /\ seatsMatchRows (table_id hall)
       (AmphitheaterTable.updateRowSeatCount (idOf "n") hall 2 1 (run hallOps))
     = true.
Proof.
  assert (H1 : findTable (table_id hall) (tables (run hallOps)) = Some hall)
    by (vm_compute; reflexivity).
  assert (H2 : Forall (fun r => (0 <= seatCount r)%Z)
                      (AmphitheaterTable.rowConfigsOf hall)).
  { vm_compute. repeat (constructor; [discriminate|]). constructor. }
  assert (H3 : (2 < List.length (AmphitheaterTable.rowConfigsOf hall))%nat)
    by (vm_compute; lia).
  split; [exact H1|].
  exact (proj1 (proj1 (amphitheater_controls_keep_seat_count
                         (idOf "n") hall (run hallOps) 2 1 H1 H2 H3))).
Defined.

Section AmphitheaterArc.

Local Open Scope R_scope.

Lemma arc_angle_bounds (n p : Z) :
  (0 <= p < n)%Z ->
  - (PI / 2) < - PI / 2 + (IZR p + 1) * (PI / (IZR n + 1)) < PI / 2.
Proof.
  intros H.
  assert (Hp : 0 <= IZR p) by (apply (IZR_le 0 p); lia).
  assert (Hn : IZR p + 1 <= IZR n) by (rewrite <- plus_IZR; apply IZR_le; lia).
  pose proof PI_RGT_0 as Hpi.
  set (d := IZR n + 1) in *.
  assert (Hd : 0 < d) by (unfold d; lra).
  set (q := PI / d).
  assert (Eq : q * d = PI) by (unfold q; field; lra).
  assert (Hq : 0 < q).
  { apply (Rmult_lt_reg_r d); [exact Hd|]. rewrite Eq. lra. }
  assert (K : (IZR p + 1) * q < PI).
  { rewrite <- Eq. unfold d. nra. }
  split; nra.
Qed.

End AmphitheaterArc.

(** X24. Arithmetic read over the reals. The marker of every seat of an
    amphitheater (index below the total of the rows) has its centre on the
    ellipse of its row, with horizontal half-axis the radius of the row
    (80 + 35 per row) and vertical half-axis 0.4 times that, centred on the
    centre line of the container and lowered by 72 per row; and the centre
    lies strictly to the right of that centre line. *)
Theorem amphitheater_seat_on_arc :
  forall (rc : list TableRow) (seatIndex : Z),
    (0 <= seatIndex < sumRows rc)%Z ->
    let rowIndex := fst (AmphitheaterTable.resolveRow (map seatCount rc) 0 0 seatIndex) in
    let p := AmphitheaterTable.getSeatPosition rc seatIndex in
    let cx := (fst p + AmphitheaterTable.seatSize / 2)%R in
    let cy := (snd p + AmphitheaterTable.seatSize / 2)%R in
    let centerX := (AmphitheaterTable.containerWidth rc / 2)%R in
    let centerY := (150 + INR rowIndex * 72)%R in
    let radius := AmphitheaterTable.radiusOf rowIndex in
    (centerX < cx
     /\ ((cx - centerX) ^ 2 * 0.4 ^ 2 + (cy - centerY) ^ 2
         = (0.4 * radius) ^ 2))%R.
Proof.
  intros rc idx H rowIndex p cx cy centerX centerY radius.
  destruct (resolveRow_top rc idx H) as (row & Hrow & Hp & _).
  fold rowIndex in Hrow.
  unfold cx, cy, p, AmphitheaterTable.getSeatPosition.
  destruct (AmphitheaterTable.resolveRow (map seatCount rc) 0 0 idx)
    as [r place] eqn:E.
  simpl in rowIndex, Hrow, Hp. subst rowIndex. rewrite Hrow. cbn [fst snd].
  set (angle := (- PI / 2 + (IZR place + 1) * (PI / (IZR (seatCount row) + 1)))%R).
  pose proof (arc_angle_bounds (seatCount row) place Hp) as [A1 A2].
  fold angle in A1, A2.
  pose proof (cos_gt_0 angle A1 A2) as Hcos.
  assert (Hr : (0 < radius)%R).
  { unfold radius, AmphitheaterTable.radiusOf, AmphitheaterTable.baseRadius,
      AmphitheaterTable.arcRadiusStep.
    pose proof (pos_INR r). nra. }
  fold radius. unfold centerX, centerY.
  unfold AmphitheaterTable.seatSize, AmphitheaterTable.headerHeight,
    AmphitheaterTable.padding, AmphitheaterTable.baseRadius,
    AmphitheaterTable.rowSpacing.
  split.
  - nra.
  - pose proof (sin2_cos2 angle) as T. unfold Rsqr in T.
    set (c := cos angle) in *. set (s := sin angle) in *.
    replace ((AmphitheaterTable.containerWidth rc / 2 + radius * c - 32 / 2
              + 32 / 2 - AmphitheaterTable.containerWidth rc / 2))%R
      with (radius * c)%R by lra.
    replace ((50 + 20 + 80 + radius * s * 0.4 - 32 / 2 + INR r * (32 + 20 * 2)
              + 32 / 2 - (150 + INR r * 72)))%R
      with (radius * s * 0.4)%R by lra.
    nra.
Qed.

Lemma amphitheater_seat_on_arc_witness :
  (0 <= 17 < sumRows (repeat (mkRow 8) 5))%Z
  /\ (AmphitheaterTable.containerWidth (repeat (mkRow 8) 5) / 2
      < fst (AmphitheaterTable.getSeatPosition (repeat (mkRow 8) 5) 17)
        + AmphitheaterTable.seatSize / 2)%R.
Proof.
  assert (H : (0 <= 17 < sumRows (repeat (mkRow 8) 5))%Z)
    by (vm_compute; split; congruence).
  split; [exact H|].
  exact (proj1 (amphitheater_seat_on_arc (repeat (mkRow 8) 5) 17 H)).
Defined.

(* ------------------------------------------------------------------ *)
(** ** Zoom and tooltips *)

(** X25. Arithmetic read over the reals. Whatever the sequence of zoom-in,
    zoom-out and reset presses, the scale of the canvas stays between 0.3
    and 3. *)
Theorem canvas_scale_bounded :
  forall presses : list Canvas.ZoomAction,
    (0.3 <= Canvas.scaleAfter presses <= 3)%R.
Proof.
  intros presses. unfold Canvas.scaleAfter.
  assert (G : forall s, (0.3 <= s <= 3)%R ->
                        (0.3 <= fold_left Canvas.zoom presses s <= 3)%R).
  { induction presses as [|a presses IH]; intros s Hs; simpl; [exact Hs|].
    apply IH. destruct a; simpl.
    - unfold Canvas.zoomIn, Rmin. destruct (Rle_dec (s * 1.2) 3); lra.
    - unfold Canvas.zoomOut, Rmax. destruct (Rle_dec (s / 1.2) 0.3); lra.
    - unfold Canvas.resetZoom. lra. }
  apply G. lra.
Qed.

(** X26. Arithmetic read over the reals. On a round table with at least one
    seat and a positive seat radius, the tooltip of every seat is shown on a
    side that faces away from the centre of the table: right of a seat that
    is right of the centre, left of one that is left of it, below one that is
    below it and above one that is above it. *)
Theorem round_table_tooltip_faces_outward :
  forall (w : R) (i n : nat) (dflt : SeatMarker.TooltipSide),
    (1 <= n)%nat ->
    (0 < RoundTable.seatRadius w)%R ->
    let c := RoundTable.centerOffset w in
    let dx := (fst (RoundTable.seatCenter w i n) - c)%R in
    let dy := (snd (RoundTable.seatCenter w i n) - c)%R in
    match SeatMarker.getTooltipSideFromCenter dflt
            (RoundTable.getSeatPosition w (INR i) (INR n))
            RoundTable.seatSize (Some (c, c)) with
    | SeatMarker.SideRight => (0 < dx)%R
    | SeatMarker.SideLeft => (dx < 0)%R
    | SeatMarker.SideBottom => (0 < dy)%R
    | SeatMarker.SideTop => (dy < 0)%R
    end.
Proof.
  intros w i n dflt Hn Hr c dx dy.
  unfold SeatMarker.getTooltipSideFromCenter. cbn [fst snd].
  change (fst (RoundTable.getSeatPosition w (INR i) (INR n))
          + RoundTable.seatSize / 2 - c)%R with dx.
  change (snd (RoundTable.getSeatPosition w (INR i) (INR n))
          + RoundTable.seatSize / 2 - c)%R with dy.
  assert (Circle : (dx ^ 2 + dy ^ 2 = RoundTable.seatRadius w ^ 2)%R).
  { unfold dx, dy, c. rewrite seatCenter_on_circle. cbn [fst snd].
    set (a := RoundTable.seatAngle (INR i) (INR n)).
    pose proof (sin2_cos2 a) as T. unfold Rsqr in T.
    replace (RoundTable.centerOffset w + RoundTable.seatRadius w * cos a
             - RoundTable.centerOffset w)%R
      with (RoundTable.seatRadius w * cos a)%R by lra.
    replace (RoundTable.centerOffset w + RoundTable.seatRadius w * sin a
             - RoundTable.centerOffset w)%R
      with (RoundTable.seatRadius w * sin a)%R by lra.
    nra. }
  assert (Pos : (0 < dx ^ 2 + dy ^ 2)%R) by (rewrite Circle; nra).
  destruct (Rgt_dec (Rabs dx) (Rabs dy)) as [Hgt|Hle].
  - destruct (Rgt_dec dx 0) as [Hx|Hx]; [lra|].
    assert (dx <> 0)%R.
    { intros E. rewrite E, Rabs_R0 in Hgt. pose proof (Rabs_pos dy). lra. }
    lra.
  - destruct (Rgt_dec dy 0) as [Hy|Hy]; [lra|].
    assert (dy <> 0)%R.
    { intros E. rewrite E, Rabs_R0 in Hle.
      assert (Rabs dx = 0)%R by (pose proof (Rabs_pos dx); lra).
      assert (dx = 0)%R.
      { destruct (Req_dec dx 0) as [|N]; [assumption|].
        pose proof (Rabs_pos_lt dx N). lra. }
      subst dy. rewrite E in Pos. nra. }
    lra.
Qed.

Lemma round_table_tooltip_faces_outward_witness :
  (1 <= 4)%nat /\ (0 < RoundTable.seatRadius 160)%R
  /\ match SeatMarker.getTooltipSideFromCenter SeatMarker.SideTop
             (RoundTable.getSeatPosition 160 (INR 1) (INR 4))
             RoundTable.seatSize
             (Some (RoundTable.centerOffset 160, RoundTable.centerOffset 160)) with
     | SeatMarker.SideRight =>
         (0 < fst (RoundTable.seatCenter 160 1 4) - RoundTable.centerOffset 160)%R
     | SeatMarker.SideLeft =>
         (fst (RoundTable.seatCenter 160 1 4) - RoundTable.centerOffset 160 < 0)%R
     | SeatMarker.SideBottom =>
         (0 < snd (RoundTable.seatCenter 160 1 4) - RoundTable.centerOffset 160)%R
     | SeatMarker.SideTop =>
         (snd (RoundTable.seatCenter 160 1 4) - RoundTable.centerOffset 160 < 0)%R
     end.
Proof.
  assert (H1 : (1 <= 4)%nat) by lia.
  assert (H2 : (0 < RoundTable.seatRadius 160)%R).
  { unfold RoundTable.seatRadius, RoundTable.tableRadius,
      RoundTable.tableDiameter, RoundTable.seatSize. lra. }
  split; [exact H1|]. split; [exact H2|].
  exact (round_table_tooltip_faces_outward 160 1 4 SeatMarker.SideTop H1 H2).
Defined.

(* ------------------------------------------------------------------ *)
(** ** Dropping a guest on a seat *)

Section Dropping.

Lemma findTable_in (t : Table) (ts : list Table) :
  distinct (map table_id ts) = true -> In t ts ->
  findTable (table_id t) ts = Some t.
Proof.
  induction ts as [|a ts IH]; intros D Hin; [destruct Hin|].
  change (map table_id (a :: ts)) with (table_id a :: map table_id ts) in D.
  apply distinct_cons in D as [Hn D]. simpl.
  destruct Hin as [->|Hin]; [now rewrite eqb_refl|].
  destruct (eqb (table_id a) (table_id t)) eqn:E; [|exact (IH D Hin)].
  apply eqb_eq in E. elim Hn. rewrite E. now apply in_map.
Qed.

Lemma findSeat_in (s : Seat) (ss : list Seat) :
  distinct (map seat_id ss) = true -> In s ss ->
  findSeat (seat_id s) ss = Some s.
Proof.
  induction ss as [|a ss IH]; intros D Hin; [destruct Hin|].
  change (map seat_id (a :: ss)) with (seat_id a :: map seat_id ss) in D.
  apply distinct_cons in D as [Hn D]. simpl.
  destruct Hin as [->|Hin]; [now rewrite eqb_refl|].
  destruct (eqb (seat_id a) (seat_id s)) eqn:E; [|exact (IH D Hin)].
  apply eqb_eq in E. elim Hn. rewrite E. now apply in_map.
Qed.

(** A marker that shows nobody stands on a seat that holds no guest of the
    list. *)
Lemma shown_nobody (L : SeatingLayout) (s : Seat) (gu : Guest) :
  guestIdsTruthy L = true ->
  SeatMarker.shownGuest (guests L) s = None ->
  In gu (guests L) -> holds s (guest_id gu) = false.
Proof.
  unfold guestIdsTruthy, SeatMarker.shownGuest, holds.
  intros Ht Hs Hin. rewrite forallb_forall in Ht.
  destruct (guestId s) as [gid|]; [|reflexivity].
  destruct (eqb gid (guest_id gu)) eqn:E; [|reflexivity].
  apply eqb_eq in E. subst gid. rewrite (Ht gu Hin) in Hs.
  pose proof (find_none _ _ Hs gu Hin) as K. cbv beta in K.
  rewrite eqb_refl in K. discriminate.
Qed.

End Dropping.

(** X27. A guest dragged from the list of unassigned guests and dropped on the
    marker of a seat: with unique identifiers, no empty guest identifier and
    a consistent layout, the layout stays consistent and the guest list is
    kept. A marker that shows a guest refuses the drop and nothing changes;
    otherwise a guest of the list lands on that very seat and leaves the
    unassigned list, and a dragged identifier that is not in the guest list
    changes nothing. *)
Theorem drop_of_unassigned_guest :
  forall (g : jsstring) (t : Table) (s : Seat) (L : SeatingLayout),
    uniqueIds L = true ->
    guestIdsTruthy L = true ->
    layoutInvariant L = true ->
    In t (tables L) ->
    In s (seats t) ->
    existsb (eqb g) (unassignedGuests L) = true ->
    let L' := dropOnSeat (Some (SeatMarker.mkDrag SeatMarker.DragGuest g)) t s L in
    layoutInvariant L' = true
    /\ guests L' = guests L
    /\ match SeatMarker.shownGuest (guests L) s with
       | Some _ => L' = L
       | None =>
           if hasGuest g L
           then seatRef (table_id t) (seat_id s) L' = Some (Some g)
                /\ countUnassigned g L' = 0%nat
                /\ countSeated g L' = 1%nat
           else L' = L
       end.
Proof.
  intros g t s L Hu Ht Hinv Hint Hins Hwait L'.
  unfold L', dropOnSeat, SeatMarker.handleDrop.
  destruct (SeatMarker.shownGuest (guests L) s) as [shown|] eqn:Hshown.
  { repeat split; [exact Hinv]. }
  cbn [SeatMarker.drag_type SeatMarker.drag_guestId].
  unfold handleDropOnSeat, hasGuest.
  destruct (find (fun g0 => eqb (guest_id g0) g) (guests L)) as [gu0|] eqn:Hfind.
  2:{ assert (E : existsb (fun gu => eqb (guest_id gu) g) (guests L) = false).
      { destruct (existsb (fun gu => eqb (guest_id gu) g) (guests L)) eqn:E;
          [|reflexivity].
        apply existsb_exists in E as (gu & Hin & Hgu).
        rewrite (find_none _ _ Hfind gu Hin) in Hgu. discriminate. }
      rewrite E. repeat split; exact Hinv. }
  assert (E : existsb (fun gu => eqb (guest_id gu) g) (guests L) = true).
  { apply existsb_exists. exists gu0. exact (find_some _ _ Hfind). }
  rewrite E, Hwait. cbn [negb].
  assert (Hf : findTable (table_id t) (tables L) = Some t)
    by (apply findTable_in; [apply uniqueIds_tables, Hu | exact Hint]).
  assert (Hs : findSeat (seat_id s) (seats t) = Some s)
    by (apply findSeat_in; [apply (uniqueIds_seats L _ t Hu Hf) | exact Hins]).
  assert (C : forall gu, In gu (guests L) ->
            countSeated (guest_id gu) (assignGuestToSeat g (table_id t) (seat_id s) L)
            = (if eqb (guest_id gu) g then 1 else countSeated (guest_id gu) L)%nat
            /\ countUnassigned (guest_id gu)
                 (assignGuestToSeat g (table_id t) (seat_id s) L)
               = (if eqb (guest_id gu) g then 0
                  else countUnassigned (guest_id gu) L)%nat).
  { intros gu Hin.
    destruct (assign_counts g (table_id t) (seat_id s) (guest_id gu) L t s Hu Hf Hs)
      as [K1 K2].
    split; [|exact K2].
    rewrite (shown_nobody L s gu Ht Hshown Hin) in K1. simpl in K1.
    destruct (eqb (guest_id gu) g); lia. }
  split; [|split; [reflexivity|split; [|split]]].
  - rewrite layoutInvariant_counts in *. intros gu Hin.
    change (In gu (guests L)) in Hin.
    destruct (C gu Hin) as [-> ->].
    destruct (eqb (guest_id gu) g); [reflexivity | apply Hinv, Hin].
  - exact (assign_seatRef g (table_id t) (seat_id s) L t s Hf Hs).
  - destruct (find_some _ _ Hfind) as [Hin Hid]. apply eqb_eq in Hid.
    destruct (C gu0 Hin) as [_ K]. rewrite Hid, eqb_refl in K. exact K.
  - destruct (find_some _ _ Hfind) as [Hin Hid]. apply eqb_eq in Hid.
    destruct (C gu0 Hin) as [K _]. rewrite Hid, eqb_refl in K. exact K.
Qed.

Lemma drop_of_unassigned_guest_witness :
  uniqueIds (run oneGuestOneTable) = true
  /\ guestIdsTruthy (run oneGuestOneTable) = true
  /\ layoutInvariant (run oneGuestOneTable) = true
  /\ In firstRound (tables (run oneGuestOneTable))
  /\ In thirdSeat (seats firstRound)
  /\ existsb (eqb g0) (unassignedGuests (run oneGuestOneTable)) = true
  /\ layoutInvariant
       (dropOnSeat (Some (SeatMarker.mkDrag SeatMarker.DragGuest g0))
                   firstRound thirdSeat (run oneGuestOneTable)) = true.
Proof.
  assert (H1 : uniqueIds (run oneGuestOneTable) = true)
    by (vm_compute; reflexivity).
  assert (H2 : guestIdsTruthy (run oneGuestOneTable) = true)
    by (vm_compute; reflexivity).
  assert (H3 : layoutInvariant (run oneGuestOneTable) = true)
    by (vm_compute; reflexivity).
  assert (H4 : In firstRound (tables (run oneGuestOneTable)))
    by (vm_compute; left; reflexivity).
  assert (H5 : In thirdSeat (seats firstRound))
    by (vm_compute; do 2 right; left; reflexivity).
  assert (H6 : existsb (eqb g0) (unassignedGuests (run oneGuestOneTable)) = true)
    by (vm_compute; reflexivity).
  repeat (split; [assumption|]).
  exact (proj1 (drop_of_unassigned_guest g0 firstRound thirdSeat
                  (run oneGuestOneTable) H1 H2 H3 H4 H5 H6)).
Defined.

Section DroppingSeated.

Lemma firstSeatOf_some (g : jsstring) (ts : list Table) (t : Table) (s : Seat) :
  firstSeatOf g ts = Some (t, s) ->
  In t ts /\ In s (seats t) /\ holds s g = true.
Proof.
  induction ts as [|a ts IH]; simpl; [discriminate|].
  destruct (find (fun s0 => holds s0 g) (seats a)) as [s0|] eqn:E.
  - intros H. injection H as <- <-. apply find_some in E as [E1 E2].
    split; [now left | split; assumption].
  - intros H. destruct (IH H) as (H1 & H2 & H3).
    split; [now right | split; assumption].
Qed.

Lemma seated_positive (g : jsstring) (L : SeatingLayout) (t : Table) (s : Seat) :
  In t (tables L) -> In s (seats t) -> holds s g = true ->
  (1 <= countSeated g L)%nat.
Proof.
  intros Ht Hs Hh. unfold countSeated.
  assert (Hin : In s (filter (fun s0 => holds s0 g) (flat_map seats (tables L)))).
  { apply filter_In. split; [|exact Hh].
    apply in_flat_map. exists t. split; assumption. }
  destruct (filter (fun s0 => holds s0 g) (flat_map seats (tables L)));
    [destruct Hin | simpl; lia].
Qed.

Lemma occ_none (g : jsstring) (l : list jsstring) :
  occ g l = 0%nat -> existsb (eqb g) l = false.
Proof.
  unfold occ. induction l as [|a l IH]; simpl; [reflexivity|].
  destruct (eqb g a); simpl; [discriminate | exact IH].
Qed.

Lemma hasGuest_find (g : jsstring) (L : SeatingLayout) :
  hasGuest g L = true ->
  exists gu, find (fun g0 => eqb (guest_id g0) g) (guests L) = Some gu
             /\ In gu (guests L) /\ guest_id gu = g.
Proof.
  unfold hasGuest. intros H. apply existsb_exists in H as (gu & Hin & Hid).
  destruct (find (fun g0 => eqb (guest_id g0) g) (guests L)) as [gu0|] eqn:E.
  - exists gu0. destruct (find_some _ _ E) as [H1 H2].
    apply eqb_eq in H2. now repeat split.
  - rewrite (find_none _ _ E gu Hin) in Hid. discriminate.
Qed.

(** A guest of a consistent layout who holds a seat is not waiting. *)
Lemma seated_not_waiting (g : jsstring) (L : SeatingLayout) (t : Table) (s : Seat) :
  layoutInvariant L = true -> hasGuest g L = true ->
  In t (tables L) -> In s (seats t) -> holds s g = true ->
  countSeated g L = 1%nat /\ countUnassigned g L = 0%nat
  /\ existsb (eqb g) (unassignedGuests L) = false.
Proof.
  intros Hinv Hhas Ht Hs Hh.
  destruct (hasGuest_find g L Hhas) as (gu & _ & Hin & Hid).
  rewrite layoutInvariant_counts in Hinv. specialize (Hinv gu Hin).
  rewrite Hid in Hinv.
  pose proof (seated_positive g L t s Ht Hs Hh) as P.
  assert (C : countUnassigned g L = 0%nat) by lia.
  repeat split; [lia | exact C | apply occ_none, C].
Qed.

(** The seat that holds [g] holds nobody else. *)
Lemma holds_only (s : Seat) (g g' : jsstring) :
  holds s g = true -> holds s g' = eqb g g'.
Proof.
  unfold holds. destruct (guestId s) as [a|]; [|discriminate].
  intros E. apply eqb_eq in E. now subst a.
Qed.

Lemma moveTables_same_snd (g fT fS tS : jsstring) (ts : list Table)
      (d : option jsstring) :
  snd (moveTables g fT fS fT tS ts d) = d.
Proof.
  induction ts as [|t ts IH]; simpl; [reflexivity|].
  destruct (eqb (table_id t) fT).
  - destruct (moveTables g fT fS fT tS ts d). exact IH.
  - destruct (moveTables g fT fS fT tS ts d). exact IH.
Qed.

(** A move inside one table only empties the source seat. *)
Lemma move_same_table (g fT fS tS : jsstring) (L : SeatingLayout) :
  moveGuestBetweenSeats g fT fS fT tS L
  = mkLayout (map (fun t => if eqb (table_id t) fT then emptySeat fS t else t)
                  (tables L))
             (guests L) (unassignedGuests L).
Proof.
  pose proof (moveTables_fst g fT fS fT tS (tables L) None) as F.
  pose proof (moveTables_same_snd g fT fS tS (tables L) None) as S.
  unfold moveGuestBetweenSeats.
  destruct (moveTables g fT fS fT tS (tables L) None) as [ts' d].
  simpl in F, S. subst ts' d. f_equal.
  apply map_ext. intros t. unfold movedTable.
  now destruct (eqb (table_id t) fT).
Qed.

End DroppingSeated.

(** X28. A guest who holds a seat, dragged from the guest list and dropped on
    the marker of a seat of another table: with unique identifiers, no empty
    guest identifier and a consistent layout, the layout stays consistent
    and the guest list is kept. A marker that shows a guest refuses the drop;
    otherwise the guest holds the new seat and the old seat is empty. *)
Theorem drop_of_seated_guest_other_table :
  forall (g : jsstring) (t ft : Table) (s fs : Seat) (L : SeatingLayout),
    uniqueIds L = true ->
    guestIdsTruthy L = true ->
    layoutInvariant L = true ->
    In t (tables L) ->
    In s (seats t) ->
    hasGuest g L = true ->
    firstSeatOf g (tables L) = Some (ft, fs) ->
    table_id ft <> table_id t ->
    let L' := dropOnSeat (Some (SeatMarker.mkDrag SeatMarker.DragGuest g)) t s L in
    layoutInvariant L' = true
    /\ guests L' = guests L
    /\ match SeatMarker.shownGuest (guests L) s with
       | Some _ => L' = L
       | None =>
           seatRef (table_id t) (seat_id s) L' = Some (Some g)
           /\ seatRef (table_id ft) (seat_id fs) L' = Some None
       end.
Proof.
  intros g t ft s fs L Hu Ht Hinv Hint Hins Hhas Hfirst Hne L'.
  unfold L', dropOnSeat, SeatMarker.handleDrop.
  destruct (SeatMarker.shownGuest (guests L) s) as [shown|] eqn:Hshown.
  { repeat split; exact Hinv. }
  cbn [SeatMarker.drag_type SeatMarker.drag_guestId].
  destruct (firstSeatOf_some g (tables L) ft fs Hfirst) as (Hinft & Hinfs & Hh).
  destruct (seated_not_waiting g L ft fs Hinv Hhas Hinft Hinfs Hh)
    as (_ & _ & Hwait).
  destruct (hasGuest_find g L Hhas) as (gu0 & Hfind & _ & _).
  unfold handleDropOnSeat. rewrite Hfind, Hwait, Hfirst. cbn [negb].
  pose proof (uniqueIds_tables L Hu) as D.
  assert (Eft : findTable (table_id ft) (tables L) = Some ft)
    by (apply findTable_in; assumption).
  assert (Efs : findSeat (seat_id fs) (seats ft) = Some fs)
    by (apply findSeat_in; [apply (uniqueIds_seats L _ ft Hu Eft) | exact Hinfs]).
  assert (Ett : findTable (table_id t) (tables L) = Some t)
    by (apply findTable_in; assumption).
  assert (Ets : findSeat (seat_id s) (seats t) = Some s)
    by (apply findSeat_in; [apply (uniqueIds_seats L _ t Hu Ett) | exact Hins]).
  set (M := moveGuestBetweenSeats g (table_id ft) (seat_id fs)
                                  (table_id t) (seat_id s) L).
  assert (G : guests M = guests L).
  { unfold M, moveGuestBetweenSeats.
    now destruct (moveTables g (table_id ft) (seat_id fs) (table_id t)
                             (seat_id s) (tables L) None). }
  assert (Hnobody : forall gu, In gu (guests L) -> holds s (guest_id gu) = false)
    by (intros gu Hin; exact (shown_nobody L s gu Ht Hshown Hin)).
  split; [|split; [exact G|split]].
  - rewrite layoutInvariant_counts in *. intros gu Hin. rewrite G in Hin.
    destruct (move_counts g (table_id ft) (seat_id fs) (table_id t) (seat_id s)
                (guest_id gu) L ft t fs s Hu Hne Eft Efs Ett Ets) as [K1 K2].
    fold M in K1, K2. specialize (Hinv gu Hin).
    rewrite (Hnobody gu Hin), (holds_only fs g (guest_id gu) Hh) in K1.
    assert (Z0 : match guestId s with
                 | Some d => b2n (truthy d && negb (eqb d g)
                                  && eqb (guest_id gu) d)
                 | None => 0%nat
                 end = 0%nat).
    { pose proof (Hnobody gu Hin) as N. unfold holds in N.
      destruct (guestId s) as [d|]; [|reflexivity].
      rewrite (eqb_sym (guest_id gu) d), N, andb_false_r. reflexivity. }
    rewrite Z0 in K2. simpl in K1. lia.
  - exact (proj1 (move_seatRefs g _ _ _ _ L ft t fs s Hne Eft Efs Ett Ets)).
  - exact (proj2 (move_seatRefs g _ _ _ _ L ft t fs s Hne Eft Efs Ett Ets)).
Qed.

Lemma drop_of_seated_guest_other_table_witness :
  uniqueIds (run twoTables) = true
  /\ In (tableAt 1 (run twoTables)) (tables (run twoTables))
  /\ In (seatAt 3 (tableAt 1 (run twoTables)))
        (seats (tableAt 1 (run twoTables)))
  /\ firstSeatOf g0 (tables (run twoTables))
     = Some (tableAt 0 (run twoTables), seatAt 0 (tableAt 0 (run twoTables)))
  /\ layoutInvariant
       (dropOnSeat (Some (SeatMarker.mkDrag SeatMarker.DragGuest g0))
                   (tableAt 1 (run twoTables))
                   (seatAt 3 (tableAt 1 (run twoTables)))
                   (run twoTables)) = true.
Proof.
  assert (H1 : uniqueIds (run twoTables) = true) by (vm_compute; reflexivity).
  assert (H2 : guestIdsTruthy (run twoTables) = true) by (vm_compute; reflexivity).
  assert (H3 : layoutInvariant (run twoTables) = true) by (vm_compute; reflexivity).
  assert (H4 : In (tableAt 1 (run twoTables)) (tables (run twoTables)))
    by (vm_compute; right; left; reflexivity).
  assert (H5 : In (seatAt 3 (tableAt 1 (run twoTables)))
                  (seats (tableAt 1 (run twoTables))))
    by (vm_compute; do 3 right; left; reflexivity).
  assert (H6 : hasGuest g0 (run twoTables) = true) by (vm_compute; reflexivity).
  assert (H7 : firstSeatOf g0 (tables (run twoTables))
               = Some (tableAt 0 (run twoTables),
                       seatAt 0 (tableAt 0 (run twoTables))))
    by (vm_compute; reflexivity).
  assert (H8 : table_id (tableAt 0 (run twoTables))
               <> table_id (tableAt 1 (run twoTables)))
    by (vm_compute; discriminate).
  repeat (split; [assumption|]).
  exact (proj1 (drop_of_seated_guest_other_table g0
                  (tableAt 1 (run twoTables)) (tableAt 0 (run twoTables))
                  (seatAt 3 (tableAt 1 (run twoTables)))
                  (seatAt 0 (tableAt 0 (run twoTables)))
                  (run twoTables) H1 H2 H3 H4 H5 H6 H7 H8)).
Defined.

(** X29. A guest who holds a seat, dragged from the guest list and dropped on
    a seat of the table they already sit at, on a marker that shows nobody:
    with unique identifiers, no empty guest identifier and a consistent
    layout, the move only empties the seat the guest held. Afterwards the guest is on no seat and not in
    the unassigned list, although still in the guest list, so the layout is
    no longer consistent. *)
Theorem drop_of_seated_guest_same_table :
  forall (g : jsstring) (t : Table) (s fs : Seat) (L : SeatingLayout),
    uniqueIds L = true ->
    guestIdsTruthy L = true ->
    layoutInvariant L = true ->
    In s (seats t) ->
    SeatMarker.shownGuest (guests L) s = None ->
    hasGuest g L = true ->
    firstSeatOf g (tables L) = Some (t, fs) ->
    let L' := dropOnSeat (Some (SeatMarker.mkDrag SeatMarker.DragGuest g)) t s L in
    guests L' = guests L
    /\ unassignedGuests L' = unassignedGuests L
    /\ seatRef (table_id t) (seat_id fs) L' = Some None
    /\ seatRef (table_id t) (seat_id s) L' = Some (guestId s)
    /\ countSeated g L' = 0%nat
    /\ countUnassigned g L' = 0%nat
    /\ layoutInvariant L' = false.
Proof.
  intros g t s fs L Hu Ht Hinv Hins Hshown Hhas Hfirst L'.
  destruct (firstSeatOf_some g (tables L) t fs Hfirst) as (Hint & Hinfs & Hh).
  destruct (seated_not_waiting g L t fs Hinv Hhas Hint Hinfs Hh)
    as (Cs & Cu & Hwait).
  destruct (hasGuest_find g L Hhas) as (gu0 & Hfind & Hin0 & Hid0).
  assert (E : L' = mkLayout
                     (map (fun t0 => if eqb (table_id t0) (table_id t)
                                     then emptySeat (seat_id fs) t0 else t0)
                          (tables L))
                     (guests L) (unassignedGuests L)).
  { unfold L', dropOnSeat, SeatMarker.handleDrop. rewrite Hshown.
    cbn [SeatMarker.drag_type SeatMarker.drag_guestId].
    unfold handleDropOnSeat. rewrite Hfind, Hwait, Hfirst. cbn [negb].
    apply move_same_table. }
  pose proof (uniqueIds_tables L Hu) as D.
  assert (Et : findTable (table_id t) (tables L) = Some t)
    by (apply findTable_in; assumption).
  pose proof (uniqueIds_seats L _ t Hu Et) as Ds.
  assert (Efs : findSeat (seat_id fs) (seats t) = Some fs)
    by (apply findSeat_in; assumption).
  assert (Es : findSeat (seat_id s) (seats t) = Some s)
    by (apply findSeat_in; assumption).
  assert (Hsfs : eqb (seat_id s) (seat_id fs) = false).
  { destruct (eqb (seat_id s) (seat_id fs)) eqn:Q; [|reflexivity].
    apply eqb_eq in Q. rewrite Q, Efs in Es. injection Es as <-.
    (* the seat of the guest would show the guest *)
    exfalso. unfold SeatMarker.shownGuest in Hshown. unfold holds in Hh.
    destruct (guestId fs) as [a|]; [|discriminate].
    apply eqb_eq in Hh. subst a.
    unfold guestIdsTruthy in Ht. rewrite forallb_forall in Ht.
    pose proof (Ht gu0 Hin0) as Tg. rewrite Hid0 in Tg.
    rewrite Tg, Hfind in Hshown. discriminate. }
  rewrite E. cbn [guests unassignedGuests].
  assert (Cs' : countSeated g (mkLayout
                     (map (fun t0 => if eqb (table_id t0) (table_id t)
                                     then emptySeat (seat_id fs) t0 else t0)
                          (tables L))
                     (guests L) (unassignedGuests L)) = 0%nat).
  { rewrite countSeated_tables in *. cbn [tables].
    pose proof (tables_replace g (table_id t) (emptySeat (seat_id fs))
                  (tables L) t D Et) as R.
    pose proof (seatedIn_set g (seat_id fs) None (seats t) fs Ds Efs) as W.
    change (seats (emptySeat (seat_id fs) t))
      with (map (fun x => if eqb (seat_id x) (seat_id fs)
                          then withGuest x None else x) (seats t)) in R.
    rewrite Hh in W. simpl in W. lia. }
  repeat split.
  - unfold seatRef. cbn [tables].
    rewrite (findTable_map
               (fun t0 => if eqb (table_id t0) (table_id t)
                          then emptySeat (seat_id fs) t0 else t0)).
    2:{ intros t0. now destruct (eqb (table_id t0) (table_id t)). }
    rewrite Et. cbn [option_map]. rewrite eqb_refl.
    cbn [seats emptySeat withSeats].
    rewrite findSeat_map by (intros s0; now destruct (eqb (seat_id s0) (seat_id fs))).
    rewrite Efs. simpl. now rewrite eqb_refl.
  - unfold seatRef. cbn [tables].
    rewrite (findTable_map
               (fun t0 => if eqb (table_id t0) (table_id t)
                          then emptySeat (seat_id fs) t0 else t0)).
    2:{ intros t0. now destruct (eqb (table_id t0) (table_id t)). }
    rewrite Et. cbn [option_map]. rewrite eqb_refl.
    cbn [seats emptySeat withSeats].
    rewrite findSeat_map by (intros s0; now destruct (eqb (seat_id s0) (seat_id fs))).
    rewrite Es. simpl. now rewrite Hsfs.
  - exact Cs'.
  - exact Cu.
  - match goal with |- layoutInvariant ?M = false =>
      destruct (layoutInvariant M) eqn:Q; [|reflexivity] end.
    rewrite layoutInvariant_counts in Q. specialize (Q gu0 Hin0).
    rewrite Hid0, Cs' in Q. unfold countUnassigned in Q, Cu.
    cbn [unassignedGuests] in Q. rewrite Cu in Q. discriminate.
Qed.

Lemma drop_of_seated_guest_same_table_witness :
  uniqueIds (run seatedFour) = true
  /\ layoutInvariant (run seatedFour) = true
  /\ In (seatAt 5 (tableAt 0 (run seatedFour)))
        (seats (tableAt 0 (run seatedFour)))
  /\ firstSeatOf g0 (tables (run seatedFour))
     = Some (tableAt 0 (run seatedFour), seatAt 0 (tableAt 0 (run seatedFour)))
  /\ layoutInvariant
       (dropOnSeat (Some (SeatMarker.mkDrag SeatMarker.DragGuest g0))
                   (tableAt 0 (run seatedFour))
                   (seatAt 5 (tableAt 0 (run seatedFour)))
                   (run seatedFour)) = false.
Proof.
  assert (H1 : uniqueIds (run seatedFour) = true) by (vm_compute; reflexivity).
  assert (H2 : guestIdsTruthy (run seatedFour) = true) by (vm_compute; reflexivity).
  assert (H3 : layoutInvariant (run seatedFour) = true) by (vm_compute; reflexivity).
  assert (H4 : In (seatAt 5 (tableAt 0 (run seatedFour)))
                  (seats (tableAt 0 (run seatedFour))))
    by (vm_compute; do 5 right; left; reflexivity).
  assert (H5 : SeatMarker.shownGuest (guests (run seatedFour))
                 (seatAt 5 (tableAt 0 (run seatedFour))) = None)
    by (vm_compute; reflexivity).
  assert (H6 : hasGuest g0 (run seatedFour) = true) by (vm_compute; reflexivity).
  assert (H7 : firstSeatOf g0 (tables (run seatedFour))
               = Some (tableAt 0 (run seatedFour),
                       seatAt 0 (tableAt 0 (run seatedFour))))
    by (vm_compute; reflexivity).
  repeat (split; [assumption|]).
  exact (proj2 (proj2 (proj2 (proj2 (proj2 (proj2
           (drop_of_seated_guest_same_table g0
              (tableAt 0 (run seatedFour))
              (seatAt 5 (tableAt 0 (run seatedFour)))
              (seatAt 0 (tableAt 0 (run seatedFour)))
              (run seatedFour) H1 H2 H3 H4 H5 H6 H7))))))).
Defined.
